(** * regex_parser: heuristic field extraction and date normalisation

    A shallow embedding of [regex_parser.py]: the 36-field schema, the
    date normaliser [format_date] and the field extractor
    [extract_fields_unlabeled], together with the parts of the Python
    runtime they rest on: the patterns and the backtracking matcher of
    [re], [str.strip], [str.join], [sorted], the proleptic Gregorian
    calendar of [datetime], [timedelta(days=...)] on binary64 numbers.

    Text is a [string]: every [ascii] is one code point below 256.
    [pandas.to_datetime] and the iteration order of a [set] are not part of
    the program; they are the two variables of Section [Extractor]. *)

From Stdlib Require Import ZArith Lia Bool List Ascii String.
From Stdlib Require Import Permutation Sorted.
From Stdlib Require DecimalString.
From Stdlib Require Import QArith Qround Qpower.
Close Scope Q_scope.
Import ListNotations.

Open Scope string_scope.

(** ** Exceptions *)

Inductive exn : Type :=
| KeyError
| ValueError
| OverflowError
| AttributeError
| ParserError.

Inductive result (A : Type) : Type :=
| Ok (a : A)
| Raise (e : exn).

Arguments Ok {A} a.
Arguments Raise {A} e.

Definition bind {A B : Type} (r : result A) (f : A -> result B) : result B :=
  match r with
  | Ok a => f a
  | Raise e => Raise e
  end.

Notation "x <- r ;; k" := (bind r (fun x => k))
  (at level 61, r at next level, right associativity).

(** ** Dictionaries

    A Python [dict] keeps its keys in insertion order; assigning to a key
    that is present replaces the value where it stands, assigning to a new
    key appends it. *)

Definition dict : Type := list (string * string).

Fixpoint dict_get (d : dict) (k : string) : result string :=
  match d with
  | [] => Raise KeyError
  | (k', v) :: d' => if String.eqb k' k then Ok v else dict_get d' k
  end.

Fixpoint dict_set (d : dict) (k v : string) : dict :=
  match d with
  | [] => [(k, v)]
  | (k', v') :: d' =>
      if String.eqb k' k then (k', v) :: d' else (k', v') :: dict_set d' k v
  end.

Definition keys (d : dict) : list string := map fst d.

(** [{ field: v for field in fields }] *)
Definition dict_from_keys (fields : list string) (v : string) : dict :=
  fold_left (fun d field => dict_set d field v) fields [].

(** ** The schema *)

Definition required_fields : list string :=
  [ "Name";
    "Date of Birth";
    "Place of Birth";
    "Date of Interview";
    "Location of Interview";
    "Parent's Names";
    "Parent's Birthplace";
    "Parent's Occupation";
    "Siblings";
    "Spouse's Name";
    "Children's Names";
    "Grandchildren's Names";
    "Date of Immigration";
    "Country of Origin";
    "Reason for Immigration";
    "Mode of Travel";
    "Ports of Entry";
    "Destinations";
    "Occupation";
    "Employer";
    "Job Title";
    "Education Level";
    "Schools Attended";
    "Year of Graduation";
    "Health Issues";
    "Medical Treatments";
    "Cause of Death";
    "Church Affiliation";
    "Community Involvement";
    "Social Activities";
    "Language Spoken";
    "Cultural Practices";
    "Historical Events Experienced";
    "Geographical Locations";
    "Notes";
    "Sources" ].

Definition date_fields : list string :=
  [ "Date of Birth"; "Date of Interview"; "Date of Immigration";
    "Year of Graduation" ].

(** ** Characters and strings *)

Definition code (c : ascii) : N := N_of_ascii c.

Definition in_range (lo hi c : ascii) : bool :=
  ((code lo <=? code c) && (code c <=? code hi))%N.

Definition lower (c : ascii) : ascii :=
  if in_range "A" "Z" c then ascii_of_N (code c + 32) else c.

Definition upper (c : ascii) : ascii :=
  if in_range "a" "z" c then ascii_of_N (code c - 32) else c.

(** [str.isspace] on one code point below 256: TAB, LF, VT, FF, CR,
    FS, GS, RS, US, SPACE, NEL and NBSP. *)
Definition isspace (c : ascii) : bool :=
  let n := code c in
  ((9 <=? n) && (n <=? 13) || (28 <=? n) && (n <=? 32)
   || (n =? 133) || (n =? 160))%N.

(** [\d] on one code point below 256. *)
Definition isdigit (c : ascii) : bool := in_range "0" "9" c.

Fixpoint lstrip (s : string) : string :=
  match s with
  | String c s' => if isspace c then lstrip s' else s
  | EmptyString => EmptyString
  end.

Fixpoint rstrip (s : string) : string :=
  match s with
  | String c s' =>
      match rstrip s' with
      | EmptyString => if isspace c then EmptyString else String c EmptyString
      | t => String c t
      end
  | EmptyString => EmptyString
  end.

(** [s.strip()] *)
Definition strip (s : string) : string := rstrip (lstrip s).

(** [sep.join(l)] *)
Fixpoint join (sep : string) (l : list string) : string :=
  match l with
  | [] => ""
  | [x] => x
  | x :: l' => x ++ sep ++ join sep l'
  end.

(** [s[:n]] *)
Fixpoint take (n : nat) (s : string) : string :=
  match n, s with
  | S n', String c s' => String c (take n' s')
  | _, _ => EmptyString
  end.

(** ** Regular expressions

    The fragment of Python's [re] syntax the program uses, and the
    backtracking matcher of [re]: alternatives are tried left to right, a
    greedy repeat tries one more iteration before it tries to stop, a lazy
    repeat the other way round, and the first success wins. *)

Record flags : Type := { IGNORECASE : bool; DOTALL : bool }.

Inductive set_item : Type :=
| SChar (c : ascii)              (* a literal member of a [[...]] set *)
| SRange (lo hi : ascii)         (* [lo-hi] *)
| SSpace                         (* [\s] *)
| SDigit.                        (* [\d] *)

Inductive regex : Type :=
| Eps
| Lit (c : ascii)
| Dot
| In_ (items : list set_item)
| Seq (r1 r2 : regex)
| Alt (r1 r2 : regex)
| Rep (greedy : bool) (lo : nat) (hi : option nat) (r : regex)
| Group (n : nat) (r : regex).

(** Under IGNORECASE a literal or a range member [x] matches the character
    [c] when [x] and [c] have the same lower-case form; below 256 only the
    ASCII letters fold to an ASCII letter, and the patterns of this program
    are ASCII. *)
Definition lit_matches (fl : flags) (x c : ascii) : bool :=
  if IGNORECASE fl then Ascii.eqb (lower x) (lower c) else Ascii.eqb x c.

Definition range_matches (fl : flags) (lo hi c : ascii) : bool :=
  if IGNORECASE fl
  then in_range lo hi c || in_range lo hi (lower c) || in_range lo hi (upper c)
  else in_range lo hi c.

Definition item_matches (fl : flags) (i : set_item) (c : ascii) : bool :=
  match i with
  | SChar x => lit_matches fl x c
  | SRange lo hi => range_matches fl lo hi c
  | SSpace => isspace c
  | SDigit => isdigit c
  end.

Definition dot_matches (fl : flags) (c : ascii) : bool :=
  if DOTALL fl then true else negb (Ascii.eqb c "010").

(** Captured groups, most recent first. *)
Definition captures : Type := list (nat * string).

Definition below (hi : option nat) (count : nat) : bool :=
  match hi with
  | Some h => Nat.ltb count h
  | None => true
  end.

Section Matcher.

Variable fl : flags.
Variable A : Type.

Definition step (p : ascii -> bool) (s : string) (c : captures)
    (k : string -> captures -> option A) : option A :=
  match s with
  | String x s' => if p x then k s' c else None
  | EmptyString => None
  end.

(** One repeat [r{lo,hi}] with body matcher [body], after [count]
    iterations.  An iteration that consumes nothing is refused (no repeated
    pattern of this program can match the empty string), so a repeat over
    [s] runs at most [length s] iterations and [fuel], which starts at
    [S (length s)], never reaches zero. *)
Fixpoint rep_loop
    (body : string -> captures -> (string -> captures -> option A) -> option A)
    (greedy : bool) (lo : nat) (hi : option nat)
    (k : string -> captures -> option A)
    (fuel count : nat) (s : string) (c : captures) {struct fuel} : option A :=
  match fuel with
  | O => None
  | S fuel' =>
      let more (_ : unit) :=
        if below hi count
        then body s c
               (fun s1 c1 =>
                  if Nat.ltb (length s1) (length s)
                  then rep_loop body greedy lo hi k fuel' (S count) s1 c1
                  else None)
        else None in
      let stop (_ : unit) :=
        if Nat.leb lo count then k s c else None in
      if greedy
      then match more tt with Some a => Some a | None => stop tt end
      else match stop tt with Some a => Some a | None => more tt end
  end.

(** [rmatch r s c k]: match [r] at the head of [s], then hand what is left
    of the text and the groups to the continuation [k]; [None] makes the
    matcher backtrack. *)
Fixpoint rmatch (r : regex) (s : string) (c : captures)
    (k : string -> captures -> option A) {struct r} : option A :=
  match r with
  | Eps => k s c
  | Lit x => step (lit_matches fl x) s c k
  | Dot => step (dot_matches fl) s c k
  | In_ items =>
      step (fun x => existsb (fun i => item_matches fl i x) items) s c k
  | Seq r1 r2 => rmatch r1 s c (fun s1 c1 => rmatch r2 s1 c1 k)
  | Alt r1 r2 =>
      match rmatch r1 s c k with
      | Some a => Some a
      | None => rmatch r2 s c k
      end
  | Group n r1 =>
      rmatch r1 s c
        (fun s1 c1 => k s1 ((n, take (length s - length s1) s) :: c1))
  | Rep greedy lo hi r1 =>
      rep_loop (rmatch r1) greedy lo hi k (S (length s)) 0 s c
  end.

End Matcher.

Arguments rmatch fl {A} r s c k.

(** A match object: where the match starts and ends, its groups, and the
    text after it. *)
Record match_obj : Type :=
  { m_start : nat; m_end : nat; m_groups : captures; m_rest : string }.

Definition match_at (fl : flags) (r : regex) (s : string) (pos : nat)
    : option match_obj :=
  rmatch fl r s []
    (fun s' c =>
       Some {| m_start := pos; m_end := pos + (length s - length s');
               m_groups := c; m_rest := s' |}).

(** [re.search]: the first offset at which the pattern matches, the end of
    the text included. *)
Fixpoint search_from (fl : flags) (r : regex) (s : string) (pos : nat)
    : option match_obj :=
  match match_at fl r s pos with
  | Some m => Some m
  | None =>
      match s with
      | String _ s' => search_from fl r s' (S pos)
      | EmptyString => None
      end
  end.

Definition re_search (r : regex) (text : string) (fl : flags)
    : option match_obj :=
  search_from fl r text 0.

Fixpoint lookup (n : nat) (c : captures) : option string :=
  match c with
  | [] => None
  | (n', g) :: c' => if Nat.eqb n' n then Some g else lookup n c'
  end.

(** [m.group(n).strip()] needs [m.group(n)] to be a string: it is [None]
    for a group that took no part in the match, and [None.strip()]
    raises. *)
Definition group (m : match_obj) (n : nat) : result string :=
  match lookup n (m_groups m) with
  | Some g => Ok g
  | None => Raise AttributeError
  end.

(** [re.findall] for a pattern with [ngroups >= 2] groups: the matches are
    found left to right without overlap, and each one gives the tuple of
    its groups, [""] for a group that took no part. *)
Fixpoint findall_from (fuel : nat) (fl : flags) (r : regex) (ngroups : nat)
    (s : string) : list (list string) :=
  match fuel with
  | O => []
  | S fuel' =>
      match search_from fl r s 0 with
      | None => []
      | Some m =>
          let tuple :=
            map (fun n => match lookup n (m_groups m) with
                          | Some g => g
                          | None => ""
                          end)
                (seq 1 ngroups) in
          let rest :=
            if Nat.eqb (m_end m) (m_start m)
            then match m_rest m with
                 | String _ s' => Some s'
                 | EmptyString => None
                 end
            else Some (m_rest m) in
          match rest with
          | Some s' => tuple :: findall_from fuel' fl r ngroups s'
          | None => [tuple]
          end
      end
  end.

Definition re_findall (r : regex) (ngroups : nat) (text : string) (fl : flags)
    : list (list string) :=
  findall_from (S (length text)) fl r ngroups text.

(** ** Reading a pattern

    [re.compile] for the syntax the patterns of this program are written
    in: ordinary characters, [.], the escapes [\s] and [\d] and escaped
    punctuation, sets with ranges, groups [(...)] and [(?:...)],
    alternatives, and the quantifiers [?], [+], [*], [{m}], [{m,}],
    [{m,n}], lazy when a [?] follows.  Anything else is refused. *)

Fixpoint cat (rs : list regex) : regex :=
  match rs with
  | [] => Eps
  | [r] => r
  | r :: rs' => Seq r (cat rs')
  end.

(** A run of ordinary characters. *)
Fixpoint literal (s : string) : regex :=
  match s with
  | EmptyString => Eps
  | String c EmptyString => Lit c
  | String c s' => Seq (Lit c) (literal s')
  end.

Definition isalnum (c : ascii) : bool :=
  in_range "0" "9" c || in_range "A" "Z" c || in_range "a" "z" c.

(** The character after a backslash. *)
Definition parse_escape (c : ascii) : option set_item :=
  if Ascii.eqb c "s" then Some SSpace
  else if Ascii.eqb c "d" then Some SDigit
  else if isalnum c then None
  else Some (SChar c).

(** The members of a set, up to the closing bracket. *)
Fixpoint parse_set (s : string) (acc : list set_item)
    : option (list set_item * string) :=
  match s with
  | EmptyString => None
  | String "]" rest => Some (rev acc, rest)
  | String "\" (String c rest) =>
      match parse_escape c with
      | Some item => parse_set rest (item :: acc)
      | None => None
      end
  | String a (String "-" (String b rest)) =>
      if Ascii.eqb b "]" then Some (rev (SChar "-" :: SChar a :: acc), rest)
      else parse_set rest (SRange a b :: acc)
  | String a rest => parse_set rest (SChar a :: acc)
  end.

(** A run of decimal digits. *)
Fixpoint parse_nat (s : string) (acc : nat) : nat * string :=
  match s with
  | String c rest =>
      if isdigit c
      then parse_nat rest (10 * acc + (N.to_nat (code c) - 48))
      else (acc, s)
  | EmptyString => (acc, s)
  end.

(** The quantifier after an atom, if there is one; a brace that opens no
    quantifier is an ordinary character. *)
Definition parse_quantifier (r : regex) (s : string) : regex * string :=
  let bounds :=
    match s with
    | String "?" rest => Some (0, Some 1, rest)
    | String "+" rest => Some (1, None, rest)
    | String "*" rest => Some (0, None, rest)
    | String "{" rest =>
        let '(lo, rest1) := parse_nat rest 0 in
        let has_lo := Nat.ltb (String.length rest1) (String.length rest) in
        match rest1 with
        | String "}" rest2 => if has_lo then Some (lo, Some lo, rest2) else None
        | String "," (String "}" rest2) =>
            if has_lo then Some (lo, None, rest2) else None
        | String "," rest2 =>
            let '(hi, rest3) := parse_nat rest2 0 in
            match rest3 with
            | String "}" rest4 => Some (lo, Some hi, rest4)
            | _ => None
            end
        | _ => None
        end
    | _ => None
    end in
  match bounds with
  | Some (lo, hi, String "?" rest) => (Rep false lo hi r, rest)
  | Some (lo, hi, rest) => (Rep true lo hi r, rest)
  | None => (r, s)
  end.

(** Alternatives, sequences and atoms; [groups] counts the capturing
    groups opened so far: groups are numbered from 1 in the order of their
    opening parentheses. *)
Fixpoint parse_alt (fuel : nat) (s : string) (groups : nat)
    : option (regex * string * nat) :=
  match fuel with
  | O => None
  | S fuel' =>
      match parse_seq fuel' s groups [] with
      | Some (r1, String "|" rest, groups) =>
          match parse_alt fuel' rest groups with
          | Some (r2, rest, groups) => Some (Alt r1 r2, rest, groups)
          | None => None
          end
      | other => other
      end
  end

with parse_seq (fuel : nat) (s : string) (groups : nat) (acc : list regex)
    : option (regex * string * nat) :=
  match fuel with
  | O => None
  | S fuel' =>
      let quantified (atom : regex) (rest : string) (groups : nat) :=
        let '(r, rest) := parse_quantifier atom rest in
        parse_seq fuel' rest groups (r :: acc) in
      match s with
      | EmptyString => Some (cat (rev acc), s, groups)
      | String "|" _ => Some (cat (rev acc), s, groups)
      | String ")" _ => Some (cat (rev acc), s, groups)
      | String "(" (String "?" (String ":" rest)) =>
          match parse_alt fuel' rest groups with
          | Some (r, String ")" rest, groups) => quantified r rest groups
          | _ => None
          end
      | String "(" (String "?" _) => None
      | String "(" rest =>
          match parse_alt fuel' rest (S groups) with
          | Some (r, String ")" rest, groups') =>
              quantified (Group (S groups) r) rest groups'
          | _ => None
          end
      | String "[" (String "^" _) => None
      | String "[" (String "]" _) => None
      | String "[" rest =>
          match parse_set rest [] with
          | Some (items, rest) => quantified (In_ items) rest groups
          | None => None
          end
      | String "\" (String c rest) =>
          match parse_escape c with
          | Some (SChar x) => quantified (Lit x) rest groups
          | Some item => quantified (In_ [item]) rest groups
          | None => None
          end
      | String "\" EmptyString => None
      | String "." rest => quantified Dot rest groups
      | String "?" _ => None
      | String "+" _ => None
      | String "*" _ => None
      | String "^" _ => None
      | String "$" _ => None
      | String c rest => quantified (Lit c) rest groups
      end
  end.

(** [re.compile]: the whole pattern has to be read. *)
Definition re_compile (pattern : string) : option regex :=
  match parse_alt (2 * S (String.length pattern)) pattern 0 with
  | Some (r, EmptyString, _) => Some r
  | _ => None
  end.

(** A pattern [re.compile] accepts, compiled. *)
Definition compiled (pattern : string) : regex :=
  match re_compile pattern with
  | Some r => r
  | None => Eps
  end.

(** ** The patterns of the program, as they are written in it *)

Definition ignorecase : flags := {| IGNORECASE := true; DOTALL := false |}.
Definition ignorecase_dotall : flags :=
  {| IGNORECASE := true; DOTALL := true |}.

Definition date_int_pattern : regex :=
  Eval vm_compute in
    compiled "interview.*?(\d{1,2}(?:st|nd|rd|th)?\s+of\s+[A-Za-z]+\s+\d{4})".

Definition name_pattern : regex :=
  Eval vm_compute in
    compiled "interview with\s+([A-Z][a-zA-Z]+(?:\s+[A-Z][a-zA-Z]+)+)".

Definition dob_pattern : regex :=
  Eval vm_compute in
    compiled "born (?:on\s+)?(\d{1,2}[/-]\d{1,2}[/-]\d{2,4})".

Definition pob_pattern : regex :=
  Eval vm_compute in compiled "born in\s+([A-Za-z\s]+)[\.,]".

Definition siblings_pattern : regex :=
  Eval vm_compute in
    compiled "my\s+(?:younger\s+)?(brother|sister)\s+([A-Z][a-zA-Z]+)".

Definition church_pattern : regex :=
  Eval vm_compute in compiled "(Salvation Army(?: training college)?)".

Definition employer_pattern : regex :=
  Eval vm_compute in compiled "(John Deere)".

Definition education_pattern : regex :=
  Eval vm_compute in compiled "(Salvation Army training college in Chicago)".

(** The gazetteer; each entry is handed to [re.search] as a pattern. *)
Definition gazetteer : list string :=
  [ "California"; "Moline"; "Campbells Island"; "Chicago"; "Florida";
    "Sweden" ].

(** ** Numbers

    A Python [int] is a [Z].  A [float] is a binary64 number: not-a-number,
    an infinity, or the dyadic rational [m * 2^e] (the sign of a zero plays
    no part in what follows). *)

Open Scope Z_scope.

Inductive float : Type :=
| Fnan
| Finf (negative : bool)
| Ffinite (m e : Z).

(** The argument of [format_date]. *)
Inductive value : Type :=
| VInt (n : Z)
| VFloat (x : float)
| VStr (s : string).

(** [m * 2^e] against the integer [n], exactly, as Python compares a float
    with an int. *)
Definition compare_dyadic_int (m e n : Z) : comparison :=
  if 0 <=? e then m * 2 ^ e ?= n else m ?= n * 2 ^ (- e).

Definition float_le_int (x : float) (n : Z) : bool :=
  match x with
  | Fnan => false
  | Finf negative => negative
  | Ffinite m e =>
      match compare_dyadic_int m e n with Gt => false | _ => true end
  end.

Definition int_le_float (n : Z) (x : float) : bool :=
  match x with
  | Fnan => false
  | Finf negative => negb negative
  | Ffinite m e =>
      match compare_dyadic_int m e n with Lt => false | _ => true end
  end.

(** The integer part of [m * 2^e], towards zero, and what is left of it
    (a dyadic of exponent [e]). *)
Definition trunc (m e : Z) : Z :=
  if 0 <=? e then m * 2 ^ e else Z.quot m (2 ^ (- e)).

Definition fracpart (m e : Z) : Z :=
  if 0 <=? e then 0 else Z.rem m (2 ^ (- e)).

(** [int(x)] *)
Definition int_of_float (x : float) : result Z :=
  match x with
  | Fnan => Raise ValueError
  | Finf _ => Raise OverflowError
  | Ffinite m e => Ok (trunc m e)
  end.

(** The binary64 number nearest to [m * 2^e], ties to even: 53 bits of
    mantissa, no exponent below -1074, an infinity from [2^1024] on. *)
Definition round_binary64 (m e : Z) : float :=
  let a := Z.abs m in
  if a =? 0 then Ffinite 0 0
  else
    let e' := Z.max (e + (Z.log2 a + 1) - 53) (- 1074) in
    let sh := e' - e in
    let '(q, e1) :=
      if sh <=? 0 then (a, e)
      else
        let q := a / 2 ^ sh in
        let r := a mod 2 ^ sh in
        let half := 2 ^ (sh - 1) in
        (if (half <? r) || ((r =? half) && Z.odd q) then q + 1 else q, e') in
    if 1024 <? Z.log2 q + 1 + e1 then Finf (m <? 0)
    else Ffinite (Z.sgn m * q) e1.

(** [float(n)] *)
Definition float_of_int (n : Z) : result float :=
  match round_binary64 n 0 with
  | Finf _ => Raise OverflowError
  | x => Ok x
  end.

(** [str(n)] *)
Definition str_of_int (n : Z) : string :=
  DecimalString.NilZero.string_of_int (Z.to_int n).

(** ** Dates: the proleptic Gregorian calendar of [datetime] *)

Definition MAXORDINAL : Z := 3652059.

Definition DAYS_IN_MONTH : list Z :=
  [-1; 31; 28; 31; 30; 31; 30; 31; 31; 30; 31; 30; 31].

Definition DAYS_BEFORE_MONTH : list Z :=
  [-1; 0; 31; 59; 90; 120; 151; 181; 212; 243; 273; 304; 334].

Definition is_leap (year : Z) : bool :=
  (year mod 4 =? 0) && (negb (year mod 100 =? 0) || (year mod 400 =? 0)).

Definition days_before_year (year : Z) : Z :=
  let y := year - 1 in
  y * 365 + y / 4 - y / 100 + y / 400.

Definition days_in_month (year month : Z) : Z :=
  if (month =? 2) && is_leap year then 29
  else nth (Z.to_nat month) DAYS_IN_MONTH 0.

Definition days_before_month (year month : Z) : Z :=
  nth (Z.to_nat month) DAYS_BEFORE_MONTH 0
  + (if (2 <? month) && is_leap year then 1 else 0).

Definition ymd2ord (year month day : Z) : Z :=
  days_before_year year + days_before_month year month + day.

Definition ord2ymd (n : Z) : Z * Z * Z :=
  let n := n - 1 in
  let n400 := n / 146097 in
  let n := n mod 146097 in
  let year := n400 * 400 + 1 in
  let n100 := n / 36524 in
  let n := n mod 36524 in
  let n4 := n / 1461 in
  let n := n mod 1461 in
  let n1 := n / 365 in
  let n := n mod 365 in
  let year := year + n100 * 100 + n4 * 4 + n1 in
  if (n1 =? 4) || (n100 =? 4) then (year - 1, 12, 31)
  else
    let leapyear := (n1 =? 3) && (negb (n4 =? 24) || (n100 =? 3)) in
    let month := Z.shiftr (n + 50) 5 in
    let preceding :=
      nth (Z.to_nat month) DAYS_BEFORE_MONTH 0
      + (if (2 <? month) && leapyear then 1 else 0) in
    let '(month, preceding) :=
      if n <? preceding
      then (month - 1,
            preceding
            - (nth (Z.to_nat (month - 1)) DAYS_IN_MONTH 0
               + (if (month - 1 =? 2) && leapyear then 1 else 0)))
      else (month, preceding) in
    (year, month, n - preceding + 1).

(** A date of the calendar, years 1 to 9999. *)
Definition valid_date (year month day : Z) : Prop :=
  1 <= year <= 9999 /\ 1 <= month <= 12
  /\ 1 <= day <= days_in_month year month.

(** [zfill]: pad on the left with zeros to [width] characters. *)
Definition zfill (width : nat) (s : string) : string :=
  String.concat "" (repeat "0"%string (width - String.length s)) ++ s.

(** [strftime("%Y-%m-%d")] as it is documented: the year with century on
    four digits, month and day on two.  (A C library that leaves the years
    below 1000 unpadded prints those years shorter.) *)
Definition strftime_Ymd (year month day : Z) : string :=
  (zfill 4 (str_of_int year) ++ "-" ++ zfill 2 (str_of_int month) ++ "-"
   ++ zfill 2 (str_of_int day))%string.

(** ** [timedelta(days=x)] and [datetime + timedelta] *)

Record timedelta : Type :=
  { td_days : Z; td_seconds : Z; td_microseconds : Z }.

Definition us_per_day : Z := 86400000000.

(** [round]: to the nearest integer, halves away from zero. *)
Definition round_away (m e : Z) : Z :=
  if 0 <=? e then m * 2 ^ e
  else Z.sgn m * ((Z.abs m + 2 ^ (- e - 1)) / 2 ^ (- e)).

(** The whole number of microseconds for the left-over fraction
    [m * 2^e] of a microsecond, [e < 0]: the nearest, and on a half the one
    that makes the total even ([x_is_odd] is the parity of the total so
    far). *)
Definition round_leftover (m e : Z) (x_is_odd : bool) : Z :=
  let whole_us := round_away m e in
  if 2 * Z.abs (whole_us * 2 ^ (- e) - m) =? 2 ^ (- e)
  then
    let odd := if x_is_odd then 1 else 0 in
    2 * round_away (m + odd * 2 ^ (- e)) (e - 1) - odd
  else whole_us.

Definition microseconds_to_delta (us : Z) : result timedelta :=
  let seconds := us / 1000000 in
  let us := us mod 1000000 in
  let days := seconds / 86400 in
  let seconds := seconds mod 86400 in
  if (days <? - 999999999) || (999999999 <? days) then Raise OverflowError
  else Ok {| td_days := days; td_seconds := seconds;
             td_microseconds := us |}.

(** [timedelta(days=x)] for a float [x]: the whole days are converted
    exactly; the fraction of a day is multiplied by the microseconds of a
    day in binary64, and what is left below a microsecond is rounded. *)
Definition timedelta_of_days (x : float) : result timedelta :=
  match x with
  | Fnan => Raise ValueError
  | Finf _ => Raise OverflowError
  | Ffinite m e =>
      let sum := trunc m e * us_per_day in
      let frac := fracpart m e in
      if frac =? 0 then microseconds_to_delta sum
      else
        match round_binary64 (us_per_day * frac) e with
        | Ffinite m2 e2 =>
            let y := sum + trunc m2 e2 in
            let leftover := fracpart m2 e2 in
            if leftover =? 0 then microseconds_to_delta y
            else microseconds_to_delta (y + round_leftover leftover e2 (Z.odd y))
        | _ => Raise OverflowError
        end
  end.

(** The date of [datetime(year, month, day) + delta]: midnight plus the
    seconds of a normalised [timedelta] stays within the day. *)
Definition date_add (year month day : Z) (delta : timedelta)
    : result (Z * Z * Z) :=
  let ordinal := ymd2ord year month day + td_days delta in
  if (0 <? ordinal) && (ordinal <=? MAXORDINAL) then Ok (ord2ymd ordinal)
  else Raise OverflowError.

Close Scope Z_scope.

(** ** Sorting strings

    [sorted] on strings: ascending by code points. *)

Fixpoint insert_sorted (x : string) (l : list string) : list string :=
  match l with
  | [] => [x]
  | y :: l' => if String.leb x y then x :: l else y :: insert_sorted x l'
  end.

Definition sorted (l : list string) : list string :=
  fold_right insert_sorted [] l.

(** ** The program *)

(** What [pandas.to_datetime(value, errors='coerce')] gives for a string:
    a timestamp (its date is all [format_date] prints) or [NaT]. *)
Inductive datetime_or_nat : Type :=
| Timestamp (year month day : Z)
| NaT.

Section Extractor.

(** [pd.to_datetime(s, errors='coerce')] for a string [s]. *)
Variable to_datetime : string -> result datetime_or_nat.

(** The order in which a [set] built from the items of a list gives its
    members back. *)
Variable set_iter : list string -> list string.

(** [1800 <= value] and [value <= 2100] on a number. *)
Definition int_le_value (n : Z) (v : value) : bool :=
  match v with
  | VInt k => (n <=? k)%Z
  | VFloat x => int_le_float n x
  | VStr _ => false
  end.

Definition value_le_int (v : value) (n : Z) : bool :=
  match v with
  | VInt k => (k <=? n)%Z
  | VFloat x => float_le_int x n
  | VStr _ => false
  end.

(** The body of the [try] of [format_date]. *)
Definition format_date_try (v : value) : result string :=
  match v with
  | VStr s =>
      parsed <- to_datetime s ;;
      match parsed with
      | NaT => Ok "Invalid Date"
      | Timestamp year month day => Ok (strftime_Ymd year month day)
      end
  | _ =>
      if int_le_value 1800 v && value_le_int v 2100
      then
        year <- match v with
                | VFloat x => int_of_float x
                | VInt n => Ok n
                | VStr _ => Raise ValueError
                end ;;
        Ok (str_of_int year ++ "-01-01")
      else
        days <- match v with
                | VFloat x => Ok x
                | VInt n => float_of_int n
                | VStr _ => Raise ValueError
                end ;;
        delta <- timedelta_of_days days ;;
        converted <- date_add 1899 12 30 delta ;;
        let '(year, month, day) := converted in
        Ok (strftime_Ymd year month day)
  end.

(** [format_date]: [except Exception] turns every error into
    ["Invalid Date"]. *)
Definition format_date (v : value) : string :=
  match format_date_try v with
  | Ok s => s
  | Raise _ => "Invalid Date"
  end.

(** [if m: data[field] = m.group(1).strip()] *)
Definition set_group1 (data : dict) (field : string) (m : option match_obj)
    : result dict :=
  match m with
  | Some m => g <- group m 1 ;; Ok (dict_set data field (strip g))
  | None => Ok data
  end.

Definition found (m : option match_obj) : bool :=
  match m with
  | Some _ => true
  | None => false
  end.

(** The closing loop over [date_fields]. *)
Fixpoint format_date_fields (fields : list string) (data : dict)
    : result dict :=
  match fields with
  | [] => Ok data
  | field :: fields' =>
      v <- dict_get data field ;;
      if existsb (String.eqb v) ["N/A"; ""; "Invalid Date"]
      then format_date_fields fields' data
      else format_date_fields fields'
             (dict_set data field (format_date (VStr v)))
  end.

Definition extract_fields_unlabeled (text filename : string) : result dict :=
  let data := dict_from_keys required_fields "N/A" in
  data <- set_group1 data "Date of Interview"
            (re_search date_int_pattern text ignorecase_dotall) ;;
  data <- set_group1 data "Name" (re_search name_pattern text ignorecase) ;;
  data <- set_group1 data "Date of Birth"
            (re_search dob_pattern text ignorecase) ;;
  data <- set_group1 data "Place of Birth"
            (re_search pob_pattern text ignorecase) ;;
  let siblings_matches := re_findall siblings_pattern 2 text ignorecase in
  let data :=
    match siblings_matches with
    | [] => data
    | _ =>
        let siblings_names :=
          set_iter (map (fun m => nth 1 m "") siblings_matches) in
        dict_set data "Siblings" (join ", " siblings_names)
    end in
  data <- set_group1 data "Church Affiliation"
            (re_search church_pattern text ignorecase) ;;
  data <- set_group1 data "Employer"
            (re_search employer_pattern text ignorecase) ;;
  data <- set_group1 data "Schools Attended"
            (re_search education_pattern text ignorecase) ;;
  let locations_found :=
    filter (fun loc => found (re_search (compiled loc) text ignorecase))
           gazetteer in
  let data :=
    match locations_found with
    | [] => data
    | _ =>
        dict_set data "Geographical Locations"
          (join ", " (sorted (set_iter locations_found)))
    end in
  let data := dict_set data "Sources" filename in
  format_date_fields date_fields data.

End Extractor.

(** ** Notions the properties are stated with *)

(** The record of a text in which no rule finds anything. *)
Definition sentinel_record (filename : string) : dict :=
  map (fun field =>
         (field, if String.eqb field "Sources" then filename else "N/A"))
      required_fields.

(** The fields some rule of [extract_fields_unlabeled] assigns. *)
Definition rule_fields : list string :=
  [ "Date of Interview"; "Name"; "Date of Birth"; "Place of Birth";
    "Siblings"; "Church Affiliation"; "Employer"; "Schools Attended";
    "Geographical Locations"; "Sources" ].

(** No rule recognises anything in [text]. *)
Definition no_pattern (text : string) : bool :=
  negb (found (re_search date_int_pattern text ignorecase_dotall))
  && negb (found (re_search name_pattern text ignorecase))
  && negb (found (re_search dob_pattern text ignorecase))
  && negb (found (re_search pob_pattern text ignorecase))
  && match re_findall siblings_pattern 2 text ignorecase with
     | [] => true
     | _ => false
     end
  && negb (found (re_search church_pattern text ignorecase))
  && negb (found (re_search employer_pattern text ignorecase))
  && negb (found (re_search education_pattern text ignorecase))
  && forallb
       (fun loc => negb (found (re_search (compiled loc) text ignorecase)))
       gazetteer.

(** [d'] has the keys of [d], in the same order, and the values of [d]
    except at the keys of [K]. *)
Definition frame (K : list string) (d d' : dict) : Prop :=
  keys d' = keys d
  /\ forall k, existsb (String.eqb k) K = false ->
               dict_get d' k = dict_get d k.

(** [r] sets group [n] in every match. *)
Fixpoint sets (r : regex) (n : nat) : bool :=
  match r with
  | Group m r1 => Nat.eqb m n || sets r1 n
  | Seq r1 r2 => sets r1 n || sets r2 n
  | Alt r1 r2 => sets r1 n && sets r2 n
  | Rep _ lo _ r1 => Nat.ltb 0 lo && sets r1 n
  | _ => false
  end.

(** The text with its ASCII capitals in lower case. *)
Fixpoint lower_str (s : string) : string :=
  match s with
  | String c s' => String (lower c) (lower_str s')
  | EmptyString => EmptyString
  end.

(** [w] occurs in [text], case not counted. *)
Definition occurs_ci (w text : string) : Prop :=
  exists pre mid post,
    text = pre ++ mid ++ post /\ lower_str mid = lower_str w.

(** [s] starts with [w], case not counted; what follows the prefix. *)
Fixpoint ci_prefix (w s : string) : bool :=
  match w, s with
  | EmptyString, _ => true
  | String x w', String c s' =>
      Ascii.eqb (lower x) (lower c) && ci_prefix w' s'
  | String _ _, EmptyString => false
  end.

Fixpoint skip (n : nat) (s : string) : string :=
  match n, s with
  | S n', String _ s' => skip n' s'
  | _, _ => s
  end.

(** The entries of the gazetteer that occur in [text], as [re.search]
    finds them. *)
Definition locations_found (text : string) : list string :=
  filter (fun loc => found (re_search (compiled loc) text ignorecase))
         gazetteer.

(** The names [re.findall] captures with the sibling pattern. *)
Definition sibling_names (text : string) : list string :=
  map (fun m => nth 1 m "") (re_findall siblings_pattern 2 text ignorecase).

(** ISO dates: four digits, a hyphen, two digits, a hyphen, two digits,
    naming a date of the calendar. *)
Definition valid_dateb (year month day : Z) : bool :=
  ((1 <=? year) && (year <=? 9999) && (1 <=? month) && (month <=? 12)
   && (1 <=? day) && (day <=? days_in_month year month))%Z.

Definition digit_val (c : ascii) : option Z :=
  if isdigit c then Some (Z.of_N (code c) - 48)%Z else None.

Definition number (cs : list ascii) : option Z :=
  fold_left
    (fun acc c =>
       match acc, digit_val c with
       | Some n, Some v => Some (10 * n + v)%Z
       | _, _ => None
       end)
    cs (Some 0%Z).

Definition parse_iso (s : string) : option (Z * Z * Z) :=
  match s with
  | String y1 (String y2 (String y3 (String y4 (String h1
      (String m1 (String m2 (String h2 (String d1 (String d2
         EmptyString))))))))) =>
      if Ascii.eqb h1 "-" && Ascii.eqb h2 "-"
      then
        match number [y1; y2; y3; y4], number [m1; m2], number [d1; d2] with
        | Some year, Some month, Some day =>
            if valid_dateb year month day then Some (year, month, day)
            else None
        | _, _, _ => None
        end
      else None
  | _ => None
  end.

(** ** A reference instance of the two variables

    A [set] that gives its members back in the order of their last
    insertion, and a parser that reads ISO dates and the one written date
    of the sample text, and nothing else. *)

Definition ref_set_iter (l : list string) : list string :=
  nodup string_dec l.

Definition ref_to_datetime (s : string) : result datetime_or_nat :=
  match parse_iso s with
  | Some (year, month, day) => Ok (Timestamp year month day)
  | None =>
      if String.eqb s "11th of March 1986" then Ok (Timestamp 1986 3 11)
      else Ok NaT
  end.

Definition sample_text : string :=
  "... interview with Jane Mary Smith ... born in Stockholm, Sweden. ... interview conducted 11th of March 1986 ...".

Definition siblings_text : string :=
  "I grew up with my brother John and my sister Mary.".

Definition locations_text : string :=
  "We left Sweden in the spring and settled in Chicago.".

(** The schema fields no rule assigns. *)
Definition unruled_fields : list string :=
  filter (fun field => negb (existsb (String.eqb field) rule_fields))
         required_fields.

(** The record before any rule has run. *)
Definition initial : dict := map (fun field => (field, "N/A")) required_fields.

(** The two rules that do not go through [set_group1]. *)
Definition siblings_step (set_iter : list string -> list string)
    (text : string) (data : dict) : dict :=
  match re_findall siblings_pattern 2 text ignorecase with
  | [] => data
  | _ => dict_set data "Siblings" (join ", " (set_iter (sibling_names text)))
  end.

Definition locations_step (set_iter : list string -> list string)
    (text : string) (data : dict) : dict :=
  match locations_found text with
  | [] => data
  | _ =>
      dict_set data "Geographical Locations"
        (join ", " (sorted (set_iter (locations_found text))))
  end.

(** The fields written before the sibling rule, between the sibling rule
    and the gazetteer, and after the gazetteer. *)
Definition first_rules : list string :=
  [ "Date of Interview"; "Name"; "Date of Birth"; "Place of Birth" ].

Definition middle_rules : list string :=
  [ "Church Affiliation"; "Employer"; "Schools Attended" ].

Definition last_steps : list string :=
  [ "Sources"; "Date of Birth"; "Date of Interview" ].

(** A set gives back each of its members once. *)
Definition set_order (set_iter : list string -> list string) : Prop :=
  forall l, Permutation (set_iter l) (nodup string_dec l).

(** Group [n] is among the captures. *)
Definition has (c : captures) (n : nat) : Prop := lookup n c <> None.

(** A matcher that only succeeds through its continuation, on a text no
    longer than the one it was given, with the groups it was given and
    those of [p]. *)
Definition passes_groups {A : Type} (p : nat -> bool)
    (body : string -> captures -> (string -> captures -> option A) -> option A)
    : Prop :=
  forall s c k x, body s c k = Some x ->
    exists s' c', k s' c' = Some x
                  /\ String.length s' <= String.length s
                  /\ forall n, p n = true \/ has c n -> has c' n.

(** Two continuations that agree on the texts of at most [bound]
    characters, and a matcher that looks at its continuation on such texts
    only. *)
Definition agree {A : Type} (bound : nat)
    (k1 k2 : string -> captures -> option A) : Prop :=
  forall s c, String.length s <= bound -> k1 s c = k2 s c.

Definition local {A : Type}
    (body : string -> captures -> (string -> captures -> option A) -> option A)
    : Prop :=
  forall s c k1 k2, agree (String.length s) k1 k2 -> body s c k1 = body s c k2.

(** [w] occurs in [s], case not counted, as a search finds it. *)
Fixpoint occurs_b (w s : string) : bool :=
  ci_prefix w s
  || match s with
     | String _ s' => occurs_b w s'
     | EmptyString => false
     end.

(** The order of [sorted]. *)
Definition le_str (a b : string) : Prop := String.leb a b = true.

(** The number a finite float stands for. *)
Definition float_value (m e : Z) : Q := inject_Z m * (2 ^ e)%Q.

(** The whole days in [m * 2^e], downwards. *)
Definition floor_days (m e : Z) : Z :=
  if (0 <=? e)%Z then (m * 2 ^ e)%Z else (m / 2 ^ (- e))%Z.

(** [m * 2^e] days are a whole number of microseconds. *)
Definition whole_microseconds (m e : Z) : Prop :=
  (e < 0 -> (us_per_day * m) mod 2 ^ (- e) = 0)%Z.

(** The date [days] days after 1899-12-30, as [format_date] prints it. *)
Definition serial_date (days : Z) : string :=
  let ordinal := (ymd2ord 1899 12 30 + days)%Z in
  if ((1 <=? ordinal) && (ordinal <=? MAXORDINAL))%Z
  then let '(year, month, day) := ord2ymd ordinal in
       strftime_Ymd year month day
  else "Invalid Date".

(** What [except Exception] makes of a result. *)
Definition finish (r : result string) : string :=
  match r with
  | Ok s => s
  | Raise _ => "Invalid Date"
  end.

(** Days 1 to 146097 are the first 400 years of the calendar; the check
    that [ord2ymd] is right on one of them. *)
Definition cycle_ok (n : Z) : bool :=
  let '(y, m, d) := ord2ymd n in
  ((1 <=? y) && (y <=? 400) && ((145731 <? n) || (y <=? 399))
   && (1 <=? m) && (m <=? 12) && (1 <=? d) && (d <=? days_in_month y m)
   && (ymd2ord y m d =? n))%Z.

Fixpoint check_from (count : nat) (n : Z) : bool :=
  match count with
  | O => true
  | S c => if cycle_ok n then check_from c (n + 1)%Z else false
  end.

(** Decimal digits and their characters. *)
Definition decimals : list Z := [0; 1; 2; 3; 4; 5; 6; 7; 8; 9]%Z.

Definition chr (v : Z) : ascii := ascii_of_N (Z.to_N (48 + v)).

Definition four_ok (a b c d : Z) : bool :=
  String.eqb
    (zfill 4 (str_of_int (10 * (10 * (10 * (10 * 0 + a) + b) + c) + d)%Z))
    (String (chr a) (String (chr b) (String (chr c)
       (String (chr d) EmptyString)))).

Definition two_ok (a b : Z) : bool :=
  String.eqb (zfill 2 (str_of_int (10 * (10 * 0 + a) + b)%Z))
    (String (chr a) (String (chr b) EmptyString)).

Definition year_ok (n : Z) : bool :=
  String.eqb (str_of_int n ++ "-01-01") (strftime_Ymd n 1 1).

(** A string that starts like a number, not like the sentinel. *)
Definition starts_numeric (s : string) : Prop :=
  match s with
  | String c _ => c <> "I"%char
  | EmptyString => False
  end.

(** ** The extractor, rule by rule *)

(** What one [if m: data[field] = m.group(1).strip()] does to the record
    when the group is set. *)
Definition apply_rule (field : string) (r : regex) (fl : flags)
    (text : string) (data : dict) : dict :=
  match re_search r text fl with
  | Some m =>
      match group m 1 with
      | Ok g => dict_set data field (strip g)
      | Raise _ => data
      end
  | None => data
  end.

(** The value such a rule gives its field, ["N/A"] when nothing is
    found. *)
Definition rule_value (r : regex) (fl : flags) (text : string) : string :=
  match re_search r text fl with
  | Some m =>
      match group m 1 with
      | Ok g => strip g
      | Raise _ => "N/A"
      end
  | None => "N/A"
  end.

(** The record when all rules have run, before "Sources" is written. *)
Definition rules_record (set_iter : list string -> list string)
    (text : string) : dict :=
  locations_step set_iter text
    (apply_rule "Schools Attended" education_pattern ignorecase text
       (apply_rule "Employer" employer_pattern ignorecase text
          (apply_rule "Church Affiliation" church_pattern ignorecase text
             (siblings_step set_iter text
                (apply_rule "Place of Birth" pob_pattern ignorecase text
                   (apply_rule "Date of Birth" dob_pattern ignorecase text
                      (apply_rule "Name" name_pattern ignorecase text
                         (apply_rule "Date of Interview" date_int_pattern
                            ignorecase_dotall text initial)))))))).

(** The values the closing loop leaves alone. *)
Definition is_sentinel (v : string) : bool :=
  existsb (String.eqb v) ["N/A"; ""; "Invalid Date"].

(** What the closing loop makes of the value of a date field. *)
Definition normalised (to_datetime : string -> result datetime_or_nat)
    (v : string) : string :=
  if is_sentinel v then v else format_date to_datetime (VStr v).

(** The first place where [w] occurs in [s], case not counted, as the
    text spells it there. *)
Fixpoint find_ci (w s : string) : option string :=
  if ci_prefix w s then Some (take (String.length w) s)
  else match s with
       | String _ s' => find_ci w s'
       | EmptyString => None
       end.

(** The characters of [w], then [r]. *)
Fixpoint literal_then (w : string) (r : regex) : regex :=
  match w with
  | EmptyString => r
  | String c w' => Seq (Lit c) (literal_then w' r)
  end.

(** The first place where [w1] occurs in [s], case not counted, with [w2]
    after it when [w2] follows there. *)
Fixpoint find_ci_opt (w1 w2 s : string) : option string :=
  if ci_prefix w1 s
  then Some (if ci_prefix w2 (skip (String.length w1) s)
             then take (String.length w1 + String.length w2) s
             else take (String.length w1) s)
  else match s with
       | String _ s' => find_ci_opt w1 w2 s'
       | EmptyString => None
       end.

(** ** What a pattern stands for

    [matches fl r s c c']: the pattern [r] takes exactly the text [s], and
    the groups [c] become [c'].  The matcher is compared with this
    relation. *)
Inductive matches (fl : flags)
    : regex -> string -> captures -> captures -> Prop :=
| M_Eps c : matches fl Eps "" c c
| M_Lit x a c :
    lit_matches fl x a = true -> matches fl (Lit x) (String a "") c c
| M_Dot a c :
    dot_matches fl a = true -> matches fl Dot (String a "") c c
| M_In items a c :
    existsb (fun i => item_matches fl i a) items = true ->
    matches fl (In_ items) (String a "") c c
| M_Seq r1 r2 s1 s2 c c1 c2 :
    matches fl r1 s1 c c1 -> matches fl r2 s2 c1 c2 ->
    matches fl (Seq r1 r2) (s1 ++ s2) c c2
| M_AltL r1 r2 s c c1 :
    matches fl r1 s c c1 -> matches fl (Alt r1 r2) s c c1
| M_AltR r1 r2 s c c1 :
    matches fl r2 s c c1 -> matches fl (Alt r1 r2) s c c1
| M_Group n r s c c1 :
    matches fl r s c c1 -> matches fl (Group n r) s c ((n, s) :: c1)
| M_RepStop greedy hi r c : matches fl (Rep greedy 0 hi r) "" c c
| M_RepMore greedy lo hi r s1 s2 c c1 c2 :
    hi <> Some 0 ->
    matches fl r s1 c c1 ->
    matches fl (Rep greedy (pred lo) (option_map pred hi) r) s2 c1 c2 ->
    matches fl (Rep greedy lo hi r) (s1 ++ s2) c c2.

(** The characters a pattern can take, whether it can take nothing, the
    characters it can start with, and the bodies of its groups [n]. *)
Fixpoint alphabet (fl : flags) (r : regex) (a : ascii) : bool :=
  match r with
  | Eps => false
  | Lit x => lit_matches fl x a
  | Dot => dot_matches fl a
  | In_ items => existsb (fun i => item_matches fl i a) items
  | Seq r1 r2 | Alt r1 r2 => alphabet fl r1 a || alphabet fl r2 a
  | Rep _ _ _ r1 | Group _ r1 => alphabet fl r1 a
  end.

Fixpoint nullable (r : regex) : bool :=
  match r with
  | Eps => true
  | Lit _ | Dot | In_ _ => false
  | Seq r1 r2 => nullable r1 && nullable r2
  | Alt r1 r2 => nullable r1 || nullable r2
  | Rep _ lo _ r1 => Nat.eqb lo 0 || nullable r1
  | Group _ r1 => nullable r1
  end.

Fixpoint firsts (fl : flags) (r : regex) (a : ascii) : bool :=
  match r with
  | Eps => false
  | Lit x => lit_matches fl x a
  | Dot => dot_matches fl a
  | In_ items => existsb (fun i => item_matches fl i a) items
  | Seq r1 r2 => firsts fl r1 a || (nullable r1 && firsts fl r2 a)
  | Alt r1 r2 => firsts fl r1 a || firsts fl r2 a
  | Rep _ _ _ r1 | Group _ r1 => firsts fl r1 a
  end.

Fixpoint bodies (n : nat) (r : regex) : list regex :=
  match r with
  | Eps | Lit _ | Dot | In_ _ => []
  | Seq r1 r2 | Alt r1 r2 => bodies n r1 ++ bodies n r2
  | Rep _ _ _ r1 => bodies n r1
  | Group m r1 => (if Nat.eqb m n then [r1] else []) ++ bodies n r1
  end.

(** [g] is a piece of [text]. *)
Definition piece (g text : string) : Prop :=
  exists pre post, text = pre ++ g ++ post.

Fixpoint all_chars (p : ascii -> bool) (s : string) : bool :=
  match s with
  | String a s' => p a && all_chars p s'
  | EmptyString => true
  end.

Definition starts (p : ascii -> bool) (s : string) : bool :=
  match s with
  | String a _ => p a
  | EmptyString => false
  end.

Definition isalpha (c : ascii) : bool :=
  in_range "A" "Z" c || in_range "a" "z" c.

(** The matcher for [r] succeeds only through its continuation, after a
    prefix of the text that [r] stands for. *)
Definition sound_for (fl : flags) (A : Type) (r : regex) : Prop :=
  forall s c (k : string -> captures -> option A) a,
    rmatch fl r s c k = Some a ->
    exists pre s1 c1,
      s = pre ++ s1 /\ matches fl r pre c c1 /\ k s1 c1 = Some a.

Definition letter_or_space (c : ascii) : bool := isalpha c || isspace c.

Definition digit_or_separator (c : ascii) : bool :=
  isdigit c || Ascii.eqb c "/" || Ascii.eqb c "-".

Definition alnum_or_space (c : ascii) : bool := isalnum c || isspace c.

(** The run of ordinary characters a pattern begins with. *)
Fixpoint prefix_word (r : regex) : string :=
  match r with
  | Lit x => String x ""
  | Seq (Lit x) r2 => String x (prefix_word r2)
  | _ => ""
  end.

(** ** Files

    What the file system and PyPDF2 answer is a parameter of the program:
    a content, or an exception with its message [str(e)]. *)

Inductive outcome (A : Type) : Type :=
| Fine (a : A)
| Fails (message : string).

Arguments Fine {A} a.
Arguments Fails {A} message.

(** A PDF file: [open] or [PdfReader] fails, or there are pages; a page
    gives its text, or fails when it is loaded or when its text is asked
    for. *)
Definition pdf : Type := outcome (list (outcome string)).

Definition newline : string := String "010" "".

(** [print(f"Error leyendo {file_path}: {e}")] *)
Definition error_line (file_path message : string) : string :=
  "Error leyendo " ++ file_path ++ ": " ++ message.

(** The loop over [pdf_reader.pages]: the text so far, and the message of
    the exception that ended the loop, if one did. *)
Fixpoint read_pages (pages : list (outcome string)) (text : string)
    : string * option string :=
  match pages with
  | [] => (text, None)
  | Fails message :: _ => (text, Some message)
  | Fine page_text :: pages' =>
      read_pages pages'
        (match page_text with
         | EmptyString => text
         | _ => text ++ page_text ++ newline
         end)
  end.

(** [extract_text_from_pdf]: the text returned and the lines printed. *)
Definition extract_text_from_pdf (open_pdf : string -> pdf)
    (file_path : string) : string * list string :=
  match open_pdf file_path with
  | Fails message => ("", [error_line file_path message])
  | Fine pages =>
      match read_pages pages "" with
      | (text, Some message) => (text, [error_line file_path message])
      | (text, None) => (text, [])
      end
  end.

(** [s.endswith(suffix)] *)
Definition ends_with (suffix s : string) : bool :=
  String.eqb (skip (String.length s - String.length suffix) s) suffix.

(** [os.path.join(directory, filename)] of [posixpath], for a directory
    that does not end with the separator. *)
Definition path_join (directory filename : string) : string :=
  match filename with
  | String "/" _ => filename
  | _ => directory ++ "/" ++ filename
  end.

Definition input_dir : string := "./input_files".

Definition output_file : string := "Resultado.csv".

(** What [main] runs in: the listing of the input directory, the files,
    and whether [to_csv] fails. *)
Record world : Type :=
  { listdir : outcome (list string);
    open_pdf : string -> pdf;
    read_text : string -> outcome string;
    csv_fails : option string }.

(** How [main] ends: a table handed to [to_csv] (the file name, the
    columns, and the rows with [None] for a missing cell), nothing to
    write, an exception of the file system, or one of the extractor. *)
Inductive ending : Type :=
| Written (file : string) (columns : list string)
    (rows : list (list (option string)))
| NothingWritten
| Failed (message : string)
| Raised (e : exn).

(** [pd.DataFrame(records, columns=columns)]: a row for each record, with
    the cells in the order of [columns]. *)
Definition cell (data : dict) (column : string) : option string :=
  match dict_get data column with
  | Ok v => Some v
  | Raise _ => None
  end.

Definition data_frame (records : list dict) (columns : list string)
    : list (list (option string)) :=
  map (fun data => map (cell data) columns) records.

(** [filename.lower().endswith((".pdf", ".txt"))].  [str.lower] and
    [lower_str] differ on capitals outside ASCII only, whose lower-case
    forms are no character of the two suffixes. *)
Definition is_document (filename : string) : bool :=
  existsb (fun suffix => ends_with suffix (lower_str filename))
    [".pdf"; ".txt"].

(** The text of a document and the lines printed while it is read. *)
Definition read_document (w : world) (filename : string)
    : string * list string :=
  let file_path := path_join input_dir filename in
  if ends_with ".pdf" (lower_str filename)
  then extract_text_from_pdf (open_pdf w) file_path
  else match read_text w file_path with
       | Fine text => (text, [])
       | Fails message => ("", [error_line file_path message])
       end.

(** The lines [main] prints. *)
Definition processing_line (filename : string) : string :=
  "Procesando archivo: " ++ filename.

Definition no_documents_line : string :=
  "No se encontraron archivos compatibles en el directorio especificado.".

Definition completed_line : string :=
  "Extracci" ++ String "243" "n completada. Resultado guardado en '"
  ++ output_file ++ "'.".

Section Program.

Variable to_datetime : string -> result datetime_or_nat.
Variable set_iter : list string -> list string.

(** The loop of [main] over the listing, with the records and the lines
    printed so far. *)
Fixpoint process_files (w : world) (names : list string)
    (resultados : list dict) (printed : list string)
    : list string * result (list dict) :=
  match names with
  | [] => (printed, Ok resultados)
  | filename :: names' =>
      if is_document filename
      then
        let printed := app printed [processing_line filename] in
        let (text, lines) := read_document w filename in
        match extract_fields_unlabeled to_datetime set_iter text filename with
        | Ok data =>
            process_files w names' (app resultados [data])
              (app printed lines)
        | Raise e => (app printed lines, Raise e)
        end
      else process_files w names' resultados printed
  end.

Definition main (w : world) : list string * ending :=
  match listdir w with
  | Fails message => ([], Failed message)
  | Fine names =>
      match process_files w names [] [] with
      | (printed, Raise e) => (printed, Raised e)
      | (printed, Ok []) =>
          (app printed [no_documents_line], NothingWritten)
      | (printed, Ok resultados) =>
          match csv_fails w with
          | Some message => (printed, Failed message)
          | None =>
              (app printed [completed_line],
               Written output_file required_fields
                 (data_frame resultados required_fields))
          end
      end
  end.

End Program.

(** The documents of a listing. *)
Definition documents (names : list string) : list string :=
  filter is_document names.

(** The lines printed while the documents are read: each document is
    announced, and a line follows if it could not be read to its end. *)
Definition announcements (w : world) (names : list string) : list string :=
  flat_map
    (fun filename => processing_line filename :: snd (read_document w filename))
    (documents names).

(** The pages of a PDF file that are read before one fails. *)
Fixpoint pages_read (pages : list (outcome string)) : list string :=
  match pages with
  | Fine page_text :: pages' => page_text :: pages_read pages'
  | _ => []
  end.

Definition nonempty (s : string) : bool :=
  match s with
  | EmptyString => false
  | _ => true
  end.

Fixpoint all_fine (pages : list (outcome string)) : bool :=
  match pages with
  | [] => true
  | Fine _ :: pages' => all_fine pages'
  | Fails _ :: _ => false
  end.

(** The file of a document cannot be read. *)
Definition unreadable (w : world) (filename : string) : Prop :=
  if ends_with ".pdf" (lower_str filename)
  then exists message,
         open_pdf w (path_join input_dir filename) = Fails message
  else exists message,
         read_text w (path_join input_dir filename) = Fails message.

(** A world with three files, one of them no document. *)
Definition ref_world : world :=
  {| listdir := Fine ["b.TXT"; "notes.md"; "a.pdf"];
     open_pdf := fun _ => Fails "file is damaged";
     read_text := fun _ => Fine siblings_text;
     csv_fails := None |}.

Fixpoint concat_all (l : list string) : string :=
  match l with
  | [] => ""
  | s :: l' => s ++ concat_all l'
  end.

(** The row of a document that gave no text: ["N/A"] everywhere, the file
    name in the last column. *)
Definition sentinel_row (filename : string) : list (option string) :=
  map (fun field =>
         Some (if String.eqb field "Sources" then filename else "N/A"))
      required_fields.

(** The world of [ref_world] with other files where no document is. *)
Definition ref_world_other : world :=
  {| listdir := Fine ["b.TXT"; "notes.md"; "a.pdf"];
     open_pdf :=
       fun file_path =>
         if String.eqb file_path "./input_files/a.pdf"
         then Fails "file is damaged"
         else Fine [Fine "born in Moline."];
     read_text :=
       fun file_path =>
         if String.eqb file_path "./input_files/b.TXT"
         then Fine siblings_text
         else Fine "interview with John Deere";
     csv_fails := None |}.

(** Another order in which a set can give its members. *)
Definition ref_set_iter_rev (l : list string) : list string :=
  rev (nodup string_dec l).

(** * Properties *)

(** ** Dictionaries *)

Lemma keys_dict_set (d : dict) (k v : string) :
  In k (keys d) -> keys (dict_set d k v) = keys d.
Proof.
  induction d as [|[k' v'] d IH]; simpl; intros H.
  - contradiction.
  - destruct (String.eqb_spec k' k) as [E|N]; simpl.
    + reflexivity.
    + f_equal. apply IH. destruct H as [H|H]; [contradiction|exact H].
Qed.

Lemma dict_get_set_same (d : dict) (k v : string) :
  dict_get (dict_set d k v) k = Ok v.
Proof.
  induction d as [|[k' v'] d IH]; simpl.
  - now rewrite String.eqb_refl.
  - destruct (String.eqb_spec k' k) as [E|N]; simpl.
    + subst. now rewrite String.eqb_refl.
    + destruct (String.eqb_spec k' k); [contradiction|exact IH].
Qed.

Lemma dict_get_set_other (d : dict) (k k' v : string) :
  k <> k' -> dict_get (dict_set d k v) k' = dict_get d k'.
Proof.
  intros N. induction d as [|[k0 v0] d IH]; simpl.
  - destruct (String.eqb_spec k k'); [contradiction|reflexivity].
  - destruct (String.eqb_spec k0 k) as [E|N0]; simpl.
    + subst k0. destruct (String.eqb_spec k k'); [contradiction|reflexivity].
    + destruct (String.eqb_spec k0 k'); [reflexivity|exact IH].
Qed.

Lemma dict_get_in_keys (d : dict) (k : string) :
  In k (keys d) -> exists v, dict_get d k = Ok v.
Proof.
  induction d as [|[k' v'] d IH]; simpl; intros H.
  - contradiction.
  - destruct (String.eqb_spec k' k) as [E|N].
    + now exists v'.
    + apply IH. destruct H as [H|H]; [contradiction|exact H].
Qed.

Lemma existsb_eqb_false (k : string) (K : list string) :
  existsb (String.eqb k) K = false <-> ~ In k K.
Proof.
  induction K as [|x K IH]; simpl.
  - tauto.
  - rewrite orb_false_iff, IH, String.eqb_neq. intuition congruence.
Qed.

(** ** Frames *)

Lemma frame_refl (K : list string) (d : dict) : frame K d d.
Proof. split; auto. Qed.

Lemma frame_trans (K : list string) (d1 d2 d3 : dict) :
  frame K d1 d2 -> frame K d2 d3 -> frame K d1 d3.
Proof.
  intros [K1 G1] [K2 G2]. split.
  - congruence.
  - intros k Hk. rewrite G2, G1; auto.
Qed.

Lemma frame_dict_set (K : list string) (d : dict) (k v : string) :
  In k (keys d) -> existsb (String.eqb k) K = true ->
  frame K d (dict_set d k v).
Proof.
  intros Hin HK. split.
  - now apply keys_dict_set.
  - intros k' Hk'. apply dict_get_set_other.
    intros ->. congruence.
Qed.

Lemma frame_in_keys (K : list string) (d d' : dict) (k : string) :
  frame K d d' -> In k (keys d) -> In k (keys d').
Proof. intros [E _] H. now rewrite E. Qed.

(** ** What a match hands to its continuation *)

Lemma has_cons (c : captures) (m n : nat) (g : string) :
  Nat.eqb m n = true \/ has c n -> has ((m, g) :: c) n.
Proof.
  unfold has. simpl. destruct (Nat.eqb m n); [discriminate|].
  intros [H|H]; [discriminate|exact H].
Qed.

Section Groups.

Variable fl : flags.
Variable A : Type.

Lemma step_groups (q : ascii -> bool) :
  passes_groups (fun _ => false) (step A q).
Proof.
  intros s c k x H. unfold step in H.
  destruct s as [|a s]; [discriminate|].
  destruct (q a); [|discriminate].
  exists s, c. split; [exact H|]. split; [simpl; lia|].
  intros n [F|F]; [discriminate|exact F].
Qed.

Lemma rep_loop_groups (p : nat -> bool) body greedy lo hi k :
  passes_groups p body ->
  forall fuel count s c x,
    rep_loop A body greedy lo hi k fuel count s c = Some x ->
    exists s' c', k s' c' = Some x
      /\ String.length s' <= String.length s
      /\ forall n, ((count < lo)%nat /\ p n = true) \/ has c n -> has c' n.
Proof.
  intros Hb. induction fuel as [|fuel IH]; intros count s c x H; simpl in H.
  - discriminate.
  - assert (More : forall y,
      (if below hi count
       then body s c (fun s1 c1 =>
              if Nat.ltb (String.length s1) (String.length s)
              then rep_loop A body greedy lo hi k fuel (S count) s1 c1
              else None)
       else None) = Some y ->
      exists s' c', k s' c' = Some y
        /\ String.length s' <= String.length s
        /\ forall n, ((count < lo)%nat /\ p n = true) \/ has c n -> has c' n).
    { intros y Hy. destruct (below hi count); [|discriminate].
      apply Hb in Hy. destruct Hy as (s1 & c1 & Hk & L1 & G1).
      destruct (Nat.ltb (String.length s1) (String.length s)); [|discriminate].
      apply IH in Hk. destruct Hk as (s' & c' & Hk & L2 & G2).
      exists s', c'. split; [exact Hk|]. split; [lia|].
      intros n Hn. apply G2. right. apply G1. tauto. }
    assert (Stop : forall y,
      (if Nat.leb lo count then k s c else None) = Some y ->
      exists s' c', k s' c' = Some y
        /\ String.length s' <= String.length s
        /\ forall n, ((count < lo)%nat /\ p n = true) \/ has c n -> has c' n).
    { intros y Hy. destruct (Nat.leb_spec lo count); [|discriminate].
      exists s, c. split; [exact Hy|]. split; [lia|].
      intros n [[F _]|F]; [lia|exact F]. }
    destruct greedy.
    + destruct (if below hi count then _ else None) eqn:E.
      * inversion H; subst. now apply More.
      * now apply Stop.
    + destruct (if Nat.leb lo count then _ else None) eqn:E.
      * inversion H; subst. now apply Stop.
      * now apply More.
Qed.

Lemma rmatch_groups (r : regex) : passes_groups (sets r) (rmatch fl (A:=A) r).
Proof.
  induction r as [| x | | items | r1 IH1 r2 IH2 | r1 IH1 r2 IH2
                 | greedy lo hi r1 IH1 | m r1 IH1]; intros s c k x0 H;
    cbn [rmatch] in H.
  - exists s, c. split; [exact H|]. split; [lia|].
    intros n [F|F]; [discriminate|exact F].
  - now apply step_groups in H.
  - now apply step_groups in H.
  - now apply step_groups in H.
  - apply IH1 in H. destruct H as (s1 & c1 & H & L1 & G1).
    apply IH2 in H. destruct H as (s2 & c2 & H & L2 & G2).
    exists s2, c2. split; [exact H|]. split; [lia|].
    intros n Hn. simpl in Hn.
    apply G2. rewrite orb_true_iff in Hn.
    destruct Hn as [[Hn|Hn]|Hn]; [right; apply G1; now left|now left|].
    right. apply G1. now right.
  - destruct (rmatch fl r1 s c k) eqn:E.
    + inversion H; subst. apply IH1 in E. destruct E as (s1 & c1 & E & L1 & G1).
      exists s1, c1. split; [exact E|]. split; [exact L1|].
      intros n Hn. apply G1.
      simpl in Hn. rewrite andb_true_iff in Hn. tauto.
    + apply IH2 in H. destruct H as (s1 & c1 & E' & L1 & G1).
      exists s1, c1. split; [exact E'|]. split; [exact L1|].
      intros n Hn. apply G1.
      simpl in Hn. rewrite andb_true_iff in Hn. tauto.
  - apply (rep_loop_groups (sets r1)) in H; [|exact IH1].
    destruct H as (s' & c' & H & L & G). exists s', c'. split; [exact H|].
    split; [exact L|].
    intros n Hn. apply G. simpl in Hn. rewrite andb_true_iff in Hn.
    destruct Hn as [[Hlo Hn]|Hn]; [left|now right].
    split; [|exact Hn]. now apply Nat.ltb_lt in Hlo.
  - apply IH1 in H. destruct H as (s1 & c1 & H & L1 & G1).
    eexists s1, _. split; [exact H|]. split; [exact L1|].
    intros n Hn. simpl in Hn.
    apply has_cons. rewrite orb_true_iff in Hn.
    destruct Hn as [[Hn|Hn]|Hn]; [now left| |]; right; apply G1; tauto.
Qed.

(** *** The counter of a repeat never runs out *)

Lemma agree_le (n m : nat) (k1 k2 : string -> captures -> option A) :
  (n <= m)%nat -> agree m k1 k2 -> agree n k1 k2.
Proof. intros H Ha s c Hs. apply Ha. lia. Qed.

Lemma rep_loop_local body greedy lo hi :
  local body ->
  forall fuel count s c k1 k2,
    agree (String.length s) k1 k2 ->
    rep_loop A body greedy lo hi k1 fuel count s c
    = rep_loop A body greedy lo hi k2 fuel count s c.
Proof.
  intros Hb. induction fuel as [|fuel IH]; intros count s c k1 k2 Ha.
  - reflexivity.
  - cbn [rep_loop].
    assert (M : body s c (fun s1 c1 =>
                  if Nat.ltb (String.length s1) (String.length s)
                  then rep_loop A body greedy lo hi k1 fuel (S count) s1 c1
                  else None)
                = body s c (fun s1 c1 =>
                  if Nat.ltb (String.length s1) (String.length s)
                  then rep_loop A body greedy lo hi k2 fuel (S count) s1 c1
                  else None)).
    { apply Hb. intros s1 c1 L1.
      destruct (Nat.ltb_spec (String.length s1) (String.length s));
        [|reflexivity].
      apply IH. eapply agree_le; [|exact Ha]. lia. }
    rewrite M, (Ha s c (le_n _)). reflexivity.
Qed.

Lemma rmatch_local (r : regex) : local (rmatch fl (A:=A) r).
Proof.
  induction r as [| x | | items | r1 IH1 r2 IH2 | r1 IH1 r2 IH2
                 | greedy lo hi r1 IH1 | m r1 IH1]; intros s c k1 k2 Ha;
    cbn [rmatch].
  - apply Ha. lia.
  - unfold step. destruct s as [|a s]; [reflexivity|].
    destruct (lit_matches fl x a); [|reflexivity]. apply Ha. simpl. lia.
  - unfold step. destruct s as [|a s]; [reflexivity|].
    destruct (dot_matches fl a); [|reflexivity]. apply Ha. simpl. lia.
  - unfold step. destruct s as [|a s]; [reflexivity|].
    destruct (existsb _ items); [|reflexivity]. apply Ha. simpl. lia.
  - apply IH1. intros s1 c1 L1. apply IH2.
    eapply agree_le; [|exact Ha]. exact L1.
  - rewrite (IH1 s c k1 k2 Ha), (IH2 s c k1 k2 Ha). reflexivity.
  - now apply rep_loop_local.
  - apply IH1. intros s1 c1 L1. now apply Ha.
Qed.

Lemma rep_loop_fuel body greedy lo hi k :
  local body ->
  forall fuel1 fuel2 count s c,
    (String.length s < fuel1)%nat -> (String.length s < fuel2)%nat ->
    rep_loop A body greedy lo hi k fuel1 count s c
    = rep_loop A body greedy lo hi k fuel2 count s c.
Proof.
  intros Hb. induction fuel1 as [|fuel1 IH]; intros fuel2 count s c H1 H2.
  - lia.
  - destruct fuel2 as [|fuel2]; [lia|]. cbn [rep_loop].
    assert (M : body s c (fun s1 c1 =>
                  if Nat.ltb (String.length s1) (String.length s)
                  then rep_loop A body greedy lo hi k fuel1 (S count) s1 c1
                  else None)
                = body s c (fun s1 c1 =>
                  if Nat.ltb (String.length s1) (String.length s)
                  then rep_loop A body greedy lo hi k fuel2 (S count) s1 c1
                  else None)).
    { apply Hb. intros s1 c1 L1.
      destruct (Nat.ltb_spec (String.length s1) (String.length s));
        [|reflexivity].
      apply IH; lia. }
    rewrite M. reflexivity.
Qed.

(** A repeat with more fuel than [S (length s)] matches the same. *)
Lemma rmatch_rep_fuel greedy lo hi (r : regex) (fuel : nat) s c
    (k : string -> captures -> option A) :
  (String.length s < fuel)%nat ->
  rep_loop A (rmatch fl r) greedy lo hi k fuel 0 s c
  = rmatch fl (Rep greedy lo hi r) s c k.
Proof.
  intros H. cbn [rmatch]. apply rep_loop_fuel; [apply rmatch_local|lia|lia].
Qed.

End Groups.

Lemma search_from_groups (fl : flags) (r : regex) (s : string) :
  forall pos m n, search_from fl r s pos = Some m -> sets r n = true ->
                  has (m_groups m) n.
Proof.
  induction s as [|a s IH]; intros pos m n H Hn; simpl in H.
  - destruct (match_at fl r "" pos) eqn:E; [|discriminate].
    inversion H; subst. unfold match_at in E.
    apply rmatch_groups in E. destruct E as (s' & c' & E & _ & G).
    inversion E; subst. simpl. apply G. now left.
  - destruct (match_at fl r (String a s) pos) eqn:E.
    + inversion H; subst. unfold match_at in E.
      apply rmatch_groups in E. destruct E as (s' & c' & E & _ & G).
      inversion E; subst. simpl. apply G. now left.
    + eapply IH; eauto.
Qed.

Lemma group_search (fl : flags) (r : regex) (text : string) (m : match_obj)
    (n : nat) :
  re_search r text fl = Some m -> sets r n = true ->
  exists g, group m n = Ok g.
Proof.
  intros H Hn. unfold re_search in H.
  pose proof (search_from_groups fl r text 0 m n H Hn) as G.
  unfold group. unfold has in G. destruct (lookup n (m_groups m)) as [g|].
  - now exists g.
  - congruence.
Qed.

(** *** [re.findall] never runs out of fuel either *)

Lemma search_from_rest (fl : flags) (r : regex) (s : string) :
  forall pos m, search_from fl r s pos = Some m ->
    (String.length (m_rest m) <= String.length s)%nat
    /\ (m_end m <> m_start m ->
        (String.length (m_rest m) < String.length s)%nat).
Proof.
  assert (At : forall s pos m, match_at fl r s pos = Some m ->
    (String.length (m_rest m) <= String.length s)%nat
    /\ (m_end m <> m_start m ->
        (String.length (m_rest m) < String.length s)%nat)).
  { intros s0 pos m E. unfold match_at in E.
    apply rmatch_groups in E. destruct E as (s' & c' & E & L & _).
    injection E as <-. cbn [m_rest m_end m_start]. split; [exact L|]. lia. }
  induction s as [|a s IH]; intros pos m H; cbn [search_from] in H.
  - destruct (match_at fl r "" pos) eqn:E; [|discriminate].
    injection H as <-. now apply At in E.
  - destruct (match_at fl r (String a s) pos) eqn:E.
    + injection H as <-. now apply At in E.
    + apply IH in H. cbn [String.length]. lia.
Qed.

Lemma findall_fuel (fl : flags) (r : regex) (ngroups : nat) :
  forall fuel1 fuel2 s,
    (String.length s < fuel1)%nat -> (String.length s < fuel2)%nat ->
    findall_from fuel1 fl r ngroups s = findall_from fuel2 fl r ngroups s.
Proof.
  induction fuel1 as [|fuel1 IH]; intros fuel2 s H1 H2.
  - lia.
  - destruct fuel2 as [|fuel2]; [lia|]. cbn [findall_from].
    destruct (search_from fl r s 0) as [m|] eqn:E; [|reflexivity].
    apply search_from_rest in E. destruct E as [L1 L2].
    destruct (Nat.eqb_spec (m_end m) (m_start m)) as [Ee|Ne].
    + destruct (m_rest m) as [|a rest]; [reflexivity|].
      f_equal. apply IH; simpl in L1; lia.
    + f_equal. apply IH; specialize (L2 Ne); lia.
Qed.

(** ** The steps of the extractor *)

Lemma dict_from_keys_required :
  dict_from_keys required_fields "N/A" = initial.
Proof. reflexivity. Qed.

Lemma keys_initial : keys initial = required_fields.
Proof. reflexivity. Qed.

Lemma set_group1_frame (K : list string) (data : dict) (field : string)
    (r : regex) (text : string) (fl : flags) :
  sets r 1 = true -> In field (keys data) ->
  existsb (String.eqb field) K = true ->
  exists data', set_group1 data field (re_search r text fl) = Ok data'
                /\ frame K data data'.
Proof.
  intros Hs Hin HK. destruct (re_search r text fl) as [m|] eqn:E; simpl.
  - destruct (group_search fl r text m 1 E Hs) as [g Hg]. rewrite Hg. simpl.
    eexists. split; [reflexivity|]. now apply frame_dict_set.
  - eexists. split; [reflexivity|]. apply frame_refl.
Qed.

Section Loop.

Variable to_datetime : string -> result datetime_or_nat.

Lemma format_date_fields_frame (K : list string) (fields : list string) :
  forall data,
    (forall f, In f fields ->
       In f (keys data)
       /\ (existsb (String.eqb f) K = true \/ dict_get data f = Ok "N/A")) ->
    exists data', format_date_fields to_datetime fields data = Ok data'
                  /\ frame K data data'.
Proof.
  induction fields as [|f fields IH]; intros data H; simpl.
  - eexists. split; [reflexivity|]. apply frame_refl.
  - destruct (H f (or_introl eq_refl)) as [Hin HK].
    destruct (dict_get_in_keys data f Hin) as [v Hv]. rewrite Hv. simpl.
    destruct (v =? "N/A") eqn:E1; simpl.
    { apply IH. intros f' Hf'. apply H. now right. }
    destruct ((v =? "") || ((v =? "Invalid Date") || false)) eqn:E2.
    { apply IH. intros f' Hf'. apply H. now right. }
    assert (HKf : existsb (String.eqb f) K = true).
    { destruct HK as [HK|HK]; [exact HK|].
      rewrite Hv in HK. inversion HK; subst. discriminate. }
    destruct (IH (dict_set data f (format_date to_datetime (VStr v))))
      as (data' & E & F).
    { intros f' Hf'. destruct (H f' (or_intror Hf')) as [Hin' HK'].
      split.
      - rewrite keys_dict_set; auto.
      - destruct (String.eqb_spec f f') as [->|N]; [now left|].
        destruct HK' as [HK'|HK']; [now left|right].
        rewrite dict_get_set_other; auto. }
    exists data'. split; [exact E|].
    eapply frame_trans; [|exact F]. now apply frame_dict_set.
Qed.

End Loop.

Lemma frame_weaken (K K' : list string) (d d' : dict) :
  forallb (fun k => existsb (String.eqb k) K') K = true ->
  frame K d d' -> frame K' d d'.
Proof.
  intros HK [E G]. split; [exact E|]. intros k Hk. apply G.
  apply existsb_eqb_false. intros Hin.
  rewrite forallb_forall in HK. specialize (HK k Hin).
  congruence.
Qed.

Lemma frame_keys (K : list string) (d d' : dict) :
  frame K d d' -> keys d = required_fields -> keys d' = required_fields.
Proof. intros [E _] H. congruence. Qed.

Section Master.

Variable to_datetime : string -> result datetime_or_nat.
Variable set_iter : list string -> list string.

Ltac in_keys HK := rewrite HK; simpl; tauto.

Ltac rule_step K HK F d' HK' F' :=
  match goal with
  | |- context [set_group1 ?d ?f (re_search ?r ?t ?fl)] =>
      let E := fresh "E" in
      let F1 := fresh "F" in
      destruct (set_group1_frame K d f r t fl eq_refl
                  ltac:(in_keys HK) eq_refl) as (d' & E & F1);
      rewrite E; cbn [bind];
      pose proof (frame_keys _ _ _ F1 HK) as HK';
      pose proof (frame_trans _ _ _ _ F F1) as F'; clear F F1 HK E
  end.

Lemma siblings_step_frame (text : string) (data : dict) :
  keys data = required_fields ->
  frame ["Siblings"] data (siblings_step set_iter text data).
Proof.
  intros HK. unfold siblings_step.
  destruct (re_findall siblings_pattern 2 text ignorecase).
  - apply frame_refl.
  - apply frame_dict_set; [in_keys HK|reflexivity].
Qed.

Lemma locations_step_frame (text : string) (data : dict) :
  keys data = required_fields ->
  frame ["Geographical Locations"] data (locations_step set_iter text data).
Proof.
  intros HK. unfold locations_step.
  destruct (locations_found text).
  - apply frame_refl.
  - apply frame_dict_set; [in_keys HK|reflexivity].
Qed.

(** The run of [extract_fields_unlabeled], cut at the two rules above. *)
Lemma extract_steps (text filename : string) :
  exists d4 d7 data,
    extract_fields_unlabeled to_datetime set_iter text filename = Ok data
    /\ keys d4 = required_fields /\ keys d7 = required_fields
    /\ frame first_rules initial d4
    /\ frame middle_rules (siblings_step set_iter text d4) d7
    /\ frame last_steps (locations_step set_iter text d7) data.
Proof.
  unfold extract_fields_unlabeled. rewrite dict_from_keys_required.
  pose proof (frame_refl first_rules initial) as F0.
  pose proof keys_initial as HK0.
  rule_step first_rules HK0 F0 d1 HK1 F1.
  rule_step first_rules HK1 F1 d2 HK2 F2.
  rule_step first_rules HK2 F2 d3 HK3 F3.
  rule_step first_rules HK3 F3 d4 HK4 F4.
  exists d4.
  change (match re_findall siblings_pattern 2 text ignorecase with
          | [] => d4
          | _ => _ end) with (siblings_step set_iter text d4).
  pose proof (frame_keys _ _ _ (siblings_step_frame text d4 HK4) HK4) as HKs.
  pose proof (frame_refl middle_rules (siblings_step set_iter text d4)) as Fm.
  rule_step middle_rules HKs Fm d5 HK5 F5.
  rule_step middle_rules HK5 F5 d6 HK6 F6.
  rule_step middle_rules HK6 F6 d7 HK7 F7.
  exists d7.
  change (match filter _ gazetteer with
          | [] => d7
          | _ => _ end) with (locations_step set_iter text d7).
  pose proof (frame_keys _ _ _ (locations_step_frame text d7 HK7) HK7) as HKl.
  assert (Fsrc : frame last_steps (locations_step set_iter text d7)
                   (dict_set (locations_step set_iter text d7) "Sources" filename)).
  { apply frame_dict_set; [in_keys HKl|reflexivity]. }
  assert (Hinit : forall k, existsb (String.eqb k) rule_fields = false ->
                    dict_get (locations_step set_iter text d7) k = dict_get initial k).
  { intros k Hk. apply existsb_eqb_false in Hk.
    destruct (locations_step_frame text d7 HK7) as [_ G1].
    destruct F7 as [_ G2].
    destruct (siblings_step_frame text d4 HK4) as [_ G3].
    destruct F4 as [_ G4].
    rewrite G1, G2, G3, G4; auto; apply existsb_eqb_false;
      intros Hin; apply Hk; simpl in Hin |- *; tauto. }
  destruct (format_date_fields_frame to_datetime last_steps date_fields
              (dict_set (locations_step set_iter text d7) "Sources" filename))
    as (data & E & F).
  { intros f Hf. simpl in Hf.
    destruct Hf as [<-|[<-|[<-|[<-|[]]]]];
      (split; [rewrite (frame_keys _ _ _ Fsrc HKl); simpl; tauto|]);
      try (left; reflexivity); right; destruct Fsrc as [_ G];
      rewrite G, Hinit; reflexivity. }
  exists data. split; [exact E|].
  repeat split; try assumption; try apply F4; try apply F7.
  - destruct F as [EF _]. destruct Fsrc as [ES _]. congruence.
  - intros k Hk. destruct F as [_ GF]. destruct Fsrc as [_ GS].
    rewrite GF, GS; auto.
Qed.

Lemma extract_frame (text filename : string) :
  exists data,
    extract_fields_unlabeled to_datetime set_iter text filename = Ok data
    /\ frame rule_fields initial data.
Proof.
  destruct (extract_steps text filename)
    as (d4 & d7 & data & E & HK4 & HK7 & F1 & F2 & F3).
  exists data. split; [exact E|].
  eapply frame_trans; [eapply frame_weaken; [|exact F1]; reflexivity|].
  eapply frame_trans;
    [eapply frame_weaken; [|exact (siblings_step_frame text d4 HK4)];
     reflexivity|].
  eapply frame_trans; [eapply frame_weaken; [|exact F2]; reflexivity|].
  eapply frame_trans;
    [eapply frame_weaken; [|exact (locations_step_frame text d7 HK7)];
     reflexivity|].
  eapply frame_weaken; [|exact F3]; reflexivity.
Qed.

(** What the record holds for the two collected fields. *)
Lemma extract_locations (text filename : string) (data : dict) :
  extract_fields_unlabeled to_datetime set_iter text filename = Ok data ->
  dict_get data "Geographical Locations"
  = Ok match locations_found text with
       | [] => "N/A"
       | _ => join ", " (sorted (set_iter (locations_found text)))
       end.
Proof.
  intros E'.
  destruct (extract_steps text filename)
    as (d4 & d7 & data' & E & HK4 & HK7 & [_ G1] & [_ G2] & [_ G3]).
  rewrite E in E'. inversion E'; subst data'. clear E'.
  rewrite G3 by reflexivity. unfold locations_step.
  destruct (locations_found text) eqn:L.
  - rewrite G2 by reflexivity.
    destruct (siblings_step_frame text d4 HK4) as [_ Gs].
    rewrite Gs by reflexivity. now rewrite G1 by reflexivity.
  - apply dict_get_set_same.
Qed.

Lemma extract_siblings (text filename : string) (data : dict) :
  extract_fields_unlabeled to_datetime set_iter text filename = Ok data ->
  dict_get data "Siblings"
  = Ok match re_findall siblings_pattern 2 text ignorecase with
       | [] => "N/A"
       | _ => join ", " (set_iter (sibling_names text))
       end.
Proof.
  intros E'.
  destruct (extract_steps text filename)
    as (d4 & d7 & data' & E & HK4 & HK7 & [_ G1] & [_ G2] & [_ G3]).
  rewrite E in E'. inversion E'; subst data'. clear E'.
  rewrite G3 by reflexivity.
  destruct (locations_step_frame text d7 HK7) as [_ Gl].
  rewrite Gl by reflexivity. rewrite G2 by reflexivity.
  unfold siblings_step.
  destruct (re_findall siblings_pattern 2 text ignorecase) eqn:L.
  - now rewrite G1 by reflexivity.
  - apply dict_get_set_same.
Qed.

End Master.

Lemma found_none (m : option match_obj) : negb (found m) = true -> m = None.
Proof. destruct m; [discriminate|reflexivity]. Qed.

Lemma filter_none {A : Type} (p : A -> bool) (l : list A) :
  forallb (fun x => negb (p x)) l = true -> filter p l = [].
Proof.
  induction l as [|x l IH]; simpl; [reflexivity|].
  rewrite andb_true_iff. intros [Hx Hl].
  destruct (p x); [discriminate|]. now apply IH.
Qed.

Lemma dict_get_constant (fields : list string) (v field : string) :
  In field fields ->
  dict_get (map (fun k => (k, v)) fields) field = Ok v.
Proof.
  induction fields as [|f fs IH]; intros Hin.
  - contradiction.
  - cbn [map dict_get]. destruct (String.eqb_spec f field); [reflexivity|].
    apply IH. destruct Hin; [contradiction|assumption].
Qed.

Lemma unruled_fields_eq :
  unruled_fields
  = filter (fun field => negb (existsb (String.eqb field) rule_fields))
           required_fields.
Proof. reflexivity. Qed.

(** C1.  For every text and every filename [extract_fields_unlabeled]
    returns a record, and the keys of the record are the 36 names of
    [required_fields], each once, in the order of the schema. *)
Theorem extract_fields_schema
    (to_datetime : string -> result datetime_or_nat)
    (set_iter : list string -> list string) (text filename : string) :
  exists data,
    extract_fields_unlabeled to_datetime set_iter text filename = Ok data
    /\ keys data = required_fields
    /\ List.length (keys data) = 36%nat
    /\ NoDup (keys data).
Proof.
  destruct (extract_frame to_datetime set_iter text filename)
    as (data & E & [HK _]).
  exists data. split; [exact E|]. rewrite HK, keys_initial.
  split; [reflexivity|]. split; [reflexivity|].
  unfold required_fields.
  repeat (constructor;
          [simpl; intros H;
           repeat (destruct H as [H|H]; [discriminate H|]); exact H|]).
  constructor.
Qed.

(** C9.  For every text and filename, the 26 schema fields that no rule
    assigns (every field outside [rule_fields]) hold ["N/A"] in the record
    returned. *)
Theorem unruled_fields_sentinel
    (to_datetime : string -> result datetime_or_nat)
    (set_iter : list string -> list string) (text filename : string) :
  List.length unruled_fields = 26%nat
  /\ exists data,
       extract_fields_unlabeled to_datetime set_iter text filename = Ok data
       /\ Forall (fun field => dict_get data field = Ok "N/A") unruled_fields.
Proof.
  split; [reflexivity|].
  destruct (extract_frame to_datetime set_iter text filename)
    as (data & E & [_ G]).
  exists data. split; [exact E|].
  apply Forall_forall. intros field Hin. rewrite unruled_fields_eq in Hin.
  apply filter_In in Hin. destruct Hin as [Hreq Hnot].
  rewrite G by (now apply negb_true_iff).
  now apply dict_get_constant.
Qed.

(** C2.  For every text in which no pattern is recognised (the empty
    text is one) and every filename, [extract_fields_unlabeled] returns,
    without raising, the record whose fields are all ["N/A"] except
    "Sources", which is the filename. *)
Theorem no_pattern_sentinel_record
    (to_datetime : string -> result datetime_or_nat)
    (set_iter : list string -> list string) (text filename : string) :
  no_pattern text = true ->
  extract_fields_unlabeled to_datetime set_iter text filename
  = Ok (sentinel_record filename).
Proof.
  unfold no_pattern. rewrite !andb_true_iff.
  intros [[[[[[[[H1 H2] H3] H4] H5] H6] H7] H8] H9].
  apply found_none in H1, H2, H3, H4, H6, H7, H8.
  apply filter_none in H9.
  unfold extract_fields_unlabeled.
  rewrite H1, H2, H3, H4, H6, H7, H8, H9.
  destruct (re_findall siblings_pattern 2 text ignorecase); [|discriminate].
  reflexivity.
Qed.

Lemma no_pattern_sentinel_record_witness :
  no_pattern "" = true
  /\ extract_fields_unlabeled ref_to_datetime ref_set_iter "" "interview.txt"
     = Ok (sentinel_record "interview.txt").
Proof.
  split; [reflexivity|].
  apply (no_pattern_sentinel_record ref_to_datetime ref_set_iter ""
           "interview.txt").
  reflexivity.
Defined.

(** C6.  On the text ["... interview with Jane Mary Smith ... born in
    Stockholm, Sweden. ... interview conducted 11th of March 1986 ..."] the
    record has Name "Jane Mary Smith", Place of Birth "Stockholm" and, the
    date parser reading "11th of March 1986" as 11 March 1986, Date of
    Interview "1986-03-11". *)
Theorem sample_text_record
    (to_datetime : string -> result datetime_or_nat)
    (set_iter : list string -> list string) (filename : string) :
  to_datetime "11th of March 1986" = Ok (Timestamp 1986 3 11) ->
  exists data,
    extract_fields_unlabeled to_datetime set_iter sample_text filename
    = Ok data
    /\ dict_get data "Name" = Ok "Jane Mary Smith"
    /\ dict_get data "Place of Birth" = Ok "Stockholm"
    /\ dict_get data "Date of Interview" = Ok "1986-03-11".
Proof.
  intros H. eexists. split.
  - vm_compute. rewrite H. reflexivity.
  - repeat split; reflexivity.
Qed.

Lemma sample_text_record_witness :
  exists data,
    extract_fields_unlabeled ref_to_datetime ref_set_iter sample_text
      "smith.txt" = Ok data
    /\ dict_get data "Name" = Ok "Jane Mary Smith"
    /\ dict_get data "Place of Birth" = Ok "Stockholm"
    /\ dict_get data "Date of Interview" = Ok "1986-03-11".
Proof.
  apply (sample_text_record ref_to_datetime ref_set_iter "smith.txt").
  reflexivity.
Defined.

(** ** Searching for a run of characters *)

Lemma rmatch_literal (A : Type) (w : string) :
  forall s c (k : string -> captures -> option A),
    rmatch ignorecase (literal w) s c k
    = if ci_prefix w s then k (skip (String.length w) s) c else None.
Proof.
  induction w as [|x w IH]; intros s c k.
  - reflexivity.
  - destruct w as [|y w].
    + destruct s as [|a s]; [reflexivity|]. simpl.
      unfold lit_matches. simpl IGNORECASE. cbv iota.
      rewrite andb_true_r. reflexivity.
    + change (literal (String x (String y w)))
        with (Seq (Lit x) (literal (String y w))).
      cbn [rmatch]. destruct s as [|a s]; [reflexivity|].
      unfold step. unfold lit_matches. simpl IGNORECASE. cbv iota.
      change (ci_prefix (String x (String y w)) (String a s))
        with (Ascii.eqb (lower x) (lower a) && ci_prefix (String y w) s).
      destruct (Ascii.eqb (lower x) (lower a)); [|reflexivity].
      rewrite IH. reflexivity.
Qed.

Lemma search_from_literal (w s : string) :
  forall pos, found (search_from ignorecase (literal w) s pos) = occurs_b w s.
Proof.
  induction s as [|a s IH]; intros pos.
  - simpl. unfold match_at. rewrite rmatch_literal.
    destruct (ci_prefix w ""); reflexivity.
  - cbn [search_from occurs_b]. unfold match_at. rewrite rmatch_literal.
    destruct (ci_prefix w (String a s)); [reflexivity|]. apply IH.
Qed.

Lemma ci_prefix_spec (w : string) :
  forall s, ci_prefix w s = true
            <-> exists mid post, s = mid ++ post /\ lower_str mid = lower_str w.
Proof.
  induction w as [|x w IH]; intros s; simpl.
  - split; [intros _; now exists "", s|reflexivity].
  - destruct s as [|a s].
    + split; [discriminate|].
      intros (mid & post & E & L). destruct mid; discriminate.
    + rewrite andb_true_iff, Ascii.eqb_eq, IH. split.
      * intros [Hx (mid & post & E & L)].
        exists (String a mid), post. simpl. split; congruence.
      * intros (mid & post & E & L). destruct mid as [|b mid]; [discriminate|].
        simpl in E, L. inversion E; subst. inversion L.
        split; [congruence|]. now exists mid, post.
Qed.

Lemma occurs_b_spec (w s : string) : occurs_b w s = true <-> occurs_ci w s.
Proof.
  split.
  - induction s as [|a s IH]; simpl; rewrite orb_true_iff; intros [H|H].
    + apply ci_prefix_spec in H. destruct H as (mid & post & E & L).
      now exists "", mid, post.
    + discriminate.
    + apply ci_prefix_spec in H. destruct H as (mid & post & E & L).
      now exists "", mid, post.
    + destruct (IH H) as (pre & mid & post & E & L).
      exists (String a pre), mid, post. simpl. split; congruence.
  - intros (pre & mid & post & E & L). revert s E.
    induction pre as [|a pre IH]; intros s E.
    + assert (P : ci_prefix w s = true)
        by (apply ci_prefix_spec; now exists mid, post).
      destruct s; simpl; rewrite P; reflexivity.
    + subst s. simpl. rewrite (IH _ eq_refl). apply orb_true_r.
Qed.

Lemma found_literal (w text : string) :
  found (re_search (literal w) text ignorecase) = true <-> occurs_ci w text.
Proof.
  unfold re_search. rewrite search_from_literal. apply occurs_b_spec.
Qed.

(** The patterns are what [re.compile] makes of their text, and an entry
    of the gazetteer compiles to the run of its characters. *)
Lemma patterns_compile :
  re_compile
    "interview.*?(\d{1,2}(?:st|nd|rd|th)?\s+of\s+[A-Za-z]+\s+\d{4})"
  = Some date_int_pattern
  /\ re_compile "interview with\s+([A-Z][a-zA-Z]+(?:\s+[A-Z][a-zA-Z]+)+)"
     = Some name_pattern
  /\ re_compile "born (?:on\s+)?(\d{1,2}[/-]\d{1,2}[/-]\d{2,4})"
     = Some dob_pattern
  /\ re_compile "born in\s+([A-Za-z\s]+)[\.,]" = Some pob_pattern
  /\ re_compile "my\s+(?:younger\s+)?(brother|sister)\s+([A-Z][a-zA-Z]+)"
     = Some siblings_pattern
  /\ re_compile "(Salvation Army(?: training college)?)"
     = Some church_pattern
  /\ re_compile "(John Deere)" = Some employer_pattern
  /\ re_compile "(Salvation Army training college in Chicago)"
     = Some education_pattern.
Proof. repeat split; reflexivity. Qed.

Lemma compiled_gazetteer (loc : string) :
  In loc gazetteer ->
  re_compile loc = Some (literal loc) /\ compiled loc = literal loc.
Proof.
  unfold gazetteer. simpl.
  intros [<-|[<-|[<-|[<-|[<-|[<-|[]]]]]]]; split; reflexivity.
Qed.

Lemma locations_found_spec (text e : string) :
  In e (locations_found text) <-> In e gazetteer /\ occurs_ci e text.
Proof.
  unfold locations_found. rewrite filter_In. split; intros [Hin H].
  - split; [exact Hin|]. apply found_literal.
    now rewrite <- (proj2 (compiled_gazetteer e Hin)).
  - split; [exact Hin|]. rewrite (proj2 (compiled_gazetteer e Hin)).
    now apply found_literal.
Qed.

(** ** [sorted] *)

Lemma insert_sorted_perm (x : string) (l : list string) :
  Permutation (insert_sorted x l) (x :: l).
Proof.
  induction l as [|y l IH]; simpl; [reflexivity|].
  destruct (String.leb x y); [reflexivity|].
  rewrite IH. apply perm_swap.
Qed.

Lemma sorted_perm (l : list string) : Permutation (sorted l) l.
Proof.
  induction l as [|x l IH]; simpl; [reflexivity|].
  rewrite insert_sorted_perm. now constructor.
Qed.

Lemma insert_sorted_Sorted (x : string) (l : list string) :
  Sorted le_str l -> Sorted le_str (insert_sorted x l).
Proof.
  induction l as [|y l IH]; simpl; intros H.
  - repeat constructor.
  - destruct (String.leb x y) eqn:E.
    + constructor; [exact H|]. now constructor.
    + inversion H as [|? ? Hs Hh]; subst. constructor; [now apply IH|].
      assert (Hyx : le_str y x).
      { destruct (String.leb_total x y) as [T|T]; [congruence|exact T]. }
      destruct l as [|z l]; simpl.
      * now constructor.
      * destruct (String.leb x z); constructor; [exact Hyx|].
        now inversion Hh.
Qed.

Lemma sorted_Sorted (l : list string) : Sorted le_str (sorted l).
Proof.
  induction l as [|x l IH]; simpl; [constructor|].
  now apply insert_sorted_Sorted.
Qed.

Lemma set_order_ref : set_order ref_set_iter.
Proof. intros l. reflexivity. Qed.

Lemma set_iter_NoDup set_iter (l : list string) :
  set_order set_iter -> NoDup (set_iter l).
Proof.
  intros H. eapply Permutation_NoDup; [symmetry; apply H|].
  apply NoDup_nodup.
Qed.

Lemma set_iter_In set_iter (l : list string) (x : string) :
  set_order set_iter -> In x (set_iter l) <-> In x l.
Proof.
  intros H. split; intros I.
  - apply (nodup_In string_dec). eapply Permutation_in; [apply H|exact I].
  - eapply Permutation_in; [symmetry; apply H|]. now apply nodup_In.
Qed.

Lemma set_iter_nonempty set_iter (x : string) (l : list string) :
  set_order set_iter -> set_iter (x :: l) <> [].
Proof.
  intros H E. assert (I : In x (set_iter (x :: l)))
    by (apply set_iter_In; [exact H|now left]).
  rewrite E in I. contradiction.
Qed.



Lemma siblings_text_matches :
  re_findall siblings_pattern 2 siblings_text ignorecase
  = [["brother"; "John"]; ["sister"; "Mary"]].
Proof. vm_compute. reflexivity. Qed.

(** C8.  For every text the sibling pattern matches, "Siblings" is the
    [", "]-join of the captured names without duplicates (equal strings
    counted once), in the order the set gives them; on a text with "my
    brother John" and "my sister Mary" the joined names are John and Mary,
    in one order or the other. *)
Theorem siblings_field
    (to_datetime : string -> result datetime_or_nat)
    (set_iter : list string -> list string) (text filename : string) :
  set_order set_iter ->
  (exists data,
     extract_fields_unlabeled to_datetime set_iter text filename = Ok data
     /\ ((re_findall siblings_pattern 2 text ignorecase = []
          /\ dict_get data "Siblings" = Ok "N/A")
         \/ exists names,
              NoDup names
              /\ (forall x, In x names <-> In x (sibling_names text))
              /\ dict_get data "Siblings" = Ok (join ", " names)))
  /\ (exists data names,
        extract_fields_unlabeled to_datetime set_iter siblings_text filename
        = Ok data
        /\ Permutation names ["John"; "Mary"]
        /\ dict_get data "Siblings" = Ok (join ", " names)).
Proof.
  intros Hset. split.
  - destruct (extract_frame to_datetime set_iter text filename)
      as (data & E & _).
    exists data. split; [exact E|].
    pose proof (extract_siblings to_datetime set_iter text filename data E)
      as G.
    destruct (re_findall siblings_pattern 2 text ignorecase) eqn:L.
    + left. now split.
    + right. exists (set_iter (sibling_names text)).
      split; [now apply set_iter_NoDup|]. split; [|exact G].
      intros x. now apply set_iter_In.
  - destruct (extract_frame to_datetime set_iter siblings_text filename)
      as (data & E & _).
    exists data, (set_iter ["John"; "Mary"]). split; [exact E|].
    split; [apply Hset|].
    pose proof (extract_siblings to_datetime set_iter siblings_text filename
                  data E) as G.
    unfold sibling_names in G. rewrite siblings_text_matches in G.
    exact G.
Qed.

Lemma siblings_field_witness :
  exists data,
    extract_fields_unlabeled ref_to_datetime ref_set_iter siblings_text
      "a.txt" = Ok data
    /\ dict_get data "Siblings" = Ok "John, Mary".
Proof.
  destruct (siblings_field ref_to_datetime ref_set_iter siblings_text "a.txt"
              set_order_ref) as [(data & E & _) _].
  exists data. split; [exact E|].
  vm_compute in E. inversion E. reflexivity.
Defined.

(** ** Numbers and dates *)

Open Scope Z_scope.

Lemma two_power_pos (k : Z) : 0 <= k -> 0 < 2 ^ k.
Proof. intros H. apply Z.pow_pos_nonneg; lia. Qed.

Lemma float_value_int (m e : Z) :
  0 <= e -> (float_value m e == inject_Z (m * 2 ^ e))%Q.
Proof.
  intros H. unfold float_value. rewrite inject_Z_mult.
  rewrite (Zpower_Qpower 2 e H). reflexivity.
Qed.

Lemma float_value_frac (m e : Z) :
  e < 0 -> (float_value m e == m # Z.to_pos (2 ^ (- e)))%Q.
Proof.
  intros H. unfold float_value.
  replace e with (- (- e)) at 1 by lia.
  rewrite Qpower_opp. rewrite <- (Zpower_Qpower 2 (- e)) by lia.
  pose proof (two_power_pos (- e) ltac:(lia)) as P.
  unfold Qeq, Qmult, Qinv, inject_Z. simpl.
  destruct (2 ^ (- e)) as [|p|p] eqn:E; try lia.
  simpl. lia.
Qed.

Lemma compare_dyadic_int_spec (m e n : Z) :
  compare_dyadic_int m e n = (float_value m e ?= inject_Z n)%Q.
Proof.
  unfold compare_dyadic_int. destruct (Z.leb_spec 0 e) as [H|H].
  - rewrite (Qcompare_comp _ _ (float_value_int m e H) _ _ (Qeq_refl _)).
    unfold Qcompare. simpl. now rewrite !Z.mul_1_r.
  - rewrite (Qcompare_comp _ _ (float_value_frac m e H) _ _ (Qeq_refl _)).
    unfold Qcompare. simpl. rewrite Z.mul_1_r.
    pose proof (two_power_pos (- e) ltac:(lia)) as P.
    rewrite Z2Pos.id by exact P. reflexivity.
Qed.

Lemma int_le_float_spec (n m e : Z) :
  int_le_float n (Ffinite m e) = true
  <-> (inject_Z n <= float_value m e)%Q.
Proof.
  unfold int_le_float. rewrite compare_dyadic_int_spec.
  rewrite Qle_alt. rewrite <- (Qcompare_antisym (float_value m e) (inject_Z n)).
  destruct (float_value m e ?= inject_Z n)%Q; simpl;
    split; intros H; try discriminate; try reflexivity; try congruence.
Qed.

Lemma float_le_int_spec (n m e : Z) :
  float_le_int (Ffinite m e) n = true
  <-> (float_value m e <= inject_Z n)%Q.
Proof.
  unfold float_le_int. rewrite compare_dyadic_int_spec.
  rewrite Qle_alt.
  destruct (float_value m e ?= inject_Z n)%Q; simpl;
    split; intros H; try discriminate; try reflexivity; try congruence.
Qed.

Lemma Qfloor_float_value (m e : Z) :
  Qfloor (float_value m e)
  = if 0 <=? e then m * 2 ^ e else m / 2 ^ (- e).
Proof.
  destruct (Z.leb_spec 0 e) as [H|H].
  - rewrite (Qfloor_comp _ _ (float_value_int m e H)). apply Qfloor_Z.
  - rewrite (Qfloor_comp _ _ (float_value_frac m e H)).
    unfold Qfloor.
    pose proof (two_power_pos (- e) ltac:(lia)) as P.
    now rewrite Z2Pos.id by exact P.
Qed.

(** Towards zero and downwards agree from zero on. *)
Lemma trunc_floor (m e : Z) :
  (0 <= float_value m e)%Q -> trunc m e = Qfloor (float_value m e).
Proof.
  intros H. rewrite Qfloor_float_value. unfold trunc.
  destruct (Z.leb_spec 0 e) as [He|He]; [reflexivity|].
  assert (Hm : 0 <= m).
  { rewrite (float_value_frac m e He) in H. unfold Qle in H. simpl in H. lia. }
  pose proof (two_power_pos (- e) ltac:(lia)) as P.
  apply Z.quot_div_nonneg; lia.
Qed.

(** ** The calendar: [ord2ymd] inverts [ymd2ord] *)

Lemma valid_dateb_spec (y m d : Z) :
  valid_dateb y m d = true <-> valid_date y m d.
Proof.
  unfold valid_dateb, valid_date. rewrite !andb_true_iff, !Z.leb_le. tauto.
Qed.

Lemma check_from_spec (count : nat) :
  forall n, check_from count n = true ->
            forall k, n <= k < n + Z.of_nat count -> cycle_ok k = true.
Proof.
  induction count as [|c IH]; intros n H k Hk.
  - simpl in Hk. lia.
  - simpl in H. destruct (cycle_ok n) eqn:E; [|discriminate].
    destruct (Z.eq_dec k n) as [->|N]; [exact E|].
    apply (IH (n + 1) H). lia.
Qed.

Lemma first_cycle : check_from (Z.to_nat 146097) 1 = true.
Proof. vm_cast_no_check (eq_refl true). Qed.

Lemma cycle_ok_all (n : Z) : 1 <= n <= 146097 -> cycle_ok n = true.
Proof.
  intros H. apply (check_from_spec _ 1 first_cycle). lia.
Qed.

Lemma is_leap_shift (y k : Z) : is_leap (y + 400 * k) = is_leap y.
Proof.
  unfold is_leap.
  replace ((y + 400 * k) mod 4) with (y mod 4)
    by (replace (400 * k) with (100 * k * 4) by ring;
        now rewrite Z.mod_add by lia).
  replace ((y + 400 * k) mod 100) with (y mod 100)
    by (replace (400 * k) with (4 * k * 100) by ring;
        now rewrite Z.mod_add by lia).
  replace ((y + 400 * k) mod 400) with (y mod 400)
    by (replace (400 * k) with (k * 400) by ring;
        now rewrite Z.mod_add by lia).
  reflexivity.
Qed.

Lemma days_before_year_shift (y k : Z) :
  days_before_year (y + 400 * k) = days_before_year y + 146097 * k.
Proof.
  unfold days_before_year. cbv zeta.
  replace (y + 400 * k - 1) with (y - 1 + 400 * k) by ring.
  replace ((y - 1 + 400 * k) / 4) with ((y - 1) / 4 + 100 * k)
    by (replace (400 * k) with (100 * k * 4) by ring;
        now rewrite Z.div_add by lia).
  replace ((y - 1 + 400 * k) / 100) with ((y - 1) / 100 + 4 * k)
    by (replace (400 * k) with (4 * k * 100) by ring;
        now rewrite Z.div_add by lia).
  replace ((y - 1 + 400 * k) / 400) with ((y - 1) / 400 + k)
    by (replace (400 * k) with (k * 400) by ring;
        now rewrite Z.div_add by lia).
  ring.
Qed.

Lemma ymd2ord_shift (y m d k : Z) :
  ymd2ord (y + 400 * k) m d = ymd2ord y m d + 146097 * k.
Proof.
  unfold ymd2ord, days_before_month.
  rewrite days_before_year_shift, is_leap_shift. ring.
Qed.

Lemma days_in_month_shift (y m k : Z) :
  days_in_month (y + 400 * k) m = days_in_month y m.
Proof. unfold days_in_month. now rewrite is_leap_shift. Qed.

Lemma ord2ymd_shift (n k : Z) :
  ord2ymd (n + 146097 * k)
  = let '(y, m, d) := ord2ymd n in (y + 400 * k, m, d).
Proof.
  unfold ord2ymd. cbv zeta.
  replace (n + 146097 * k - 1) with (n - 1 + k * 146097) by ring.
  rewrite Z.div_add, Z.mod_add by lia.
  set (r := (n - 1) mod 146097).
  set (q := (n - 1) / 146097).
  destruct ((r mod 36524 mod 1461 / 365 =? 4) || (r / 36524 =? 4)).
  - f_equal. f_equal. ring.
  - match goal with
    | |- (let '(a, b) := ?c in _) = _ => destruct c
    end.
    f_equal. f_equal. ring.
Qed.

Theorem ord2ymd_spec (n : Z) :
  1 <= n <= MAXORDINAL ->
  let '(y, m, d) := ord2ymd n in
  valid_date y m d /\ ymd2ord y m d = n.
Proof.
  unfold MAXORDINAL. intros H.
  set (k := (n - 1) / 146097).
  set (n0 := (n - 1) mod 146097 + 1).
  assert (Hn : n = n0 + 146097 * k).
  { unfold n0, k. pose proof (Z.div_mod (n - 1) 146097 ltac:(lia)). lia. }
  assert (H0 : 1 <= n0 <= 146097).
  { unfold n0. pose proof (Z.mod_pos_bound (n - 1) 146097 ltac:(lia)). lia. }
  assert (Hk : 0 <= k <= 24).
  { unfold k. split.
    - apply Z.div_pos; lia.
    - apply Z.lt_succ_r. apply Z.div_lt_upper_bound; lia. }
  pose proof (cycle_ok_all n0 H0) as C.
  rewrite Hn, ord2ymd_shift. unfold cycle_ok in C.
  destruct (ord2ymd n0) as [[y m] d].
  rewrite !andb_true_iff, orb_true_iff, !Z.leb_le, Z.ltb_lt, Z.eqb_eq in C.
  destruct C as [[[[[[[Y1 Y2] Y3] M1] M2] D1] D2] E].
  split.
  - unfold valid_date. rewrite days_in_month_shift. lia.
  - rewrite ymd2ord_shift. lia.
Qed.

Lemma epoch_ordinal : ymd2ord 1899 12 30 = 693594.
Proof. reflexivity. Qed.

Lemma serial_of_microseconds (us : Z) :
  finish (delta <- microseconds_to_delta us ;;
          converted <- date_add 1899 12 30 delta ;;
          let '(year, month, day) := converted in
          Ok (strftime_Ymd year month day))
  = serial_date (us / 1000000 / 86400).
Proof.
  unfold microseconds_to_delta, serial_date. cbv zeta.
  set (days := us / 1000000 / 86400).
  rewrite epoch_ordinal. unfold MAXORDINAL.
  destruct ((days <? - 999999999) || (999999999 <? days)) eqn:R.
  - cbn [bind finish]. rewrite orb_true_iff, !Z.ltb_lt in R.
    destruct (Z.leb_spec 1 (693594 + days));
      destruct (Z.leb_spec (693594 + days) 3652059); cbn [andb];
      try reflexivity.
    lia.
  - cbn [bind td_days]. unfold date_add. cbn [td_days].
    rewrite epoch_ordinal. unfold MAXORDINAL.
    replace (0 <? 693594 + days) with (1 <=? 693594 + days)
      by (destruct (Z.leb_spec 1 (693594 + days));
          destruct (Z.ltb_spec 0 (693594 + days)); lia || reflexivity).
    destruct ((1 <=? 693594 + days) && (693594 + days <=? 3652059));
      [|reflexivity].
    cbn [bind finish]. destruct (ord2ymd (693594 + days)) as [[y m] d].
    reflexivity.
Qed.

Lemma whole_days (days : Z) :
  days * us_per_day / 1000000 / 86400 = days.
Proof.
  unfold us_per_day. rewrite Z.div_div by lia.
  replace (days * 86400000000) with (days * (1000000 * 86400)) by ring.
  apply Z.div_mul. lia.
Qed.

Lemma timedelta_whole (m e : Z) :
  0 <= e ->
  timedelta_of_days (Ffinite m e) = microseconds_to_delta (m * 2 ^ e * us_per_day).
Proof.
  intros H. unfold timedelta_of_days, trunc, fracpart.
  destruct (Z.leb_spec 0 e); [reflexivity|lia].
Qed.

Lemma log2_lt_pow (a k : Z) : 0 < a -> a < 2 ^ k -> 0 <= k -> Z.log2 a < k.
Proof. intros Ha H Hk. apply Z.log2_lt_pow2; assumption. Qed.

Lemma float_of_int_small (n : Z) :
  Z.abs n < 2 ^ 53 -> float_of_int n = Ok (Ffinite n 0).
Proof.
  intros H. unfold float_of_int, round_binary64. cbv zeta.
  destruct (Z.eqb_spec (Z.abs n) 0) as [E|N].
  - replace n with 0 by lia. reflexivity.
  - assert (L : Z.log2 (Z.abs n) < 53) by (apply log2_lt_pow; lia).
    pose proof (Z.log2_nonneg (Z.abs n)) as L0.
    replace (Z.max (0 + (Z.log2 (Z.abs n) + 1) - 53) (-1074) - 0 <=? 0)
      with true by (symmetry; apply Z.leb_le; lia).
    replace (1024 <? Z.log2 (Z.abs n) + 1 + 0) with false
      by (symmetry; apply Z.ltb_ge; lia).
    replace (Z.sgn n * Z.abs n) with n by (destruct n; reflexivity).
    reflexivity.
Qed.

Lemma float_of_int_big (n : Z) :
  2 ^ 53 <= Z.abs n ->
  float_of_int n = Raise OverflowError
  \/ exists m e, float_of_int n = Ok (Ffinite m e) /\ 0 < e
                 /\ 2 ^ 52 <= Z.abs m.
Proof.
  intros H. unfold float_of_int, round_binary64. cbv zeta.
  set (a := Z.abs n) in *.
  destruct (Z.eqb_spec a 0) as [E|N]; [lia|].
  assert (L : 53 <= Z.log2 a) by (apply Z.log2_le_pow2; lia).
  set (sh := Z.max (0 + (Z.log2 a + 1) - 53) (-1074) - 0).
  assert (Hsh : sh = Z.log2 a - 52) by (unfold sh; lia).
  replace (sh <=? 0) with false by (symmetry; apply Z.leb_gt; lia).
  set (q := if (2 ^ (sh - 1) <? a mod 2 ^ sh)
               || (a mod 2 ^ sh =? 2 ^ (sh - 1)) && Z.odd (a / 2 ^ sh)
            then a / 2 ^ sh + 1 else a / 2 ^ sh).
  assert (Hq : 2 ^ 52 <= q).
  { assert (Q : 2 ^ 52 <= a / 2 ^ sh).
    { apply Z.div_le_lower_bound; [apply two_power_pos; lia|].
      rewrite <- Z.pow_add_r by lia. replace (sh + 52) with (Z.log2 a) by lia.
      apply Z.log2_spec. lia. }
    unfold q. destruct (_ || _); lia. }
  destruct (1024 <? Z.log2 q + 1 + (sh + 0)) eqn:O.
  - left. replace (Z.max (0 + (Z.log2 a + 1) - 53) (-1074)) with (sh + 0)
      by (unfold sh; lia).
    fold q. rewrite O. reflexivity.
  - right. exists (Z.sgn n * q), (sh + 0).
    replace (Z.max (0 + (Z.log2 a + 1) - 53) (-1074)) with (sh + 0)
      by (unfold sh; lia).
    fold q. rewrite O. split; [reflexivity|]. split; [lia|].
    rewrite Z.abs_mul.
    assert (Z.abs (Z.sgn n) = 1) by (unfold a in N; lia). nia.
Qed.

(** ** Rounding in [timedelta(days=x)] *)

Lemma us_per_day_bound : 0 < us_per_day < 2 ^ 37.
Proof. unfold us_per_day. split; [lia|]. reflexivity. Qed.

Lemma log2_bound (a k : Z) : 0 < a -> a < 2 ^ k -> 0 <= k -> Z.log2 a + 1 <= k.
Proof. intros Ha H Hk. pose proof (Z.log2_lt_pow2 a k Ha). lia. Qed.

(** The product of the fraction of a day by the microseconds of a day, in
    binary64: at most a day, and exact when it is a whole number. *)
Lemma round_product (f e : Z) :
  e < 0 -> f <> 0 -> Z.abs f < 2 ^ (- e) ->
  exists q e1,
    round_binary64 (us_per_day * f) e = Ffinite (Z.sgn f * q) e1
    /\ e1 < 0 /\ 0 <= q <= us_per_day * 2 ^ (- e1)
    /\ ((us_per_day * Z.abs f) mod 2 ^ (- e) = 0 ->
        q = us_per_day * Z.abs f / 2 ^ (- e) * 2 ^ (- e1)).
Proof.
  intros He Hf Hlt. pose proof us_per_day_bound as [U0 U1].
  unfold round_binary64. cbv zeta.
  rewrite Z.abs_mul, (Z.abs_eq us_per_day) by lia.
  set (a := us_per_day * Z.abs f).
  assert (Ha : 0 < a) by (unfold a; apply Z.mul_pos_pos; lia).
  assert (HP : 0 < 2 ^ (- e)) by (apply two_power_pos; lia).
  assert (HaP : a < us_per_day * 2 ^ (- e)) by (unfold a; nia).
  assert (Ha2 : a < 2 ^ (37 - e)).
  { replace (37 - e) with (37 + - e) by lia. rewrite Z.pow_add_r by lia. nia. }
  pose proof (log2_bound a (37 - e) Ha Ha2 ltac:(lia)) as Hdg.
  pose proof (Z.log2_nonneg a) as L0.
  assert (Hsgn : Z.sgn (us_per_day * f) = Z.sgn f).
  { rewrite Z.sgn_mul. rewrite (Z.sgn_pos us_per_day) by lia. lia. }
  rewrite Hsgn.
  destruct (Z.eqb_spec a 0) as [E|_]; [lia|].
  set (e' := Z.max (e + (Z.log2 a + 1) - 53) (-1074)).
  assert (He' : e' <= -16) by (unfold e'; lia).
  destruct (Z.leb_spec (e' - e) 0) as [Hsh|Hsh].
  - replace (1024 <? Z.log2 a + 1 + e) with false
      by (symmetry; apply Z.ltb_ge; lia).
    exists a, e. split; [reflexivity|]. split; [lia|]. split; [lia|].
    intros Hx. apply Z.div_exact in Hx; lia.
  - set (S := 2 ^ (e' - e)).
    set (P1 := 2 ^ (- e')).
    assert (HS : 0 < S) by (apply two_power_pos; lia).
    assert (HP1 : 0 < P1) by (apply two_power_pos; lia).
    assert (HPS : 2 ^ (- e) = P1 * S).
    { unfold P1, S. rewrite <- Z.pow_add_r by lia. f_equal. lia. }
    assert (Hq0 : 0 <= a / S < us_per_day * P1).
    { split; [apply Z.div_pos; lia|].
      apply Z.div_lt_upper_bound; [lia|].
      replace (S * (us_per_day * P1)) with (us_per_day * (P1 * S)) by ring.
      now rewrite <- HPS. }
    set (q := if (2 ^ (e' - e - 1) <? a mod S)
                 || (a mod S =? 2 ^ (e' - e - 1)) && Z.odd (a / S)
              then a / S + 1 else a / S).
    assert (Hq : 0 <= q <= us_per_day * P1)
      by (unfold q; destruct (_ || _); lia).
    assert (Ho : (1024 <? Z.log2 q + 1 + e') = false).
    { apply Z.ltb_ge. destruct (Z.eq_dec q 0) as [E0|Nq];
        [rewrite E0; change (Z.log2 0) with 0; lia|].
      assert (Hq2 : q < 2 ^ (38 - e')).
      { replace (38 - e') with (38 + - e') by lia.
        rewrite Z.pow_add_r by lia. fold P1.
        change (2 ^ 38) with (2 * 2 ^ 37). nia. }
      pose proof (log2_bound q (38 - e') ltac:(lia) Hq2 ltac:(lia)). lia. }
    rewrite Ho. exists q, e'. split; [reflexivity|]. split; [lia|].
    split; [exact Hq|].
    intros Hx. rewrite HPS in Hx |- *.
    apply Z.div_exact in Hx; [|lia].
    set (c := a / (P1 * S)) in *.
    assert (Hr : a mod S = 0).
    { rewrite Hx. replace (P1 * S * c) with (c * P1 * S) by ring.
      apply Z.mod_mul. lia. }
    assert (Hd : a / S = c * P1).
    { rewrite Hx. replace (P1 * S * c) with (c * P1 * S) by ring.
      apply Z.div_mul. lia. }
    assert (Hh : 0 < 2 ^ (e' - e - 1)) by (apply two_power_pos; lia).
    unfold q. rewrite Hr, Hd.
    replace (2 ^ (e' - e - 1) <? 0) with false
      by (symmetry; apply Z.ltb_ge; lia).
    replace (0 =? 2 ^ (e' - e - 1)) with false
      by (symmetry; apply Z.eqb_neq; lia).
    reflexivity.
Qed.

(** What is left below a microsecond is rounded to nothing or to one
    microsecond, away from zero. *)
Lemma round_leftover_unit (s l e1 : Z) (odd : bool) :
  e1 < 0 -> 0 < l < 2 ^ (- e1) -> s = 1 \/ s = -1 ->
  exists rho, round_leftover (s * l) e1 odd = s * rho /\ 0 <= rho <= 1.
Proof.
  intros He Hl Hs. unfold round_leftover. cbv zeta.
  set (P1 := 2 ^ (- e1)) in *.
  assert (HP1 : 0 < P1) by (apply two_power_pos; lia).
  assert (Hhalf : 2 * 2 ^ (- e1 - 1) = P1).
  { unfold P1. replace (- e1) with (1 + (- e1 - 1)) at 2 by lia.
    rewrite Z.pow_add_r by lia. reflexivity. }
  assert (Habs : Z.abs (s * l) = l) by (destruct Hs; subst; lia).
  assert (Hsg : Z.sgn (s * l) = s) by (destruct Hs; subst; lia).
  assert (R0 : exists c0, round_away (s * l) e1 = s * c0 /\ 0 <= c0 <= 1).
  { unfold round_away. destruct (Z.leb_spec 0 e1); [lia|].
    rewrite Habs, Hsg. fold P1.
    exists ((l + 2 ^ (- e1 - 1)) / P1). split; [reflexivity|].
    split; [apply Z.div_pos; lia|].
    apply Z.lt_succ_r. apply Z.div_lt_upper_bound; lia. }
  destruct (2 * Z.abs (round_away (s * l) e1 * P1 - s * l) =? P1);
    [|exact R0].
  clear R0. unfold round_away.
  destruct (Z.leb_spec 0 (e1 - 1)); [lia|].
  replace (- (e1 - 1) - 1) with (- e1) by lia.
  replace (2 ^ (- (e1 - 1))) with (2 * P1)
    by (unfold P1; replace (- (e1 - 1)) with (1 + - e1) by lia;
        rewrite Z.pow_add_r by lia; reflexivity).
  fold P1. destruct odd.
  - destruct Hs; subst s.
    + exists 1. split; [|lia].
      replace (1 * l + 1 * P1) with (l + P1) by ring.
      rewrite (Z.abs_eq (l + P1)), (Z.sgn_pos (l + P1)) by lia.
      replace ((l + P1 + P1) / (2 * P1)) with 1; [lia|].
      apply Z.div_unique with (r := l); lia.
    + exists 1. split; [|lia].
      replace (-1 * l + 1 * P1) with (P1 - l) by ring.
      rewrite (Z.abs_eq (P1 - l)), (Z.sgn_pos (P1 - l)) by lia.
      replace ((P1 - l + P1) / (2 * P1)) with 0; [lia|].
      symmetry. apply Z.div_small. lia.
  - exists 0. split; [|lia].
    replace (s * l + 0 * P1) with (s * l) by ring.
    rewrite Habs, Hsg.
    replace ((l + P1) / (2 * P1)) with 0; [lia|].
    symmetry. apply Z.div_small. lia.
Qed.

Lemma quot_rem_signed (s n P : Z) :
  s = 1 \/ s = -1 -> 0 <= n -> 0 < P ->
  Z.quot (s * n) P = s * (n / P) /\ Z.rem (s * n) P = s * (n mod P).
Proof.
  intros [-> | ->] Hn HP.
  - rewrite !Z.mul_1_l. split.
    + apply Z.quot_div_nonneg; lia.
    + apply Z.rem_mod_nonneg; lia.
  - replace (-1 * n) with (- n) by ring.
    rewrite Z.quot_opp_l, Z.rem_opp_l by lia.
    rewrite Z.quot_div_nonneg, Z.rem_mod_nonneg by lia. lia.
Qed.

Lemma timedelta_float (m e : Z) :
  exists us,
    timedelta_of_days (Ffinite m e) = microseconds_to_delta us
    /\ floor_days m e * us_per_day <= us
       <= (floor_days m e + 1) * us_per_day
    /\ (whole_microseconds m e ->
        us < (floor_days m e + 1) * us_per_day).
Proof.
  pose proof us_per_day_bound as [U0 _].
  unfold floor_days. destruct (Z.leb_spec 0 e) as [He|He].
  - exists (m * 2 ^ e * us_per_day).
    split; [now apply timedelta_whole|]. split; lia.
  - set (P := 2 ^ (- e)).
    assert (HP : 0 < P) by (apply two_power_pos; lia).
    unfold timedelta_of_days, trunc, fracpart.
    destruct (Z.leb_spec 0 e) as [?|_]; [lia|]. fold P.
    destruct (Z.eqb_spec (Z.rem m P) 0) as [Hr|Hr].
    + exists (Z.quot m P * us_per_day). split; [reflexivity|].
      assert (E : m / P = Z.quot m P).
      { pose proof (Z.quot_rem' m P) as Q. rewrite Hr in Q.
        rewrite Q at 1. replace (P * Z.quot m P + 0) with (Z.quot m P * P)
          by ring. apply Z.div_mul. lia. }
      rewrite E. split; lia.
    + assert (Hmsn : exists s n, m = s * n /\ (s = 1 \/ s = -1) /\ 0 <= n).
      { exists (Z.sgn m), (Z.abs m). split; [destruct m; reflexivity|].
        split; [|lia].
        destruct (Z.sgn_spec m) as [[? ->]|[[? ->]|[? ->]]];
          [now left| |now right].
        subst m. rewrite Z.rem_0_l in Hr; lia. }
      destruct Hmsn as (s & n & Hm & Hs & Hn).
      destruct (quot_rem_signed s n P Hs Hn HP) as [Eq Er].
      rewrite <- Hm in Eq, Er. rewrite Eq, Er in *.
      pose proof (Z.mod_pos_bound n P HP) as Hb.
      assert (Hf : 0 < n mod P) by (destruct Hs; subst s; lia).
      destruct (round_product (s * (n mod P)) e He Hr) as
        (q & e1 & ER & He1 & Hq & Hex).
      { destruct Hs; subst s; lia. }
      replace (Z.sgn (s * (n mod P))) with s in ER
        by (destruct Hs; subst s; lia).
      replace (Z.abs (s * (n mod P))) with (n mod P) in Hex
        by (destruct Hs; subst s; lia).
      rewrite ER. unfold trunc, fracpart.
      destruct (Z.leb_spec 0 e1) as [?|_]; [lia|].
      set (P1 := 2 ^ (- e1)) in *.
      assert (HP1 : 0 < P1) by (apply two_power_pos; lia).
      destruct (quot_rem_signed s q P1 Hs ltac:(lia) HP1) as [Eq1 Er1].
      rewrite Eq1, Er1.
      pose proof (Z.mod_pos_bound q P1 HP1) as Hb1.
      pose proof (Z.div_mod q P1 ltac:(lia)) as Hdm.
      assert (Hw0 : 0 <= q / P1) by (apply Z.div_pos; lia).
      assert (Hfl : m / P = if s =? 1 then n / P else - (n / P) - 1).
      { destruct Hs; subst s; cbn [Z.eqb Pos.eqb].
        - f_equal. lia.
        - replace m with (- n) by lia.
          rewrite Z.div_opp_l_nz by lia. lia. }
      (* the microseconds of the fraction, [w], are at most a day *)
      assert (Tail : exists w,
        (if s * (q mod P1) =? 0
         then microseconds_to_delta
                (s * (n / P) * us_per_day + s * (q / P1))
         else microseconds_to_delta
                (s * (n / P) * us_per_day + s * (q / P1)
                 + round_leftover (s * (q mod P1)) e1
                     (Z.odd (s * (n / P) * us_per_day + s * (q / P1)))))
        = microseconds_to_delta (s * (n / P) * us_per_day + s * w)
        /\ 0 <= w <= us_per_day
        /\ (q = us_per_day * (n mod P) / P * P1 ->
            w = us_per_day * (n mod P) / P)).
      { destruct (Z.eqb_spec (s * (q mod P1)) 0) as [Z0|NZ].
        - exists (q / P1). split; [reflexivity|]. split.
          + split; [lia|]. apply Z.div_le_upper_bound; lia.
          + intros ->. apply Z.div_mul. lia.
        - assert (Hl : 0 < q mod P1) by (destruct Hs; subst s; lia).
          destruct (round_leftover_unit s (q mod P1) e1
                      (Z.odd (s * (n / P) * us_per_day + s * (q / P1)))
                      He1 ltac:(fold P1; lia) Hs) as (rho & -> & Hrho).
          exists (q / P1 + rho). split; [f_equal; ring|]. split.
          + split; [lia|].
            assert (q / P1 < us_per_day); [|lia].
            apply Z.div_lt_upper_bound; [lia|].
            destruct (Z.eq_dec q (P1 * us_per_day)) as [Eq'|]; [|lia].
            rewrite Eq', Z.mul_comm, Z.mod_mul in Hl; lia.
          + intros Eq'. rewrite Eq', Z.mod_mul in Hl; lia. }
      destruct Tail as (w & -> & Hw & Hwx).
      eexists. split; [reflexivity|]. rewrite Hfl. split.
      * destruct Hs; subst s; cbn [Z.eqb Pos.eqb]; nia.
      * intros Hwhole. specialize (Hwhole He). fold P in Hwhole.
        assert (Hx : (us_per_day * (n mod P)) mod P = 0).
        { apply Z.mod_divide; [lia|]. apply Z.mod_divide in Hwhole; [|lia].
          destruct Hwhole as [c Hc]. rewrite Hm in Hc.
          exists (s * c - us_per_day * (n / P)).
          pose proof (Z.div_mod n P ltac:(lia)).
          destruct Hs; subst s; nia. }
        specialize (Hwx (Hex Hx)).
        assert (Hc : 0 < w < us_per_day).
        { rewrite Hwx. apply Z.div_exact in Hx; [|lia].
          set (c := us_per_day * (n mod P) / P) in *. nia. }
        destruct Hs; subst s; cbn [Z.eqb Pos.eqb]; nia.
Qed.

Section Numbers.

Variable to_datetime : string -> result datetime_or_nat.

Lemma serial_date_out (days : Z) :
  ymd2ord 1899 12 30 + days < 1 \/ MAXORDINAL < ymd2ord 1899 12 30 + days ->
  serial_date days = "Invalid Date".
Proof.
  intros H. unfold serial_date. cbv zeta.
  destruct (Z.leb_spec 1 (ymd2ord 1899 12 30 + days));
    destruct (Z.leb_spec (ymd2ord 1899 12 30 + days) MAXORDINAL);
    try reflexivity.
  lia.
Qed.

Lemma serial_date_in (days : Z) :
  1 <= ymd2ord 1899 12 30 + days <= MAXORDINAL ->
  exists year month day,
    valid_date year month day
    /\ ymd2ord year month day = ymd2ord 1899 12 30 + days
    /\ serial_date days = strftime_Ymd year month day.
Proof.
  intros H. unfold serial_date. cbv zeta.
  pose proof (ord2ymd_spec _ H) as S.
  destruct (ord2ymd (ymd2ord 1899 12 30 + days)) as [[y m] d].
  exists y, m, d. destruct S as [V E]. split; [exact V|]. split; [exact E|].
  destruct (Z.leb_spec 1 (ymd2ord 1899 12 30 + days));
    destruct (Z.leb_spec (ymd2ord 1899 12 30 + days) MAXORDINAL);
    try reflexivity; lia.
Qed.

Lemma format_date_serial (v : value) (x : float) (us : Z) :
  (forall s, v <> VStr s) ->
  int_le_value 1800 v && value_le_int v 2100 = false ->
  match v with
  | VFloat x => Ok x
  | VInt n => float_of_int n
  | VStr _ => Raise ValueError
  end = Ok x ->
  timedelta_of_days x = microseconds_to_delta us ->
  format_date to_datetime v = serial_date (us / 1000000 / 86400).
Proof.
  intros Hv Hw Hx Ht. rewrite <- serial_of_microseconds.
  unfold format_date, format_date_try, finish.
  destruct v as [n|y|s]; [| |now destruct (Hv s)];
    rewrite Hw, Hx; cbn [bind]; rewrite Ht; reflexivity.
Qed.

Lemma format_date_int_window (n : Z) :
  1800 <= n <= 2100 ->
  format_date to_datetime (VInt n) = str_of_int n ++ "-01-01".
Proof.
  intros H. unfold format_date, format_date_try. cbn [int_le_value value_le_int].
  replace (1800 <=? n) with true by (symmetry; apply Z.leb_le; lia).
  replace (n <=? 2100) with true by (symmetry; apply Z.leb_le; lia).
  reflexivity.
Qed.

Lemma format_date_float_window (m e : Z) :
  (inject_Z 1800 <= float_value m e)%Q ->
  (float_value m e <= inject_Z 2100)%Q ->
  format_date to_datetime (VFloat (Ffinite m e))
  = str_of_int (Qfloor (float_value m e)) ++ "-01-01".
Proof.
  intros H1 H2. unfold format_date, format_date_try.
  cbn [int_le_value value_le_int].
  rewrite (proj2 (int_le_float_spec 1800 m e) H1).
  rewrite (proj2 (float_le_int_spec 2100 m e) H2).
  cbn [andb int_of_float bind]. rewrite trunc_floor; [reflexivity|].
  eapply Qle_trans; [|exact H1]. discriminate.
Qed.

Lemma format_date_int_serial (n : Z) :
  ~ 1800 <= n <= 2100 ->
  format_date to_datetime (VInt n) = serial_date n.
Proof.
  intros H.
  assert (W : int_le_value 1800 (VInt n) && value_le_int (VInt n) 2100 = false).
  { cbn [int_le_value value_le_int].
    destruct (Z.leb_spec 1800 n); destruct (Z.leb_spec n 2100);
      try reflexivity; lia. }
  destruct (Z.lt_ge_cases (Z.abs n) (2 ^ 53)) as [S|B].
  - rewrite (format_date_serial (VInt n) (Ffinite n 0) (n * 2 ^ 0 * us_per_day)).
    + f_equal. rewrite Z.pow_0_r, Z.mul_1_r. apply whole_days.
    + discriminate.
    + exact W.
    + now apply float_of_int_small.
    + apply timedelta_whole. lia.
  - assert (Big : 2 ^ 52 <= Z.abs n) by (change (2 ^ 53) with (2 * 2 ^ 52) in B; lia).
    assert (Out : serial_date n = "Invalid Date").
    { apply serial_date_out. rewrite epoch_ordinal. unfold MAXORDINAL.
      change (2 ^ 52) with 4503599627370496 in Big. lia. }
    rewrite Out.
    destruct (float_of_int_big n B) as [R|(m & e & R & He & Hm)].
    + unfold format_date, format_date_try. rewrite W, R. reflexivity.
    + rewrite (format_date_serial (VInt n) (Ffinite m e) (m * 2 ^ e * us_per_day)).
      * rewrite whole_days. apply serial_date_out.
        rewrite epoch_ordinal. unfold MAXORDINAL.
        assert (1 <= 2 ^ e) by (pose proof (two_power_pos e ltac:(lia)); lia).
        change (2 ^ 52) with 4503599627370496 in Hm. nia.
      * discriminate.
      * exact W.
      * exact R.
      * apply timedelta_whole. lia.
Qed.

Lemma format_date_float_serial (m e : Z) :
  ~ (inject_Z 1800 <= float_value m e <= inject_Z 2100)%Q ->
  exists days,
    Qfloor (float_value m e) <= days <= Qfloor (float_value m e) + 1
    /\ (whole_microseconds m e -> days = Qfloor (float_value m e))
    /\ format_date to_datetime (VFloat (Ffinite m e)) = serial_date days.
Proof.
  intros H. pose proof us_per_day_bound as [U0 _].
  destruct (timedelta_float m e) as (us & Ht & Hb & Hx).
  rewrite Qfloor_float_value. unfold floor_days in Hb, Hx.
  set (fl := if 0 <=? e then m * 2 ^ e else m / 2 ^ (- e)) in *.
  exists (us / us_per_day). split; [|split].
  - split.
    + apply Z.div_le_lower_bound; lia.
    + apply Z.lt_succ_r. apply Z.div_lt_upper_bound; lia.
  - intros Hw. specialize (Hx Hw). symmetry.
    apply Z.div_unique with (r := us - fl * us_per_day); lia.
  - rewrite (format_date_serial (VFloat (Ffinite m e)) (Ffinite m e) us).
    + f_equal. rewrite Z.div_div by lia. reflexivity.
    + discriminate.
    + cbn [int_le_value value_le_int].
      destruct (int_le_float 1800 (Ffinite m e)) eqn:E1; [|reflexivity].
      destruct (float_le_int (Ffinite m e) 2100) eqn:E2; [|reflexivity].
      apply int_le_float_spec in E1. apply float_le_int_spec in E2.
      exfalso. apply H. now split.
    + reflexivity.
    + exact Ht.
Qed.

Lemma format_date_not_finite :
  format_date to_datetime (VFloat Fnan) = "Invalid Date"
  /\ forall negative,
       format_date to_datetime (VFloat (Finf negative)) = "Invalid Date".
Proof. split; [reflexivity|]. intros []; reflexivity. Qed.

End Numbers.

(** ** Printing and reading decimal digits *)

Lemma decimals_In (v : Z) : 0 <= v <= 9 -> In v decimals.
Proof.
  intros H. unfold decimals.
  assert (C : v = 0 \/ v = 1 \/ v = 2 \/ v = 3 \/ v = 4 \/ v = 5 \/ v = 6
              \/ v = 7 \/ v = 8 \/ v = 9) by lia.
  simpl. intuition.
Qed.

Lemma digit_val_spec (c : ascii) (v : Z) :
  digit_val c = Some v -> 0 <= v <= 9 /\ c = chr v.
Proof.
  unfold digit_val, isdigit, in_range, chr, code.
  destruct (_ && _) eqn:E; [|discriminate].
  intros H. inversion H; subst v. clear H.
  apply andb_true_iff in E. destruct E as [E1 E2].
  apply N.leb_le in E1, E2.
  change (N_of_ascii "0") with 48%N in E1.
  change (N_of_ascii "9") with 57%N in E2.
  split; [lia|].
  replace (48 + (Z.of_N (N_of_ascii c) - 48)) with (Z.of_N (N_of_ascii c))
    by ring.
  rewrite N2Z.id. symmetry. apply ascii_N_embedding.
Qed.

Lemma four_check :
  forallb (fun a => forallb (fun b => forallb (fun c => forallb (fun d =>
    four_ok a b c d) decimals) decimals) decimals) decimals = true.
Proof. vm_cast_no_check (eq_refl true). Qed.

Lemma two_check :
  forallb (fun a => forallb (fun b => two_ok a b) decimals) decimals = true.
Proof. vm_cast_no_check (eq_refl true). Qed.

Lemma four_digits (a b c d : Z) :
  0 <= a <= 9 -> 0 <= b <= 9 -> 0 <= c <= 9 -> 0 <= d <= 9 ->
  zfill 4 (str_of_int (10 * (10 * (10 * (10 * 0 + a) + b) + c) + d))
  = String (chr a) (String (chr b) (String (chr c)
      (String (chr d) EmptyString))).
Proof.
  intros Ha Hb Hc Hd. apply String.eqb_eq.
  pose proof four_check as F.
  rewrite forallb_forall in F. specialize (F a (decimals_In a Ha)).
  rewrite forallb_forall in F. specialize (F b (decimals_In b Hb)).
  rewrite forallb_forall in F. specialize (F c (decimals_In c Hc)).
  rewrite forallb_forall in F. exact (F d (decimals_In d Hd)).
Qed.

Lemma two_digits (a b : Z) :
  0 <= a <= 9 -> 0 <= b <= 9 ->
  zfill 2 (str_of_int (10 * (10 * 0 + a) + b))
  = String (chr a) (String (chr b) EmptyString).
Proof.
  intros Ha Hb. apply String.eqb_eq.
  pose proof two_check as F.
  rewrite forallb_forall in F. specialize (F a (decimals_In a Ha)).
  rewrite forallb_forall in F. exact (F b (decimals_In b Hb)).
Qed.

Lemma number_four (c1 c2 c3 c4 : ascii) (n : Z) :
  number [c1; c2; c3; c4] = Some n ->
  zfill 4 (str_of_int n)
  = String c1 (String c2 (String c3 (String c4 EmptyString))).
Proof.
  unfold number. cbn [fold_left].
  destruct (digit_val c1) as [a|] eqn:E1;
    [|destruct (digit_val c2), (digit_val c3), (digit_val c4); discriminate].
  destruct (digit_val c2) as [b|] eqn:E2;
    [|destruct (digit_val c3), (digit_val c4); discriminate].
  destruct (digit_val c3) as [c|] eqn:E3;
    [|destruct (digit_val c4); discriminate].
  destruct (digit_val c4) as [d|] eqn:E4; [|discriminate].
  intros H. inversion H; subst n. clear H.
  apply digit_val_spec in E1, E2, E3, E4.
  destruct E1 as [? ->], E2 as [? ->], E3 as [? ->], E4 as [? ->].
  now apply four_digits.
Qed.

Lemma number_two (c1 c2 : ascii) (n : Z) :
  number [c1; c2] = Some n ->
  zfill 2 (str_of_int n) = String c1 (String c2 EmptyString).
Proof.
  unfold number. cbn [fold_left].
  destruct (digit_val c1) as [a|] eqn:E1;
    [|destruct (digit_val c2); discriminate].
  destruct (digit_val c2) as [b|] eqn:E2; [|discriminate].
  intros H. inversion H; subst n. clear H.
  apply digit_val_spec in E1, E2.
  destruct E1 as [? ->], E2 as [? ->].
  now apply two_digits.
Qed.

(** An ISO date is printed back as it was read. *)
Lemma parse_iso_print (s : string) (year month day : Z) :
  parse_iso s = Some (year, month, day) ->
  valid_date year month day /\ strftime_Ymd year month day = s.
Proof.
  unfold parse_iso.
  destruct s as [|y1 [|y2 [|y3 [|y4 [|h1 [|m1 [|m2 [|h2 [|d1 [|d2 [|]]]]]]]]]]];
    try discriminate.
  destruct (Ascii.eqb_spec h1 "-") as [->|]; [|discriminate].
  destruct (Ascii.eqb_spec h2 "-") as [->|]; [|discriminate].
  cbn [andb].
  destruct (number [y1; y2; y3; y4]) as [y|] eqn:EY; [|discriminate].
  destruct (number [m1; m2]) as [m|] eqn:EM; [|discriminate].
  destruct (number [d1; d2]) as [d|] eqn:ED; [|discriminate].
  destruct (valid_dateb y m d) eqn:V; [|discriminate].
  intros H. inversion H; subst. clear H.
  split; [now apply valid_dateb_spec|].
  unfold strftime_Ymd.
  rewrite (number_four _ _ _ _ _ EY), (number_two _ _ _ EM),
    (number_two _ _ _ ED).
  reflexivity.
Qed.

Lemma year_check :
  forallb year_ok (map (fun k => 1800 + Z.of_nat k) (seq 0 301)) = true.
Proof. vm_cast_no_check (eq_refl true). Qed.

Lemma year_string (n : Z) :
  1800 <= n <= 2100 -> str_of_int n ++ "-01-01" = strftime_Ymd n 1 1.
Proof.
  intros H. apply String.eqb_eq. pose proof year_check as F.
  rewrite forallb_forall in F. apply F.
  apply in_map_iff. exists (Z.to_nat (n - 1800)). split; [lia|].
  apply in_seq. lia.
Qed.

Lemma Qfloor_window (q : Q) :
  (inject_Z 1800 <= q)%Q -> (q <= inject_Z 2100)%Q ->
  1800 <= Qfloor q <= 2100.
Proof.
  intros H1 H2. split.
  - rewrite <- (Qfloor_Z 1800). now apply Qfloor_resp_le.
  - rewrite <- (Qfloor_Z 2100). now apply Qfloor_resp_le.
Qed.

Section Dates.

Variable to_datetime : string -> result datetime_or_nat.

Lemma serial_date_shape (days : Z) :
  serial_date days = "Invalid Date"
  \/ exists year month day, serial_date days = strftime_Ymd year month day.
Proof.
  destruct (Z.lt_ge_cases (ymd2ord 1899 12 30 + days) 1) as [L|L].
  - left. apply serial_date_out. now left.
  - destruct (Z.lt_ge_cases MAXORDINAL (ymd2ord 1899 12 30 + days)) as [G|G].
    + left. apply serial_date_out. now right.
    + right. destruct (serial_date_in days ltac:(lia)) as (y & m & d & _ & _ & E).
      now exists y, m, d.
Qed.

Lemma format_date_shape (v : value) :
  format_date to_datetime v = "Invalid Date"
  \/ exists year month day,
       format_date to_datetime v = strftime_Ymd year month day.
Proof.
  destruct v as [n|[| |m e]|s].
  - destruct (Z.le_gt_cases 1800 n) as [L|L];
      [destruct (Z.le_gt_cases n 2100) as [G|G]|].
    + right. exists n, 1, 1.
      rewrite format_date_int_window by lia. apply year_string. lia.
    + rewrite format_date_int_serial by lia. apply serial_date_shape.
    + rewrite format_date_int_serial by lia. apply serial_date_shape.
  - now left.
  - left. now destruct negative.
  - destruct (Qlt_le_dec (float_value m e) (inject_Z 1800)) as [L|L];
      [|destruct (Qlt_le_dec (inject_Z 2100) (float_value m e)) as [G|G]].
    + destruct (format_date_float_serial to_datetime m e) as (D & _ & _ & ->).
      { intros [H _]. apply (Qlt_not_le _ _ L H). }
      apply serial_date_shape.
    + destruct (format_date_float_serial to_datetime m e) as (D & _ & _ & ->).
      { intros [_ H]. apply (Qlt_not_le _ _ G H). }
      apply serial_date_shape.
    + right. exists (Qfloor (float_value m e)), 1, 1.
      rewrite format_date_float_window by assumption.
      apply year_string. now apply Qfloor_window.
  - unfold format_date, format_date_try.
    destruct (to_datetime s) as [[y m d|]|e]; cbn [bind].
    + right. now exists y, m, d.
    + now left.
    + now left.
Qed.

End Dates.

(** ** A formatted date is not the sentinel *)

Lemma str_of_int_starts (n : Z) : starts_numeric (str_of_int n).
Proof.
  unfold str_of_int, DecimalString.NilZero.string_of_int,
    DecimalString.NilZero.string_of_uint.
  destruct (Z.to_int n) as [u|u]; destruct u; simpl; discriminate.
Qed.

Lemma zfill_starts (width : nat) (s : string) :
  starts_numeric s -> starts_numeric (zfill width s).
Proof.
  intros H. unfold zfill.
  destruct (width - String.length s)%nat as [|k]; [exact H|].
  cbn [repeat String.concat]. destruct (repeat "0" k); simpl; discriminate.
Qed.

Lemma append_starts (s t : string) :
  starts_numeric s -> starts_numeric (s ++ t).
Proof. destruct s; simpl; [contradiction|auto]. Qed.

Lemma strftime_not_invalid (year month day : Z) :
  strftime_Ymd year month day <> "Invalid Date".
Proof.
  intros E.
  assert (S : starts_numeric (strftime_Ymd year month day)).
  { unfold strftime_Ymd. apply append_starts, zfill_starts, str_of_int_starts. }
  rewrite E in S. now apply S.
Qed.




(** C10.  A float [v] with [1800 <= v <= 2100], whole or not, gives the
    year [floor v] followed by "-01-01" (1925.9 gives "1925-01-01"); a
    float above 2100 goes through the count of days instead (2100.5 gives
    the date 2100 days after 1899-12-30, "1905-09-30"). *)
Theorem format_date_fractional
    (to_datetime : string -> result datetime_or_nat) :
  (forall m e,
     (inject_Z 1800 <= float_value m e)%Q ->
     (float_value m e <= inject_Z 2100)%Q ->
     format_date to_datetime (VFloat (Ffinite m e))
     = str_of_int (Qfloor (float_value m e)) ++ "-01-01"
     /\ 1800 <= Qfloor (float_value m e) <= 2100)
  /\ format_date to_datetime (VFloat (Ffinite 4235098887867597 (-41)))
     = "1925-01-01"
  /\ (forall m e,
        (inject_Z 2100 < float_value m e)%Q ->
        exists days,
          Qfloor (float_value m e) <= days <= Qfloor (float_value m e) + 1
          /\ (whole_microseconds m e -> days = Qfloor (float_value m e))
          /\ format_date to_datetime (VFloat (Ffinite m e))
             = serial_date days)
  /\ format_date to_datetime (VFloat (Ffinite 4201 (-1))) = "1905-09-30".
Proof.
  split; [|split; [reflexivity|split; [|reflexivity]]].
  - intros m e H1 H2. split.
    + now apply format_date_float_window.
    + now apply Qfloor_window.
  - intros m e H. apply format_date_float_serial.
    intros [_ H2]. apply (Qlt_not_le _ _ H H2).
Qed.

Lemma format_date_fractional_witness :
  format_date ref_to_datetime (VFloat (Ffinite 4235098887867597 (-41)))
  = str_of_int (Qfloor (float_value 4235098887867597 (-41))) ++ "-01-01"
  /\ 1800 <= Qfloor (float_value 4235098887867597 (-41)) <= 2100.
Proof.
  apply (proj1 (format_date_fractional ref_to_datetime)
           4235098887867597 (-41)); discriminate.
Defined.





(** * Further properties *)

Close Scope Z_scope.
Open Scope string_scope.

(** ** The extractor in closed form *)

Lemma set_group1_apply (data : dict) (field : string) (r : regex)
    (text : string) (fl : flags) :
  sets r 1 = true ->
  set_group1 data field (re_search r text fl)
  = Ok (apply_rule field r fl text data).
Proof.
  intros Hs. unfold set_group1, apply_rule.
  destruct (re_search r text fl) as [m|] eqn:E; [|reflexivity].
  destruct (group_search fl r text m 1 E Hs) as [g Hg]. now rewrite Hg.
Qed.

Lemma extract_closed
    (to_datetime : string -> result datetime_or_nat)
    (set_iter : list string -> list string) (text filename : string) :
  extract_fields_unlabeled to_datetime set_iter text filename
  = format_date_fields to_datetime date_fields
      (dict_set (rules_record set_iter text) "Sources" filename).
Proof.
  unfold extract_fields_unlabeled. rewrite dict_from_keys_required.
  repeat (rewrite set_group1_apply by reflexivity; cbn [bind]).
  reflexivity.
Qed.

Lemma dict_get_keys (d : dict) (k v : string) :
  dict_get d k = Ok v -> In k (keys d).
Proof.
  induction d as [|[k' v'] d IH]; simpl; [discriminate|].
  destruct (String.eqb_spec k' k) as [->|N]; [now left|].
  intros H. right. now apply IH.
Qed.

Lemma apply_rule_keys (field : string) r fl text (data : dict) :
  In field (keys data) -> keys (apply_rule field r fl text data) = keys data.
Proof.
  intros H. unfold apply_rule.
  destruct (re_search r text fl); [|reflexivity].
  destruct (group _ 1); [|reflexivity]. now apply keys_dict_set.
Qed.

Lemma apply_rule_other (field k : string) r fl text (data : dict) :
  field <> k ->
  dict_get (apply_rule field r fl text data) k = dict_get data k.
Proof.
  intros N. unfold apply_rule.
  destruct (re_search r text fl); [|reflexivity].
  destruct (group _ 1); [|reflexivity]. now apply dict_get_set_other.
Qed.

Lemma apply_rule_same (field : string) r fl text (data : dict) :
  sets r 1 = true -> dict_get data field = Ok "N/A" ->
  dict_get (apply_rule field r fl text data) field
  = Ok (rule_value r fl text).
Proof.
  intros Hs Hd. unfold apply_rule, rule_value.
  destruct (re_search r text fl) as [m|] eqn:E; [|exact Hd].
  destruct (group_search fl r text m 1 E Hs) as [g Hg]. rewrite Hg.
  apply dict_get_set_same.
Qed.

Lemma siblings_step_other set_iter text (data : dict) (k : string) :
  "Siblings" <> k ->
  dict_get (siblings_step set_iter text data) k = dict_get data k.
Proof.
  intros N. unfold siblings_step.
  destruct (re_findall _ _ _ _); [reflexivity|].
  now apply dict_get_set_other.
Qed.

Lemma locations_step_other set_iter text (data : dict) (k : string) :
  "Geographical Locations" <> k ->
  dict_get (locations_step set_iter text data) k = dict_get data k.
Proof.
  intros N. unfold locations_step.
  destruct (locations_found text); [reflexivity|].
  now apply dict_get_set_other.
Qed.

Lemma siblings_step_keys set_iter text (data : dict) :
  In "Siblings" (keys data) ->
  keys (siblings_step set_iter text data) = keys data.
Proof.
  intros H. unfold siblings_step.
  destruct (re_findall _ _ _ _); [reflexivity|]. now apply keys_dict_set.
Qed.

Lemma locations_step_keys set_iter text (data : dict) :
  In "Geographical Locations" (keys data) ->
  keys (locations_step set_iter text data) = keys data.
Proof.
  intros H. unfold locations_step.
  destruct (locations_found text); [reflexivity|]. now apply keys_dict_set.
Qed.

Ltac schema_key := simpl; tauto.

Lemma rules_record_keys set_iter text :
  keys (rules_record set_iter text) = required_fields.
Proof.
  unfold rules_record.
  rewrite locations_step_keys;
    repeat (rewrite apply_rule_keys || rewrite siblings_step_keys);
    try reflexivity;
    repeat (rewrite apply_rule_keys || rewrite siblings_step_keys);
    try (rewrite keys_initial; schema_key).
Qed.

Ltac peel :=
  repeat first
    [ rewrite locations_step_other by discriminate
    | rewrite siblings_step_other by discriminate
    | rewrite apply_rule_other by discriminate ].

Ltac rule_get :=
  unfold rules_record; peel;
  apply apply_rule_same; [reflexivity|]; peel; reflexivity.

Lemma rules_record_date_int set_iter text :
  dict_get (rules_record set_iter text) "Date of Interview"
  = Ok (rule_value date_int_pattern ignorecase_dotall text).
Proof. rule_get. Qed.

Lemma rules_record_name set_iter text :
  dict_get (rules_record set_iter text) "Name"
  = Ok (rule_value name_pattern ignorecase text).
Proof. rule_get. Qed.

Lemma rules_record_dob set_iter text :
  dict_get (rules_record set_iter text) "Date of Birth"
  = Ok (rule_value dob_pattern ignorecase text).
Proof. rule_get. Qed.

Lemma rules_record_pob set_iter text :
  dict_get (rules_record set_iter text) "Place of Birth"
  = Ok (rule_value pob_pattern ignorecase text).
Proof. rule_get. Qed.

Lemma rules_record_church set_iter text :
  dict_get (rules_record set_iter text) "Church Affiliation"
  = Ok (rule_value church_pattern ignorecase text).
Proof. rule_get. Qed.

Lemma rules_record_employer set_iter text :
  dict_get (rules_record set_iter text) "Employer"
  = Ok (rule_value employer_pattern ignorecase text).
Proof. rule_get. Qed.

Lemma rules_record_education set_iter text :
  dict_get (rules_record set_iter text) "Schools Attended"
  = Ok (rule_value education_pattern ignorecase text).
Proof. rule_get. Qed.

Lemma rules_record_unruled set_iter text (k : string) :
  existsb (String.eqb k) rule_fields = false ->
  dict_get (rules_record set_iter text) k = dict_get initial k.
Proof.
  intros H. apply existsb_eqb_false in H.
  assert (N : forall f, In f rule_fields -> f <> k)
    by (intros f Hf ->; contradiction).
  unfold rules_record.
  rewrite locations_step_other by (apply N; schema_key).
  rewrite !apply_rule_other by (apply N; schema_key).
  rewrite siblings_step_other by (apply N; schema_key).
  rewrite !apply_rule_other by (apply N; schema_key).
  reflexivity.
Qed.

(** ** The closing loop *)

Section ClosingLoop.

Variable to_datetime : string -> result datetime_or_nat.

Lemma format_date_fields_get (fields : list string) :
  forall data,
    NoDup fields ->
    (forall f, In f fields -> exists v, dict_get data f = Ok v) ->
    exists data',
      format_date_fields to_datetime fields data = Ok data'
      /\ keys data' = keys data
      /\ forall k,
           dict_get data' k
           = if existsb (String.eqb k) fields
             then v <- dict_get data k ;; Ok (normalised to_datetime v)
             else dict_get data k.
Proof.
  induction fields as [|f fields IH]; intros data Hnd Hex.
  - exists data. repeat split; reflexivity.
  - inversion Hnd as [|? ? Hnot Hnd']; subst.
    destruct (Hex f (or_introl eq_refl)) as [v Hv].
    cbn [format_date_fields]. rewrite Hv. cbn [bind].
    change (existsb (String.eqb v) ["N/A"; ""; "Invalid Date"])
      with (is_sentinel v).
    destruct (is_sentinel v) eqn:Sv.
    + destruct (IH data Hnd') as (data' & E & HK & G).
      { intros f' Hf'. apply Hex. now right. }
      exists data'. split; [exact E|]. split; [exact HK|].
      intros k. rewrite G. cbn [existsb].
      destruct (String.eqb_spec k f) as [->|N]; [|reflexivity].
      apply existsb_eqb_false in Hnot as Hf. rewrite Hf, Hv. cbn [bind].
      unfold normalised. now rewrite Sv.
    + destruct (IH (dict_set data f (format_date to_datetime (VStr v))) Hnd')
        as (data' & E & HK & G).
      { intros f' Hf'. destruct (Hex f' (or_intror Hf')) as [v' Hv'].
        exists v'. rewrite dict_get_set_other; [exact Hv'|].
        intros ->. contradiction. }
      exists data'. split; [exact E|]. split.
      { rewrite HK. apply keys_dict_set. eapply dict_get_keys; eauto. }
      intros k. rewrite G. cbn [existsb].
      destruct (String.eqb_spec k f) as [->|N].
      * assert (Hf : existsb (String.eqb f) fields = false)
          by (now apply existsb_eqb_false).
        rewrite Hf, Hv, dict_get_set_same. cbn [bind orb].
        unfold normalised. now rewrite Sv.
      * cbn [orb]. rewrite dict_get_set_other by congruence. reflexivity.
Qed.

End ClosingLoop.

Lemma date_fields_NoDup : NoDup date_fields.
Proof.
  unfold date_fields.
  repeat (constructor;
          [simpl; intros H;
           repeat (destruct H as [H|H]; [discriminate H|]); exact H|]).
  constructor.
Qed.

(** Every field of the record returned, in terms of the rules. *)
Lemma extract_get
    (to_datetime : string -> result datetime_or_nat)
    (set_iter : list string -> list string) (text filename : string) :
  exists data,
    extract_fields_unlabeled to_datetime set_iter text filename = Ok data
    /\ keys data = required_fields
    /\ forall k,
         dict_get data k
         = if String.eqb k "Sources" then Ok filename
           else if existsb (String.eqb k) date_fields
                then v <- dict_get (rules_record set_iter text) k ;;
                     Ok (normalised to_datetime v)
                else dict_get (rules_record set_iter text) k.
Proof.
  rewrite extract_closed.
  set (d := dict_set (rules_record set_iter text) "Sources" filename).
  assert (HK : keys d = required_fields).
  { unfold d. rewrite keys_dict_set; [apply rules_record_keys|].
    rewrite rules_record_keys. schema_key. }
  destruct (format_date_fields_get to_datetime date_fields d date_fields_NoDup)
    as (data & E & HK' & G).
  { intros f Hf. apply dict_get_in_keys. rewrite HK.
    simpl in Hf. destruct Hf as [<-|[<-|[<-|[<-|[]]]]]; schema_key. }
  exists data. split; [exact E|]. split; [congruence|].
  intros k. rewrite G. unfold d.
  destruct (String.eqb_spec k "Sources") as [->|N].
  - cbn. apply dict_get_set_same.
  - rewrite dict_get_set_other by congruence. reflexivity.
Qed.

(** ** Strings: prefixes, case, white space *)

Lemma take_skip (n : nat) (s : string) : take n s ++ skip n s = s.
Proof.
  revert s. induction n as [|n IH]; intros [|a s]; simpl; try reflexivity.
  now rewrite IH.
Qed.

Lemma length_append (s t : string) :
  String.length (s ++ t) = String.length s + String.length t.
Proof. induction s as [|a s IH]; simpl; [reflexivity|now rewrite IH]. Qed.

Lemma length_take (n : nat) (s : string) :
  n <= String.length s -> String.length (take n s) = n.
Proof.
  revert s. induction n as [|n IH]; intros [|a s] H; simpl in *; try lia.
  rewrite IH; lia.
Qed.

Lemma length_skip (n : nat) (s : string) :
  String.length (skip n s) = String.length s - n.
Proof.
  revert s. induction n as [|n IH]; intros [|a s]; simpl; try lia.
  apply IH.
Qed.

Lemma lower_str_length (s : string) :
  String.length (lower_str s) = String.length s.
Proof. induction s as [|a s IH]; simpl; [reflexivity|now rewrite IH]. Qed.

Lemma lower_str_append (s t : string) :
  lower_str (s ++ t) = lower_str s ++ lower_str t.
Proof. induction s as [|a s IH]; simpl; [reflexivity|now rewrite IH]. Qed.

Lemma ci_prefix_length (w s : string) :
  ci_prefix w s = true -> String.length w <= String.length s.
Proof.
  revert s. induction w as [|x w IH]; intros [|a s]; cbn [ci_prefix String.length].
  - intros _. lia.
  - intros _. lia.
  - discriminate.
  - rewrite andb_true_iff. intros [_ H]. apply IH in H. lia.
Qed.

Lemma ci_prefix_take (w s : string) :
  ci_prefix w s = true ->
  lower_str (take (String.length w) s) = lower_str w.
Proof.
  revert s. induction w as [|x w IH]; intros [|a s]; simpl; try reflexivity.
  - discriminate.
  - rewrite andb_true_iff, Ascii.eqb_eq. intros [E H].
    now rewrite (IH s H), E.
Qed.

Lemma take_take_length (n : nat) (s : string) :
  n <= String.length s ->
  take (String.length s - String.length (skip n s)) s = take n s.
Proof. intros H. rewrite length_skip. f_equal. lia. Qed.

Lemma isspace_lower (c : ascii) : isspace (lower c) = isspace c.
Proof. destruct c as [[] [] [] [] [] [] [] []]; reflexivity. Qed.

Lemma lstrip_lower (s : string) : lstrip (lower_str s) = lower_str (lstrip s).
Proof.
  induction s as [|a s IH]; simpl; [reflexivity|].
  rewrite isspace_lower. destruct (isspace a); [exact IH|reflexivity].
Qed.

Lemma rstrip_lower (s : string) : rstrip (lower_str s) = lower_str (rstrip s).
Proof.
  induction s as [|a s IH]; simpl; [reflexivity|].
  rewrite IH, isspace_lower.
  destruct (rstrip s); simpl; [destruct (isspace a)|]; reflexivity.
Qed.

Lemma strip_lower (s : string) : strip (lower_str s) = lower_str (strip s).
Proof. unfold strip. now rewrite lstrip_lower, rstrip_lower. Qed.

Lemma lstrip_suffix (s : string) : exists a, s = a ++ lstrip s.
Proof.
  induction s as [|c s [a IH]]; simpl.
  - now exists "".
  - destruct (isspace c).
    + exists (String c a). simpl. now rewrite <- IH.
    + now exists "".
Qed.

Lemma rstrip_prefix (s : string) : exists b, s = rstrip s ++ b.
Proof.
  induction s as [|c s [b IH]]; simpl.
  - now exists "".
  - destruct (rstrip s) as [|c' t] eqn:R.
    + destruct (isspace c).
      * exists (String c s). reflexivity.
      * exists s. reflexivity.
    + exists b. simpl. simpl in IH. now rewrite <- IH.
Qed.

(** [strip] keeps a piece of the string. *)
Lemma strip_substring (s : string) : exists a b, s = a ++ strip s ++ b.
Proof.
  unfold strip. destruct (lstrip_suffix s) as [a Ha].
  destruct (rstrip_prefix (lstrip s)) as [b Hb].
  exists a, b. now rewrite <- Hb.
Qed.

Lemma append_assoc (a b c : string) : (a ++ b) ++ c = a ++ (b ++ c).
Proof. induction a as [|x a IH]; simpl; [reflexivity|now rewrite IH]. Qed.

Lemma substring_trans (text g v : string) :
  (exists pre post, text = pre ++ g ++ post) ->
  (exists a b, g = a ++ v ++ b) ->
  exists pre post, text = pre ++ v ++ post.
Proof.
  intros (pre & post & ->) (a & b & ->).
  exists (pre ++ a), (b ++ post). now rewrite !append_assoc.
Qed.

(** ** Rules that look for fixed words *)

Lemma rmatch_literal_then (A : Type) (w : string) (r : regex) :
  forall s c (k : string -> captures -> option A),
    rmatch ignorecase (literal_then w r) s c k
    = if ci_prefix w s
      then rmatch ignorecase r (skip (String.length w) s) c k
      else None.
Proof.
  induction w as [|x w IH]; intros s c k.
  - reflexivity.
  - cbn [literal_then rmatch]. destruct s as [|a s]; [reflexivity|].
    unfold step, lit_matches. simpl IGNORECASE. cbv iota.
    cbn [ci_prefix String.length skip].
    destruct (Ascii.eqb (lower x) (lower a)); [|reflexivity].
    apply IH.
Qed.

Lemma find_ci_occurs (w s : string) : find_ci w s = None <-> ~ occurs_ci w s.
Proof.
  rewrite <- occurs_b_spec. rewrite not_true_iff_false.
  induction s as [|a s IH]; simpl.
  - destruct (ci_prefix w ""); simpl; split; congruence.
  - destruct (ci_prefix w (String a s)); simpl; [split; congruence|exact IH].
Qed.

Lemma find_ci_found (w s g : string) :
  find_ci w s = Some g ->
  lower_str g = lower_str w /\ exists pre post, s = pre ++ g ++ post.
Proof.
  induction s as [|a s IH]; simpl.
  - destruct (ci_prefix w "") eqn:P; [|discriminate].
    intros H. inversion H; subst. split; [now apply ci_prefix_take|].
    exists "", (skip (String.length w) ""). simpl. now rewrite take_skip.
  - destruct (ci_prefix w (String a s)) eqn:P.
    + intros H. inversion H; subst. split; [now apply ci_prefix_take|].
      exists "", (skip (String.length w) (String a s)).
      cbn [append]. now rewrite take_skip.
    + intros H. destruct (IH H) as [L (pre & post & E)].
      split; [exact L|]. exists (String a pre), post. simpl. now rewrite E.
Qed.

Lemma search_group_literal (w s : string) :
  forall pos,
    match search_from ignorecase (Group 1 (literal w)) s pos with
    | Some m => exists g, group m 1 = Ok g /\ find_ci w s = Some g
    | None => find_ci w s = None
    end.
Proof.
  assert (At : forall s pos,
    match_at ignorecase (Group 1 (literal w)) s pos
    = if ci_prefix w s
      then Some {| m_start := pos;
                   m_end := pos + (String.length s
                                   - String.length (skip (String.length w) s));
                   m_groups := [(1, take (String.length w) s)];
                   m_rest := skip (String.length w) s |}
      else None).
  { intros s0 pos. unfold match_at. cbn [rmatch]. rewrite rmatch_literal.
    destruct (ci_prefix w s0) eqn:P; [|reflexivity].
    rewrite take_take_length by (now apply ci_prefix_length). reflexivity. }
  induction s as [|a s IH]; intros pos; cbn [search_from find_ci];
    rewrite At.
  - destruct (ci_prefix w ""); [|reflexivity].
    eexists. split; reflexivity.
  - destruct (ci_prefix w (String a s)); [|apply IH].
    eexists. split; reflexivity.
Qed.

Lemma rule_value_literal (w text : string) :
  rule_value (Group 1 (literal w)) ignorecase text
  = match find_ci w text with
    | Some g => strip g
    | None => "N/A"
    end.
Proof.
  unfold rule_value, re_search.
  pose proof (search_group_literal w text 0) as H.
  destruct (search_from ignorecase (Group 1 (literal w)) text 0) as [m|].
  - destruct H as (g & Hg & Hf). now rewrite Hg, Hf.
  - now rewrite H.
Qed.

(** A rule that looks for the word [w]: its field is ["N/A"] when [w] does
    not occur, and otherwise a piece of the text that reads [w] when case
    is not counted. *)
Lemma literal_rule (w text : string) :
  strip (lower_str w) = lower_str w ->
  (~ occurs_ci w text
   /\ rule_value (Group 1 (literal w)) ignorecase text = "N/A")
  \/ (occurs_ci w text
      /\ lower_str (rule_value (Group 1 (literal w)) ignorecase text)
         = lower_str w
      /\ exists pre post,
           text = pre ++ rule_value (Group 1 (literal w)) ignorecase text
                      ++ post).
Proof.
  intros Hw. rewrite rule_value_literal.
  destruct (find_ci w text) as [g|] eqn:F.
  - right. destruct (find_ci_found w text g F) as [L S]. split; [|split].
    + destruct (occurs_b w text) eqn:O; [now apply occurs_b_spec|].
      assert (N : find_ci w text = None).
      { apply find_ci_occurs. rewrite <- occurs_b_spec. congruence. }
      congruence.
    + now rewrite <- strip_lower, L.
    + eapply substring_trans; [exact S|apply strip_substring].
  - left. split; [now apply find_ci_occurs|reflexivity].
Qed.

(** ** A word with an optional second word *)

Lemma skip_skip (n m : nat) (s : string) : skip m (skip n s) = skip (n + m) s.
Proof.
  revert s. induction n as [|n IH]; intros s.
  - reflexivity.
  - destruct s as [|a s]; [destruct m; reflexivity|]. simpl. apply IH.
Qed.

Lemma ci_prefix_append (w1 w2 s : string) :
  ci_prefix (w1 ++ w2) s
  = ci_prefix w1 s && ci_prefix w2 (skip (String.length w1) s).
Proof.
  revert s. induction w1 as [|x w1 IH]; intros s.
  - reflexivity.
  - destruct s as [|a s]; [reflexivity|]. cbn [append ci_prefix String.length skip].
    rewrite IH. now rewrite andb_assoc.
Qed.

Lemma rmatch_opt_literal (A : Type) (w : string) :
  w <> "" ->
  forall s c (k : string -> captures -> option A),
    rmatch ignorecase (Rep true 0 (Some 1) (literal w)) s c k
    = if ci_prefix w s
      then match k (skip (String.length w) s) c with
           | Some a => Some a
           | None => k s c
           end
      else k s c.
Proof.
  intros Hw s c k. cbn [rmatch rep_loop below]. 
  change (Nat.ltb 0 1) with true. cbv iota. change (Nat.leb 0 0) with true.
  cbv iota. rewrite rmatch_literal.
  destruct (ci_prefix w s) eqn:P; [|reflexivity].
  pose proof (ci_prefix_length w s P) as L.
  assert (Lw : 0 < String.length w) by (destruct w; [congruence|simpl; lia]).
  replace (Nat.ltb (String.length (skip (String.length w) s)) (String.length s))
    with true
    by (symmetry; apply Nat.ltb_lt; rewrite length_skip; lia).
  destruct (String.length s) as [|n] eqn:E; [lia|].
  cbn [rep_loop below]. change (Nat.ltb 1 1) with false. cbv iota.
  change (Nat.leb 0 1) with true. cbv iota. reflexivity.
Qed.

Lemma search_word_opt (w1 w2 s : string) :
  w2 <> "" ->
  forall pos,
    match search_from ignorecase
            (Group 1 (literal_then w1 (Rep true 0 (Some 1) (literal w2)))) s pos
    with
    | Some m => exists g, group m 1 = Ok g /\ find_ci_opt w1 w2 s = Some g
    | None => find_ci_opt w1 w2 s = None
    end.
Proof.
  intros Hw.
  assert (At : forall s pos,
    match match_at ignorecase
            (Group 1 (literal_then w1 (Rep true 0 (Some 1) (literal w2)))) s pos
    with
    | Some m =>
        ci_prefix w1 s = true
        /\ group m 1
           = Ok (if ci_prefix w2 (skip (String.length w1) s)
                 then take (String.length w1 + String.length w2) s
                 else take (String.length w1) s)
    | None => ci_prefix w1 s = false
    end).
  { intros s0 pos. unfold match_at. cbn [rmatch].
    rewrite rmatch_literal_then.
    destruct (ci_prefix w1 s0) eqn:P1; [|reflexivity].
    rewrite rmatch_opt_literal by exact Hw.
    pose proof (ci_prefix_length w1 s0 P1) as L1.
    destruct (ci_prefix w2 (skip (String.length w1) s0)) eqn:P2.
    - split; [reflexivity|]. unfold group. cbn.
      pose proof (ci_prefix_length _ _ P2) as L2. rewrite length_skip in L2.
      rewrite skip_skip, length_skip. do 2 f_equal. lia.
    - split; [reflexivity|]. unfold group. cbn.
      rewrite length_skip. do 2 f_equal. lia. }
  induction s as [|a s IH]; intros pos; cbn [search_from find_ci_opt];
    specialize (At) as At'.
  - specialize (At "" pos).
    destruct (match_at ignorecase _ "" pos) as [m|].
    + destruct At as [-> G]. eexists. split; [exact G|reflexivity].
    + now rewrite At.
  - specialize (At (String a s) pos).
    destruct (match_at ignorecase _ (String a s) pos) as [m|].
    + destruct At as [-> G]. eexists. split; [exact G|reflexivity].
    + rewrite At. apply IH.
Qed.

Lemma rule_value_word_opt (w1 w2 text : string) :
  w2 <> "" ->
  rule_value (Group 1 (literal_then w1 (Rep true 0 (Some 1) (literal w2))))
    ignorecase text
  = match find_ci_opt w1 w2 text with
    | Some g => strip g
    | None => "N/A"
    end.
Proof.
  intros Hw. unfold rule_value, re_search.
  pose proof (search_word_opt w1 w2 text Hw 0) as H.
  destruct (search_from ignorecase _ text 0) as [m|].
  - destruct H as (g & Hg & Hf). now rewrite Hg, Hf.
  - now rewrite H.
Qed.

Lemma find_ci_opt_none (w1 w2 s : string) :
  find_ci_opt w1 w2 s = None <-> find_ci w1 s = None.
Proof.
  induction s as [|a s IH]; simpl.
  - destruct (ci_prefix w1 ""); split; congruence.
  - destruct (ci_prefix w1 (String a s)); [split; congruence|exact IH].
Qed.

Lemma find_ci_opt_found (w1 w2 s g : string) :
  find_ci_opt w1 w2 s = Some g ->
  (lower_str g = lower_str w1 \/ lower_str g = lower_str (w1 ++ w2))
  /\ exists pre post, s = pre ++ g ++ post.
Proof.
  assert (Here : forall s g,
    ci_prefix w1 s = true ->
    g = (if ci_prefix w2 (skip (String.length w1) s)
         then take (String.length w1 + String.length w2) s
         else take (String.length w1) s) ->
    (lower_str g = lower_str w1 \/ lower_str g = lower_str (w1 ++ w2))
    /\ exists pre post, s = pre ++ g ++ post).
  { intros s0 g0 P1 ->.
    destruct (ci_prefix w2 (skip (String.length w1) s0)) eqn:P2.
    - split.
      + right. rewrite <- length_append. apply ci_prefix_take.
        rewrite ci_prefix_append, P1, P2. reflexivity.
      + exists "", (skip (String.length w1 + String.length w2) s0).
        cbn [append]. now rewrite take_skip.
    - split.
      + left. now apply ci_prefix_take.
      + exists "", (skip (String.length w1) s0).
        cbn [append]. now rewrite take_skip. }
  induction s as [|a s IH]; cbn [find_ci_opt].
  - destruct (ci_prefix w1 "") eqn:P; [|discriminate].
    intros H. inversion H. now apply Here.
  - destruct (ci_prefix w1 (String a s)) eqn:P.
    + intros H. inversion H. now apply Here.
    + intros H. destruct (IH H) as [L (pre & post & E)].
      split; [exact L|]. exists (String a pre), post. simpl. now rewrite E.
Qed.

(** A rule that looks for [w1] and takes [w2] with it when [w2] follows. *)
Lemma word_opt_rule (w1 w2 text : string) :
  w2 <> "" ->
  strip (lower_str w1) = lower_str w1 ->
  strip (lower_str (w1 ++ w2)) = lower_str (w1 ++ w2) ->
  let v := rule_value
             (Group 1 (literal_then w1 (Rep true 0 (Some 1) (literal w2))))
             ignorecase text in
  (~ occurs_ci w1 text /\ v = "N/A")
  \/ (occurs_ci w1 text
      /\ (lower_str v = lower_str w1 \/ lower_str v = lower_str (w1 ++ w2))
      /\ exists pre post, text = pre ++ v ++ post).
Proof.
  intros Hw H1 H2 v. unfold v. rewrite rule_value_word_opt by exact Hw.
  destruct (find_ci_opt w1 w2 text) as [g|] eqn:F.
  - right. destruct (find_ci_opt_found w1 w2 text g F) as [L S].
    split; [|split].
    + destruct (find_ci w1 text) eqn:N.
      * destruct (occurs_b w1 text) eqn:O; [now apply occurs_b_spec|].
        assert (N' : find_ci w1 text = None).
        { apply find_ci_occurs. rewrite <- occurs_b_spec. congruence. }
        congruence.
      * apply (find_ci_opt_none w1 w2) in N. congruence.
    + rewrite <- strip_lower. destruct L as [L|L]; rewrite L; auto.
    + eapply substring_trans; [exact S|apply strip_substring].
  - left. split; [|reflexivity].
    apply find_ci_occurs. now apply (find_ci_opt_none w1 w2).
Qed.

(** ** The three rules of fixed words *)

Lemma employer_ast : employer_pattern = Group 1 (literal "John Deere").
Proof. reflexivity. Qed.

Lemma education_ast :
  education_pattern
  = Group 1 (literal "Salvation Army training college in Chicago").
Proof. reflexivity. Qed.

Lemma church_ast :
  church_pattern
  = Group 1 (literal_then "Salvation Army"
               (Rep true 0 (Some 1) (literal " training college"))).
Proof. reflexivity. Qed.

Lemma occurs_ci_piece (w w' text : string) :
  occurs_ci w' w -> occurs_ci w text -> occurs_ci w' text.
Proof.
  intros (a & m & b & Ew & Lm) (pre & mid & post & Et & L).
  (* mid reads like w, so it splits the way w does *)
  assert (Sp : exists a' m' b',
             mid = a' ++ m' ++ b' /\ lower_str m' = lower_str w').
  { rewrite Ew in L. rewrite !lower_str_append in L.
    exists (take (String.length a) mid),
           (take (String.length m) (skip (String.length a) mid)),
           (skip (String.length m) (skip (String.length a) mid)).
    split; [now rewrite !take_skip|].
    rewrite <- Lm. clear - L.
    revert mid L. induction a as [|x a IH]; intros mid L.
    - cbn [String.length skip append lower_str] in *.
      revert mid L. induction m as [|y m IHm]; intros mid L.
      + reflexivity.
      + destruct mid as [|z mid]; [discriminate|]. cbn in L |- *.
        inversion L. f_equal. now apply IHm.
    - destruct mid as [|z mid]; [discriminate|]. cbn in L |- *.
      inversion L. now apply IH. }
  destruct Sp as (a' & m' & b' & -> & L').
  exists (pre ++ a'), m', (b' ++ post). split; [|exact L'].
  rewrite Et. now rewrite !append_assoc.
Qed.

(** ** Whole numbers through [format_date] *)

Section WholeNumbers.

Variable to_datetime : string -> result datetime_or_nat.

Lemma serial_date_invalid (days : Z) :
  serial_date days = "Invalid Date"
  <-> (days < -693593 \/ 2958465 < days)%Z.
Proof.
  pose proof epoch_ordinal as E. split.
  - intros H.
    destruct (Z_lt_le_dec days (-693593)) as [|L1]; [now left|].
    destruct (Z_lt_le_dec 2958465 days) as [|L2]; [now right|].
    destruct (serial_date_in days) as (y & m & d & _ & _ & S).
    { rewrite E. unfold MAXORDINAL. lia. }
    rewrite S in H. now apply strftime_not_invalid in H.
  - intros H. apply serial_date_out. rewrite E. unfold MAXORDINAL. lia.
Qed.

Lemma Qfloor_inject (q : Q) (n : Z) : (q == inject_Z n)%Q -> Qfloor q = n.
Proof. intros H. rewrite H. apply Qfloor_Z. Qed.

Lemma format_date_float_whole (n : Z) :
  format_date to_datetime (VFloat (Ffinite n 0))
  = format_date to_datetime (VInt n).
Proof.
  pose proof (float_value_int n 0 ltac:(lia)) as V.
  replace (n * 2 ^ 0)%Z with n in V by lia.
  pose proof (Qfloor_inject _ _ V) as F.
  destruct (Z_le_dec 1800 n) as [L1|L1];
    [destruct (Z_le_dec n 2100) as [L2|L2]|].
  - rewrite format_date_int_window by lia.
    rewrite format_date_float_window.
    + now rewrite F.
    + rewrite V. rewrite <- Zle_Qle. lia.
    + rewrite V. rewrite <- Zle_Qle. lia.
  - rewrite format_date_int_serial by lia.
    destruct (format_date_float_serial to_datetime n 0) as (d & _ & W & ->).
    { rewrite V. rewrite <- !Zle_Qle. lia. }
    rewrite W, F; [reflexivity|]. unfold whole_microseconds. lia.
  - rewrite format_date_int_serial by lia.
    destruct (format_date_float_serial to_datetime n 0) as (d & _ & W & ->).
    { rewrite V. rewrite <- !Zle_Qle. lia. }
    rewrite W, F; [reflexivity|]. unfold whole_microseconds. lia.
Qed.

Lemma format_date_float_huge (m e : Z) :
  (0 < e)%Z -> (2 ^ 52 <= Z.abs m)%Z ->
  format_date to_datetime (VFloat (Ffinite m e)) = "Invalid Date".
Proof.
  intros He Hm.
  pose proof (float_value_int m e ltac:(lia)) as V.
  pose proof (Qfloor_inject _ _ V) as F.
  assert (P : (2 <= 2 ^ e)%Z).
  { change 2%Z with (2 ^ 1)%Z at 1. apply Z.pow_le_mono_r; lia. }
  assert (B : (2 ^ 53 <= Z.abs (m * 2 ^ e))%Z).
  { rewrite Z.abs_mul. rewrite (Z.abs_eq (2 ^ e)) by lia.
    change (2 ^ 53)%Z with (2 ^ 52 * 2)%Z. apply Z.mul_le_mono_nonneg; lia. }
  destruct (format_date_float_serial to_datetime m e) as (d & D & _ & ->).
  { rewrite V. rewrite <- !Zle_Qle. change (2 ^ 53)%Z with 9007199254740992%Z in B. lia. }
  apply serial_date_invalid. rewrite F in D.
  change (2 ^ 53)%Z with 9007199254740992%Z in B. lia.
Qed.

End WholeNumbers.

(** ** The matcher finds only what the pattern stands for *)

Lemma append_nil_r (s : string) : s ++ "" = s.
Proof. induction s as [|a s IH]; simpl; [reflexivity|now rewrite IH]. Qed.

Lemma take_app_length (pre s1 : string) :
  take (String.length (pre ++ s1) - String.length s1) (pre ++ s1) = pre.
Proof.
  rewrite length_append.
  replace (String.length pre + String.length s1 - String.length s1)
    with (String.length pre) by lia.
  induction pre as [|a pre IH]; simpl.
  - destruct s1; reflexivity.
  - now rewrite IH.
Qed.

Lemma piece_refl (s : string) : piece s s.
Proof. exists "", "". simpl. now rewrite append_nil_r. Qed.

Lemma piece_app_l (g s1 s2 : string) : piece g s1 -> piece g (s1 ++ s2).
Proof.
  intros (a & b & ->). exists a, (b ++ s2). now rewrite !append_assoc.
Qed.

Lemma piece_app_r (g s1 s2 : string) : piece g s2 -> piece g (s1 ++ s2).
Proof.
  intros (a & b & ->). exists (s1 ++ a), b. now rewrite !append_assoc.
Qed.

Lemma piece_trans (a b c : string) : piece a b -> piece b c -> piece a c.
Proof. intros H1 H2. exact (substring_trans c b a H2 H1). Qed.

Lemma piece_strip (s : string) : piece (strip s) s.
Proof. apply strip_substring. Qed.

Section Sound.

Variable fl : flags.
Variable A : Type.

Lemma step_sound (p : ascii -> bool) s c
    (k : string -> captures -> option A) a :
  step A p s c k = Some a ->
  exists x s1, s = String x s1 /\ p x = true /\ k s1 c = Some a.
Proof.
  destruct s as [|x s]; simpl; [discriminate|].
  destruct (p x) eqn:P; [|discriminate].
  intros H. now exists x, s.
Qed.

Lemma rep_loop_sound (r : regex) greedy lo hi
    (k : string -> captures -> option A) :
  sound_for fl A r ->
  forall fuel count s c a,
    rep_loop A (rmatch fl r) greedy lo hi k fuel count s c = Some a ->
    exists pre s1 c1,
      s = pre ++ s1
      /\ matches fl (Rep greedy (lo - count)
                       (option_map (fun h => h - count) hi) r) pre c c1
      /\ k s1 c1 = Some a.
Proof.
  intros Hr. induction fuel as [|fuel IH]; intros count s c a;
    [discriminate|].
  cbn [rep_loop].
  set (more := if below hi count
               then rmatch fl r s c
                      (fun s1 c1 =>
                         if Nat.ltb (String.length s1) (String.length s)
                         then rep_loop A (rmatch fl r) greedy lo hi k fuel
                                (S count) s1 c1
                         else None)
               else None).
  set (stop := if Nat.leb lo count then k s c else None).
  assert (More : more = Some a ->
    exists pre s1 c1,
      s = pre ++ s1
      /\ matches fl (Rep greedy (lo - count)
                       (option_map (fun h => h - count) hi) r) pre c c1
      /\ k s1 c1 = Some a).
  { unfold more. destruct (below hi count) eqn:B; [|discriminate].
    intros H. apply Hr in H. destruct H as (pre1 & s1 & c1 & -> & M1 & H).
    destruct (Nat.ltb (String.length s1) (String.length (pre1 ++ s1)));
      [|discriminate].
    apply IH in H. destruct H as (pre2 & s2 & c2 & -> & M2 & H).
    exists (pre1 ++ pre2), s2, c2. split; [now rewrite append_assoc|].
    split; [|exact H].
    eapply M_RepMore; [|exact M1|].
    - destruct hi as [h|]; [|discriminate]. simpl in B |- *.
      apply Nat.ltb_lt in B. intros E. inversion E. lia.
    - replace (pred (lo - count)) with (lo - S count) by lia.
      replace (option_map pred (option_map (fun h => h - count) hi))
        with (option_map (fun h => h - S count) hi); [exact M2|].
      destruct hi as [h|]; simpl; [f_equal; lia|reflexivity]. }
  assert (Stop : stop = Some a ->
    exists pre s1 c1,
      s = pre ++ s1
      /\ matches fl (Rep greedy (lo - count)
                       (option_map (fun h => h - count) hi) r) pre c c1
      /\ k s1 c1 = Some a).
  { unfold stop. destruct (Nat.leb lo count) eqn:L; [|discriminate].
    apply Nat.leb_le in L. intros H. exists "", s, c.
    split; [reflexivity|]. split; [|exact H].
    replace (lo - count) with 0 by lia. apply M_RepStop. }
  destruct greedy.
  - destruct more as [x|] eqn:E.
    + intros H. apply More. exact H.
    + exact Stop.
  - destruct stop as [x|] eqn:E.
    + intros H. apply Stop. exact H.
    + exact More.
Qed.

Lemma rmatch_sound (r : regex) : sound_for fl A r.
Proof.
  induction r as [|x| |items|r1 IH1 r2 IH2|r1 IH1 r2 IH2
                  |greedy lo hi r IH|n r IH];
    intros s c k a; cbn [rmatch].
  - intros H. exists "", s, c. repeat split; [constructor|exact H].
  - intros H. apply step_sound in H. destruct H as (y & s1 & -> & P & H).
    exists (String y ""), s1, c. repeat split; [now constructor|exact H].
  - intros H. apply step_sound in H. destruct H as (y & s1 & -> & P & H).
    exists (String y ""), s1, c. repeat split; [now constructor|exact H].
  - intros H. apply step_sound in H. destruct H as (y & s1 & -> & P & H).
    exists (String y ""), s1, c. repeat split; [now constructor|exact H].
  - intros H. apply IH1 in H. destruct H as (p1 & s1 & c1 & -> & M1 & H).
    apply IH2 in H. destruct H as (p2 & s2 & c2 & -> & M2 & H).
    exists (p1 ++ p2), s2, c2. split; [now rewrite append_assoc|].
    split; [|exact H]. econstructor; eassumption.
  - destruct (rmatch fl r1 s c k) as [x|] eqn:E.
    + intros H. inversion H; subst.
      apply IH1 in E. destruct E as (p1 & s1 & c1 & -> & M1 & E).
      exists p1, s1, c1. repeat split; [now apply M_AltL|exact E].
    + intros H. apply IH2 in H. destruct H as (p1 & s1 & c1 & -> & M1 & E').
      exists p1, s1, c1. repeat split; [now apply M_AltR|exact E'].
  - intros H. apply (rep_loop_sound r greedy lo hi k IH) in H.
    destruct H as (pre & s1 & c1 & -> & M & H).
    exists pre, s1, c1. repeat split; [|exact H].
    rewrite Nat.sub_0_r in M.
    replace (option_map (fun h => h - 0) hi) with hi in M; [exact M|].
    destruct hi as [h|]; simpl; [now rewrite Nat.sub_0_r|reflexivity].
  - intros H. apply IH in H. destruct H as (pre & s1 & c1 & -> & M & H).
    rewrite take_app_length in H.
    exists pre, s1, ((n, pre) :: c1). repeat split; [|exact H].
    now constructor.
Qed.

End Sound.

Lemma match_at_sound (fl : flags) (r : regex) (s : string) (pos : nat)
    (m : match_obj) :
  match_at fl r s pos = Some m ->
  exists pre, s = pre ++ m_rest m /\ matches fl r pre [] (m_groups m).
Proof.
  unfold match_at. intros H. apply rmatch_sound in H.
  destruct H as (pre & s1 & c1 & -> & M & H). inversion H; subst.
  exists pre. now split.
Qed.

Lemma search_from_sound (fl : flags) (r : regex) (s : string) :
  forall pos m,
    search_from fl r s pos = Some m ->
    exists pre, piece pre s /\ matches fl r pre [] (m_groups m).
Proof.
  induction s as [|a s IH]; intros pos m; cbn [search_from].
  - destruct (match_at fl r "" pos) as [m'|] eqn:E; [|discriminate].
    intros H. inversion H; subst.
    apply match_at_sound in E. destruct E as (pre & E & M).
    exists pre. split; [|exact M]. exists "", (m_rest m). exact E.
  - destruct (match_at fl r (String a s) pos) as [m'|] eqn:E.
    + intros H. inversion H; subst.
      apply match_at_sound in E. destruct E as (pre & E & M).
      exists pre. split; [|exact M]. exists "", (m_rest m). exact E.
    + intros H. apply IH in H. destruct H as (pre & P & M).
      exists pre. split; [|exact M].
      change (String a s) with (String a "" ++ s). now apply piece_app_r.
Qed.

(** ** What follows from a match *)

Lemma all_chars_app (p : ascii -> bool) (s t : string) :
  all_chars p (s ++ t) = all_chars p s && all_chars p t.
Proof.
  induction s as [|a s IH]; simpl; [reflexivity|].
  now rewrite IH, andb_assoc.
Qed.

Lemma all_chars_mono (p q : ascii -> bool) (s : string) :
  (forall a, p a = true -> q a = true) ->
  all_chars p s = true -> all_chars q s = true.
Proof.
  intros H. induction s as [|a s IH]; simpl; [reflexivity|].
  rewrite !andb_true_iff. intros [Ha Hs]. split; [now apply H|now apply IH].
Qed.

Lemma all_chars_piece (p : ascii -> bool) (g s : string) :
  piece g s -> all_chars p s = true -> all_chars p g = true.
Proof.
  intros (a & b & ->). rewrite !all_chars_app, !andb_true_iff. tauto.
Qed.

Lemma matches_alphabet (fl : flags) (r : regex) (s : string) c c' :
  matches fl r s c c' -> all_chars (alphabet fl r) s = true.
Proof.
  induction 1; cbn [alphabet all_chars]; try reflexivity;
    try (rewrite andb_true_r; assumption).
  - rewrite all_chars_app, andb_true_iff. split.
    + eapply all_chars_mono; [|exact IHmatches1].
      intros a ->. reflexivity.
    + eapply all_chars_mono; [|exact IHmatches2].
      intros a ->. apply orb_true_r.
  - eapply all_chars_mono; [|exact IHmatches]. intros a ->. reflexivity.
  - eapply all_chars_mono; [|exact IHmatches]. intros a ->. apply orb_true_r.
  - exact IHmatches.
  - rewrite all_chars_app, andb_true_iff. split; assumption.
Qed.

Lemma append_empty (s t : string) : s ++ t = "" -> s = "" /\ t = "".
Proof. destruct s; simpl; [now split|discriminate]. Qed.

Lemma matches_nullable (fl : flags) (r : regex) (s : string) c c' :
  matches fl r s c c' -> s = "" -> nullable r = true.
Proof.
  induction 1; cbn [nullable]; intros E; try discriminate; try reflexivity.
  - apply append_empty in E. destruct E. rewrite IHmatches1, IHmatches2; auto.
  - rewrite IHmatches; auto.
  - rewrite IHmatches; auto. apply orb_true_r.
  - auto.
  - apply append_empty in E. destruct E. rewrite IHmatches1; auto.
    apply orb_true_r.
Qed.

Lemma matches_firsts (fl : flags) (r : regex) (s : string) c c' :
  matches fl r s c c' ->
  forall a s', s = String a s' -> firsts fl r a = true.
Proof.
  induction 1; cbn [firsts]; intros a0 s' E; try discriminate;
    try (inversion E; subst; assumption).
  - destruct s1 as [|x s1].
    + rewrite (matches_nullable _ _ _ _ _ H eq_refl).
      rewrite (IHmatches2 _ _ E). apply orb_true_r.
    + inversion E; subst. rewrite (IHmatches1 _ _ eq_refl). reflexivity.
  - rewrite (IHmatches _ _ E). reflexivity.
  - rewrite (IHmatches _ _ E). apply orb_true_r.
  - eauto.
  - destruct s1 as [|x s1].
    + exact (IHmatches2 _ _ E).
    + inversion E; subst. exact (IHmatches1 _ _ eq_refl).
Qed.

Lemma matches_bodies (fl : flags) (r : regex) (s : string) c c' :
  matches fl r s c c' ->
  forall n g,
    lookup n c' = Some g ->
    lookup n c = Some g
    \/ exists body c0 c0',
         In body (bodies n r) /\ piece g s /\ matches fl body g c0 c0'.
Proof.
  induction 1; cbn [bodies]; intros k g L; try (left; exact L).
  - destruct (IHmatches2 _ _ L) as [L1|(b & c0 & c0' & I & P & M)].
    + destruct (IHmatches1 _ _ L1) as [L0|(b & c0 & c0' & I & P & M)];
        [now left|right].
      exists b, c0, c0'. split; [apply in_or_app; now left|].
      split; [now apply piece_app_l|exact M].
    + right. exists b, c0, c0'. split; [apply in_or_app; now right|].
      split; [now apply piece_app_r|exact M].
  - destruct (IHmatches _ _ L) as [L0|(b & c0 & c0' & I & P & M)];
      [now left|right].
    exists b, c0, c0'. split; [apply in_or_app; now left|now split].
  - destruct (IHmatches _ _ L) as [L0|(b & c0 & c0' & I & P & M)];
      [now left|right].
    exists b, c0, c0'. split; [apply in_or_app; now right|now split].
  - cbn [lookup] in L. destruct (Nat.eqb n k) eqn:E.
    + inversion L; subst. right. exists r, c, c1.
      split; [now left|]. split; [apply piece_refl|assumption].
    + destruct (IHmatches _ _ L) as [L0|(b & c0 & c0' & I & P & M)];
        [now left|right].
      exists b, c0, c0'. split; [exact I|now split].
  - destruct (IHmatches2 _ _ L) as [L1|(b & c0 & c0' & I & P & M)].
    + destruct (IHmatches1 _ _ L1) as [L0|(b & c0 & c0' & I & P & M)];
        [now left|right].
      exists b, c0, c0'. split; [exact I|].
      split; [now apply piece_app_l|exact M].
    + right. exists b, c0, c0'. split; [exact I|].
      split; [now apply piece_app_r|exact M].
Qed.

(** A group of a match of a search is a piece of the text that the body of
    one of the groups of that number takes. *)
Lemma search_group (fl : flags) (r : regex) (s : string) (pos : nat)
    (m : match_obj) (n : nat) (g : string) :
  search_from fl r s pos = Some m ->
  lookup n (m_groups m) = Some g ->
  exists body c0 c0',
    In body (bodies n r) /\ piece g s /\ matches fl body g c0 c0'.
Proof.
  intros H L. apply search_from_sound in H. destruct H as (pre & P & M).
  destruct (matches_bodies _ _ _ _ _ M _ _ L)
    as [L0|(b & c0 & c0' & I & P' & M')]; [discriminate|].
  exists b, c0, c0'. split; [exact I|]. split; [|exact M'].
  eapply piece_trans; eassumption.
Qed.

Lemma rule_value_sound (r : regex) (fl : flags) (text : string) :
  rule_value r fl text = "N/A"
  \/ exists g body c0 c0',
       rule_value r fl text = strip g
       /\ In body (bodies 1 r) /\ piece g text /\ matches fl body g c0 c0'.
Proof.
  unfold rule_value, re_search.
  destruct (search_from fl r text 0) as [m|] eqn:S; [|now left].
  unfold group. destruct (lookup 1 (m_groups m)) as [g|] eqn:L; [|now left].
  right. destruct (search_group _ _ _ _ _ _ _ S L) as (b & c0 & c0' & H).
  exists g, b, c0, c0'. split; [reflexivity|exact H].
Qed.

(** ** White space at the two ends *)

Lemma rstrip_starts (p : ascii -> bool) (s : string) :
  (forall a, p a = true -> isspace a = false) ->
  starts p s = true -> starts p (rstrip s) = true.
Proof.
  intros H. destruct s as [|a s]; simpl; [discriminate|].
  intros P. destruct (rstrip s); simpl; [|exact P].
  rewrite (H a P). exact P.
Qed.

Lemma lstrip_starts (p : ascii -> bool) (s : string) :
  (forall a, p a = true -> isspace a = false) ->
  starts p s = true -> lstrip s = s.
Proof.
  intros H. destruct s as [|a s]; simpl; [discriminate|].
  intros P. now rewrite (H a P).
Qed.

Lemma strip_starts (p : ascii -> bool) (s : string) :
  (forall a, p a = true -> isspace a = false) ->
  starts p s = true -> starts p (strip s) = true.
Proof.
  intros H P. unfold strip. rewrite (lstrip_starts p s H P).
  now apply rstrip_starts.
Qed.

Lemma matches_starts (fl : flags) (r : regex) (g : string) c c' :
  matches fl r g c c' -> nullable r = false -> starts (firsts fl r) g = true.
Proof.
  intros M N. destruct g as [|a g].
  - rewrite (matches_nullable _ _ _ _ _ M eq_refl) in N. discriminate.
  - simpl. exact (matches_firsts _ _ _ _ _ M _ _ eq_refl).
Qed.

Lemma starts_mono (p q : ascii -> bool) (s : string) :
  (forall a, p a = true -> q a = true) ->
  starts p s = true -> starts q s = true.
Proof. intros H. destruct s; simpl; [discriminate|apply H]. Qed.

(** ** What a rule can put in its field *)

Lemma rule_content (fl : flags) (r : regex) (text : string)
    (p q : ascii -> bool) :
  (forall body, In body (bodies 1 r) ->
     nullable body = false
     /\ (forall a, alphabet fl body a = true -> p a = true)
     /\ (forall a, firsts fl body a = true -> q a = true)) ->
  (forall a, q a = true -> isspace a = false) ->
  rule_value r fl text = "N/A"
  \/ exists g,
       rule_value r fl text = strip g
       /\ piece g text
       /\ piece (strip g) text
       /\ all_chars p (strip g) = true
       /\ starts q g = true
       /\ starts q (strip g) = true.
Proof.
  intros Hb Hq.
  destruct (rule_value_sound r fl text)
    as [E|(g & body & c0 & c0' & E & I & P & M)]; [now left|right].
  destruct (Hb body I) as (N & Ha & Hf).
  assert (S : starts q g = true).
  { eapply starts_mono; [exact Hf|]. eapply matches_starts; eassumption. }
  exists g. split; [exact E|]. split; [exact P|].
  split; [eapply piece_trans; [apply piece_strip|exact P]|].
  split; [|split; [exact S|now apply strip_starts]].
  apply (all_chars_piece p (strip g) g (piece_strip g)).
  eapply all_chars_mono; [exact Ha|]. eapply matches_alphabet; eassumption.
Qed.

(** White space at the two ends is taken once and for all. *)
Lemma rstrip_idem (s : string) : rstrip (rstrip s) = rstrip s.
Proof.
  induction s as [|a s IH]; [reflexivity|]. cbn [rstrip].
  destruct (rstrip s) as [|b t] eqn:R.
  - destruct (isspace a) eqn:Sa; [reflexivity|]. cbn [rstrip]. now rewrite Sa.
  - change (rstrip (String a (String b t)))
      with (match rstrip (String b t) with
            | EmptyString => if isspace a then EmptyString
                             else String a EmptyString
            | String x y => String a (String x y)
            end).
    rewrite IH. reflexivity.
Qed.

Lemma lstrip_rstrip (s : string) :
  lstrip s = s -> lstrip (rstrip s) = rstrip s.
Proof.
  destruct s as [|a s]; [reflexivity|]. cbn [lstrip rstrip].
  destruct (isspace a) eqn:Sa.
  - intros E. exfalso.
    assert (L : forall t, String.length (lstrip t) <= String.length t).
    { induction t as [|b t IHt]; simpl; [lia|].
      destruct (isspace b); simpl; lia. }
    specialize (L s). rewrite E in L. simpl in L. lia.
  - intros _. destruct (rstrip s); cbn [lstrip]; now rewrite Sa.
Qed.

Lemma lstrip_idem (s : string) : lstrip (lstrip s) = lstrip s.
Proof.
  induction s as [|a s IH]; [reflexivity|]. cbn [lstrip].
  destruct (isspace a) eqn:Sa; [exact IH|]. cbn [lstrip]. now rewrite Sa.
Qed.

Lemma strip_idem (s : string) : strip (strip s) = strip s.
Proof.
  unfold strip. rewrite (lstrip_rstrip (lstrip s) (lstrip_idem s)).
  apply rstrip_idem.
Qed.

Lemma rule_value_stripped (r : regex) (fl : flags) (text : string) :
  strip (rule_value r fl text) = rule_value r fl text.
Proof.
  unfold rule_value. destruct (re_search r text fl) as [m|]; [|reflexivity].
  destruct (group m 1); [apply strip_idem|reflexivity].
Qed.

Ltac by_cases a :=
  destruct a as [[] [] [] [] [] [] [] []]; vm_compute; congruence.

Lemma isalpha_not_space (a : ascii) : isalpha a = true -> isspace a = false.
Proof. by_cases a. Qed.

Lemma isdigit_not_space (a : ascii) : isdigit a = true -> isspace a = false.
Proof. by_cases a. Qed.

Lemma name_body (body : regex) :
  In body (bodies 1 name_pattern) ->
  nullable body = false
  /\ (forall a, alphabet ignorecase body a = true -> letter_or_space a = true)
  /\ (forall a, firsts ignorecase body a = true -> isalpha a = true).
Proof.
  intros H. vm_compute in H. destruct H as [<-|[]].
  split; [reflexivity|]. split; intros a; by_cases a.
Qed.

Lemma pob_body (body : regex) :
  In body (bodies 1 pob_pattern) ->
  nullable body = false
  /\ (forall a, alphabet ignorecase body a = true -> letter_or_space a = true)
  /\ (forall a, firsts ignorecase body a = true -> letter_or_space a = true).
Proof.
  intros H. vm_compute in H. destruct H as [<-|[]].
  split; [reflexivity|]. split; intros a; by_cases a.
Qed.

Lemma dob_body (body : regex) :
  In body (bodies 1 dob_pattern) ->
  nullable body = false
  /\ (forall a, alphabet ignorecase body a = true ->
                digit_or_separator a = true)
  /\ (forall a, firsts ignorecase body a = true -> isdigit a = true).
Proof.
  intros H. vm_compute in H. destruct H as [<-|[]].
  split; [reflexivity|]. split; intros a; by_cases a.
Qed.

Lemma date_int_body (body : regex) :
  In body (bodies 1 date_int_pattern) ->
  nullable body = false
  /\ (forall a, alphabet ignorecase_dotall body a = true ->
                alnum_or_space a = true)
  /\ (forall a, firsts ignorecase_dotall body a = true -> isdigit a = true).
Proof.
  intros H. vm_compute in H. destruct H as [<-|[]].
  split; [reflexivity|]. split; intros a; by_cases a.
Qed.

(** Text that starts with a digit is no sentinel, so the closing loop
    hands it to [format_date]. *)
Lemma normalised_digit to_datetime (v : string) :
  starts isdigit v = true ->
  normalised to_datetime v = format_date to_datetime (VStr v).
Proof.
  intros H. unfold normalised.
  replace (is_sentinel v) with false; [reflexivity|].
  destruct v as [|a v]; [discriminate|]. simpl in H.
  unfold is_sentinel. cbn [existsb String.eqb].
  destruct (Ascii.eqb_spec a "N") as [->|_]; [discriminate|].
  destruct (Ascii.eqb_spec a "I") as [->|_]; [discriminate|].
  reflexivity.
Qed.

(** ** Every match of [re.findall] *)

Lemma match_at_rest (fl : flags) (r : regex) (s : string) (pos : nat)
    (m : match_obj) :
  match_at fl r s pos = Some m -> exists pre, s = pre ++ m_rest m.
Proof.
  intros H. apply match_at_sound in H. destruct H as (pre & E & _).
  now exists pre.
Qed.

Lemma search_from_suffix (fl : flags) (r : regex) (s : string) :
  forall pos m,
    search_from fl r s pos = Some m -> exists pre, s = pre ++ m_rest m.
Proof.
  induction s as [|a s IH]; intros pos m; cbn [search_from].
  - destruct (match_at fl r "" pos) as [m'|] eqn:E; [|discriminate].
    intros H. inversion H; subst. eapply match_at_rest; eassumption.
  - destruct (match_at fl r (String a s) pos) as [m'|] eqn:E.
    + intros H. inversion H; subst. eapply match_at_rest; eassumption.
    + intros H. apply IH in H. destruct H as (pre & E').
      exists (String a pre). simpl. now rewrite <- E'.
Qed.

Lemma findall_sound (fl : flags) (r : regex) (ngroups : nat) :
  forall fuel s tuple,
    In tuple (findall_from fuel fl r ngroups s) ->
    exists s' m,
      piece s' s
      /\ search_from fl r s' 0 = Some m
      /\ tuple = map (fun n => match lookup n (m_groups m) with
                               | Some g => g
                               | None => ""
                               end) (seq 1 ngroups).
Proof.
  induction fuel as [|fuel IH]; intros s tuple; [intros []|].
  cbn [findall_from].
  destruct (search_from fl r s 0) as [m|] eqn:S; [|intros []].
  destruct (search_from_suffix _ _ _ _ _ S) as (pre & E).
  assert (Here : forall t,
    t = map (fun n => match lookup n (m_groups m) with
                      | Some g => g
                      | None => ""
                      end) (seq 1 ngroups) ->
    exists s' m0,
      piece s' s /\ search_from fl r s' 0 = Some m0
      /\ t = map (fun n => match lookup n (m_groups m0) with
                           | Some g => g
                           | None => ""
                           end) (seq 1 ngroups)).
  { intros t ->. exists s, m. split; [apply piece_refl|now split]. }
  assert (Later : forall s1,
    piece s1 s ->
    In tuple (findall_from fuel fl r ngroups s1) ->
    exists s' m0,
      piece s' s /\ search_from fl r s' 0 = Some m0
      /\ tuple = map (fun n => match lookup n (m_groups m0) with
                               | Some g => g
                               | None => ""
                               end) (seq 1 ngroups)).
  { intros s1 P I. apply IH in I. destruct I as (s' & m0 & P' & S' & T).
    exists s', m0. split; [eapply piece_trans; eassumption|now split]. }
  assert (Pr : piece (m_rest m) s).
  { exists pre, "". now rewrite append_nil_r. }
  destruct (Nat.eqb (m_end m) (m_start m)).
  - destruct (m_rest m) as [|a s1] eqn:R.
    + intros [<-|[]]. now apply Here.
    + intros [<-|I]; [now apply Here|]. apply (Later s1); [|exact I].
      eapply piece_trans; [|exact Pr].
      exists (String a ""), "". simpl. now rewrite append_nil_r.
  - intros [<-|I]; [now apply Here|]. now apply (Later (m_rest m)).
Qed.

Lemma sibling_body (body : regex) :
  In body (bodies 2 siblings_pattern) ->
  nullable body = false
  /\ (forall a, alphabet ignorecase body a = true -> isalpha a = true)
  /\ (forall a, firsts ignorecase body a = true -> isalpha a = true).
Proof.
  intros H. vm_compute in H. destruct H as [<-|[]].
  split; [reflexivity|]. split; intros a; by_cases a.
Qed.

(** A name the sibling rule captures is a piece of the text made of
    letters, at least one. *)
Lemma sibling_names_content (text name : string) :
  In name (sibling_names text) ->
  piece name text
  /\ all_chars isalpha name = true
  /\ starts isalpha name = true.
Proof.
  unfold sibling_names, re_findall. rewrite in_map_iff.
  intros (tuple & <- & I). apply findall_sound in I.
  destruct I as (s' & m & P & S & ->). cbn [seq map nth].
  assert (G : has (m_groups m) 2).
  { eapply search_from_groups; [exact S|reflexivity]. }
  unfold has in G. destruct (lookup 2 (m_groups m)) as [g|] eqn:L;
    [|congruence].
  destruct (search_group _ _ _ _ _ _ _ S L) as (body & c0 & c0' & I & Pg & M).
  destruct (sibling_body body I) as (N & Ha & Hf).
  split; [eapply piece_trans; eassumption|]. split.
  - eapply all_chars_mono; [exact Ha|]. eapply matches_alphabet; eassumption.
  - eapply starts_mono; [exact Hf|]. eapply matches_starts; eassumption.
Qed.

(** ** The words a rule needs *)

Lemma matches_prefix_word (fl : flags) (r : regex) :
  IGNORECASE fl = true ->
  forall s c c', matches fl r s c c' -> ci_prefix (prefix_word r) s = true.
Proof.
  intros Hfl. induction r as [|x| |items|r1 IH1 r2 IH2|r1 IH1 r2 IH2
                              |greedy lo hi r IH|n r IH];
    intros s c c' M; try reflexivity.
  - inversion M; subst. cbn [prefix_word ci_prefix].
    unfold lit_matches in *. rewrite Hfl in *.
    match goal with H : Ascii.eqb _ _ = true |- _ => now rewrite H end.
  - destruct r1; try reflexivity.
    inversion M; subst.
    match goal with H : matches fl (Lit _) _ _ _ |- _ => inversion H; subst end.
    cbn [prefix_word append ci_prefix].
    unfold lit_matches in *. rewrite Hfl in *.
    match goal with H : Ascii.eqb _ _ = true |- _ => rewrite H end.
    cbn [andb]. eapply IH2. eassumption.
Qed.

Lemma ci_prefix_occurs (w s text : string) :
  ci_prefix w s = true -> piece s text -> occurs_ci w text.
Proof.
  intros P (pre & post & ->).
  exists pre, (take (String.length w) s),
         (skip (String.length w) s ++ post).
  split; [|now apply ci_prefix_take].
  rewrite <- (append_assoc (take (String.length w) s)), take_skip.
  reflexivity.
Qed.

Lemma search_needs_word (fl : flags) (r : regex) (s : string) (pos : nat) :
  IGNORECASE fl = true ->
  ~ occurs_ci (prefix_word r) s ->
  search_from fl r s pos = None.
Proof.
  intros Hfl N. destruct (search_from fl r s pos) as [m|] eqn:S;
    [|reflexivity].
  exfalso. apply N. apply search_from_sound in S.
  destruct S as (pre & P & M).
  eapply ci_prefix_occurs; [|exact P].
  eapply matches_prefix_word; eassumption.
Qed.

Lemma rule_needs_word (fl : flags) (r : regex) (w text : string) :
  IGNORECASE fl = true ->
  occurs_ci w (prefix_word r) ->
  ~ occurs_ci w text ->
  rule_value r fl text = "N/A".
Proof.
  intros Hfl Hw N. unfold rule_value, re_search.
  rewrite search_needs_word; [reflexivity|exact Hfl|].
  intros O. apply N. eapply occurs_ci_piece; eassumption.
Qed.

Lemma findall_needs_word (fl : flags) (r : regex) (ngroups : nat)
    (w text : string) :
  IGNORECASE fl = true ->
  occurs_ci w (prefix_word r) ->
  ~ occurs_ci w text ->
  re_findall r ngroups text fl = [].
Proof.
  intros Hfl Hw N. unfold re_findall. cbn [findall_from].
  rewrite search_needs_word; [reflexivity|exact Hfl|].
  intros O. apply N. eapply occurs_ci_piece; eassumption.
Qed.

Lemma occurs_ci_self (w : string) : occurs_ci w w.
Proof. exists "", w, "". split; [simpl; now rewrite append_nil_r|reflexivity]. Qed.

Lemma occurs_ci_front (w rest : string) : occurs_ci w (w ++ rest).
Proof. exists "", w, rest. split; reflexivity. Qed.

(** ** The record, field by field *)

Lemma extract_record
    (to_datetime : string -> result datetime_or_nat)
    (set_iter : list string -> list string) (text filename : string) :
  exists data,
    extract_fields_unlabeled to_datetime set_iter text filename = Ok data
    /\ dict_get data "Sources" = Ok filename
    /\ dict_get data "Name" = Ok (rule_value name_pattern ignorecase text)
    /\ dict_get data "Place of Birth"
       = Ok (rule_value pob_pattern ignorecase text)
    /\ dict_get data "Church Affiliation"
       = Ok (rule_value church_pattern ignorecase text)
    /\ dict_get data "Employer"
       = Ok (rule_value employer_pattern ignorecase text)
    /\ dict_get data "Schools Attended"
       = Ok (rule_value education_pattern ignorecase text)
    /\ dict_get data "Date of Birth"
       = Ok (normalised to_datetime (rule_value dob_pattern ignorecase text))
    /\ dict_get data "Date of Interview"
       = Ok (normalised to_datetime
               (rule_value date_int_pattern ignorecase_dotall text))
    /\ dict_get data "Siblings"
       = Ok match re_findall siblings_pattern 2 text ignorecase with
            | [] => "N/A"
            | _ => join ", " (set_iter (sibling_names text))
            end
    /\ dict_get data "Geographical Locations"
       = Ok match locations_found text with
            | [] => "N/A"
            | _ => join ", " (sorted (set_iter (locations_found text)))
            end.
Proof.
  destruct (extract_get to_datetime set_iter text filename)
    as (data & E & _ & G).
  exists data. split; [exact E|].
  split; [now rewrite (G "Sources")|].
  split; [rewrite (G "Name"); apply rules_record_name|].
  split; [rewrite (G "Place of Birth"); apply rules_record_pob|].
  split; [rewrite (G "Church Affiliation"); apply rules_record_church|].
  split; [rewrite (G "Employer"); apply rules_record_employer|].
  split; [rewrite (G "Schools Attended"); apply rules_record_education|].
  split.
  { rewrite (G "Date of Birth").
    change (existsb (String.eqb "Date of Birth") date_fields) with true.
    change (String.eqb "Date of Birth" "Sources") with false. cbv iota.
    now rewrite rules_record_dob. }
  split.
  { rewrite (G "Date of Interview").
    change (existsb (String.eqb "Date of Interview") date_fields) with true.
    change (String.eqb "Date of Interview" "Sources") with false. cbv iota.
    now rewrite rules_record_date_int. }
  split.
  - exact (extract_siblings to_datetime set_iter text filename data E).
  - exact (extract_locations to_datetime set_iter text filename data E).
Qed.

Lemma not_sentinel_lower (v w : string) :
  lower_str v = lower_str w -> lower_str w <> "n/a" -> v <> "N/A".
Proof. intros E N ->. apply N. now rewrite <- E. Qed.

(** ** Sorting makes the order of a set immaterial *)

Lemma ascii_compare_code (x y : ascii) :
  Ascii.compare x y = N.compare (N_of_ascii x) (N_of_ascii y).
Proof. reflexivity. Qed.

Lemma string_compare_trans_le (a : string) :
  forall b c,
    String.compare a b <> Gt -> String.compare b c <> Gt ->
    String.compare a c <> Gt.
Proof.
  induction a as [|x a IH]; intros [|y b] [|z c]; cbn [String.compare];
    try congruence.
  rewrite !ascii_compare_code.
  destruct (N.compare_spec (N_of_ascii x) (N_of_ascii y)) as [E1|L1|G1];
    destruct (N.compare_spec (N_of_ascii y) (N_of_ascii z)) as [E2|L2|G2];
    try congruence; intros H1 H2.
  - rewrite E1, E2, N.compare_refl. now apply (IH b c).
  - rewrite E1. now rewrite (proj2 (N.compare_lt_iff _ _) L2).
  - rewrite <- E2. now rewrite (proj2 (N.compare_lt_iff _ _) L1).
  - now rewrite (proj2 (N.compare_lt_iff _ _) (N.lt_trans _ _ _ L1 L2)).
Qed.

Lemma leb_compare (a b : string) :
  String.leb a b = true <-> String.compare a b <> Gt.
Proof.
  unfold String.leb. destruct (String.compare a b); split; congruence.
Qed.

Lemma le_str_trans (a b c : string) : le_str a b -> le_str b c -> le_str a c.
Proof.
  unfold le_str. rewrite !leb_compare. apply string_compare_trans_le.
Qed.

Lemma sorted_unique (l1 : list string) :
  forall l2,
    StronglySorted le_str l1 -> StronglySorted le_str l2 ->
    Permutation l1 l2 -> l1 = l2.
Proof.
  induction l1 as [|x l1 IH]; intros l2 S1 S2 P.
  - apply Permutation_nil in P. now subst.
  - destruct l2 as [|y l2];
      [apply Permutation_sym, Permutation_nil in P; discriminate|].
    inversion S1 as [|? ? S1' F1]; inversion S2 as [|? ? S2' F2]; subst.
    assert (E : x = y).
    { assert (Ix : In x (y :: l2))
        by (eapply Permutation_in; [exact P|now left]).
      assert (Iy : In y (x :: l1))
        by (eapply Permutation_in; [symmetry; exact P|now left]).
      destruct Ix as [->|Ix]; [reflexivity|].
      destruct Iy as [->|Iy]; [reflexivity|].
      rewrite Forall_forall in F1, F2.
      apply String.leb_antisym; [apply (F1 y Iy)|apply (F2 x Ix)]. }
    subst y. f_equal. apply IH; try assumption.
    eapply Permutation_cons_inv; exact P.
Qed.

Lemma sorted_of_permutation (l1 l2 : list string) :
  Permutation l1 l2 -> sorted l1 = sorted l2.
Proof.
  intros P. apply sorted_unique.
  - apply Sorted_StronglySorted; [|apply sorted_Sorted].
    intros a b c. apply le_str_trans.
  - apply Sorted_StronglySorted; [|apply sorted_Sorted].
    intros a b c. apply le_str_trans.
  - rewrite !sorted_perm. exact P.
Qed.

Lemma sorted_set_order (si1 si2 : list string -> list string)
    (l : list string) :
  set_order si1 -> set_order si2 -> sorted (si1 l) = sorted (si2 l).
Proof.
  intros H1 H2. apply sorted_of_permutation.
  rewrite (H1 l). symmetry. apply H2.
Qed.

Lemma set_order_rev : set_order ref_set_iter_rev.
Proof.
  intros l. unfold ref_set_iter_rev. symmetry. apply Permutation_rev.
Qed.

(** ** Only "Siblings" shows the order of a set *)

Lemma dict_get_dict_set (d : dict) (f v k : string) :
  dict_get (dict_set d f v) k
  = if String.eqb f k then Ok v else dict_get d k.
Proof.
  induction d as [|[k' v'] d IH]; cbn [dict_set dict_get].
  - reflexivity.
  - destruct (String.eqb_spec k' f) as [->|N]; cbn [dict_get].
    + destruct (String.eqb f k); reflexivity.
    + rewrite IH. destruct (String.eqb_spec k' k) as [->|N'];
        [|reflexivity].
      destruct (String.eqb_spec f k) as [->|_]; [congruence|reflexivity].
Qed.

Lemma apply_rule_agree (field : string) (r : regex) (fl : flags)
    (text : string) (d1 d2 : dict) (k : string) :
  dict_get d1 k = dict_get d2 k ->
  dict_get (apply_rule field r fl text d1) k
  = dict_get (apply_rule field r fl text d2) k.
Proof.
  intros H. unfold apply_rule.
  destruct (re_search r text fl) as [m|]; [|exact H].
  destruct (group m 1); [|exact H].
  rewrite !dict_get_dict_set. now rewrite H.
Qed.

Lemma siblings_step_agree (si1 si2 : list string -> list string)
    (text : string) (d1 d2 : dict) (k : string) :
  k <> "Siblings" ->
  dict_get d1 k = dict_get d2 k ->
  dict_get (siblings_step si1 text d1) k
  = dict_get (siblings_step si2 text d2) k.
Proof.
  intros N H. unfold siblings_step.
  destruct (re_findall siblings_pattern 2 text ignorecase); [exact H|].
  rewrite !dict_get_dict_set.
  destruct (String.eqb_spec "Siblings" k); [congruence|exact H].
Qed.

Lemma locations_step_agree (si1 si2 : list string -> list string)
    (text : string) (d1 d2 : dict) (k : string) :
  set_order si1 -> set_order si2 ->
  dict_get d1 k = dict_get d2 k ->
  dict_get (locations_step si1 text d1) k
  = dict_get (locations_step si2 text d2) k.
Proof.
  intros H1 H2 H. unfold locations_step.
  destruct (locations_found text) as [|x l]; [exact H|].
  rewrite !dict_get_dict_set.
  rewrite (sorted_set_order si1 si2 (x :: l) H1 H2). now rewrite H.
Qed.

Lemma rules_record_agree (si1 si2 : list string -> list string)
    (text k : string) :
  set_order si1 -> set_order si2 -> k <> "Siblings" ->
  dict_get (rules_record si1 text) k = dict_get (rules_record si2 text) k.
Proof.
  intros H1 H2 N. unfold rules_record.
  apply locations_step_agree; [exact H1|exact H2|].
  do 3 apply apply_rule_agree.
  apply siblings_step_agree; [exact N|reflexivity].
Qed.

(** ** Further properties of the record *)

(** X1.  The file name is written to "Sources" as it is given and reaches
    no other field: the records of one text under two file names differ
    in "Sources" only. *)
Theorem filename_only_in_sources
    (to_datetime : string -> result datetime_or_nat)
    (set_iter : list string -> list string)
    (text filename1 filename2 : string) :
  exists data1 data2,
    extract_fields_unlabeled to_datetime set_iter text filename1 = Ok data1
    /\ extract_fields_unlabeled to_datetime set_iter text filename2 = Ok data2
    /\ dict_get data1 "Sources" = Ok filename1
    /\ dict_get data2 "Sources" = Ok filename2
    /\ forall field, field <> "Sources" ->
                     dict_get data1 field = dict_get data2 field.
Proof.
  destruct (extract_get to_datetime set_iter text filename1)
    as (d1 & E1 & _ & G1).
  destruct (extract_get to_datetime set_iter text filename2)
    as (d2 & E2 & _ & G2).
  exists d1, d2. split; [exact E1|]. split; [exact E2|].
  split; [now rewrite (G1 "Sources")|].
  split; [now rewrite (G2 "Sources")|].
  intros field N. rewrite G1, G2.
  destruct (String.eqb_spec field "Sources"); [contradiction|reflexivity].
Qed.

(** X2.  The parser of dates decides "Date of Birth" and "Date of
    Interview" and nothing else: the records of one text under two parsers
    agree on every other field. *)
Theorem parser_only_in_date_fields
    (to_datetime1 to_datetime2 : string -> result datetime_or_nat)
    (set_iter : list string -> list string) (text filename : string) :
  exists data1 data2,
    extract_fields_unlabeled to_datetime1 set_iter text filename = Ok data1
    /\ extract_fields_unlabeled to_datetime2 set_iter text filename = Ok data2
    /\ forall field,
         field <> "Date of Birth" -> field <> "Date of Interview" ->
         dict_get data1 field = dict_get data2 field.
Proof.
  destruct (extract_get to_datetime1 set_iter text filename)
    as (d1 & E1 & _ & G1).
  destruct (extract_get to_datetime2 set_iter text filename)
    as (d2 & E2 & _ & G2).
  exists d1, d2. split; [exact E1|]. split; [exact E2|].
  intros k N1 N2. rewrite G1, G2.
  destruct (String.eqb k "Sources"); [reflexivity|].
  destruct (existsb (String.eqb k) date_fields) eqn:D; [|reflexivity].
  unfold date_fields in D. cbn [existsb] in D.
  rewrite !orb_true_iff in D.
  destruct D as [D|[D|[D|[D|D]]]]; try discriminate;
    apply String.eqb_eq in D; subst k; try congruence.
  - rewrite rules_record_unruled by reflexivity. reflexivity.
  - rewrite rules_record_unruled by reflexivity. reflexivity.
Qed.

(** X3.  "Employer" is "N/A" exactly when the text does not mention John
    Deere, case not counted; when it does, the field is the mention as the
    text spells it. *)
Theorem employer_field
    (to_datetime : string -> result datetime_or_nat)
    (set_iter : list string -> list string) (text filename : string) :
  exists data,
    extract_fields_unlabeled to_datetime set_iter text filename = Ok data
    /\ ((~ occurs_ci "John Deere" text
         /\ dict_get data "Employer" = Ok "N/A")
        \/ (occurs_ci "John Deere" text
            /\ exists v,
                 dict_get data "Employer" = Ok v
                 /\ lower_str v = "john deere"
                 /\ piece v text)).
Proof.
  destruct (extract_record to_datetime set_iter text filename)
    as (data & E & _ & _ & _ & _ & G & _).
  exists data. split; [exact E|]. rewrite G, employer_ast.
  destruct (literal_rule "John Deere" text eq_refl) as [[N V]|(O & L & P)].
  - left. split; [exact N|now rewrite V].
  - right. split; [exact O|]. eexists. split; [reflexivity|].
    split; [exact L|exact P].
Qed.



(** X6.  A record that names a school also names a church and has Chicago
    among its locations: the phrase of the school rule contains the words
    the two other rules look for. *)
Theorem school_needs_church_and_chicago
    (to_datetime : string -> result datetime_or_nat)
    (set_iter : list string -> list string) (text filename : string) :
  set_order set_iter ->
  exists data school,
    extract_fields_unlabeled to_datetime set_iter text filename = Ok data
    /\ dict_get data "Schools Attended" = Ok school
    /\ (school <> "N/A" ->
        (exists church,
           dict_get data "Church Affiliation" = Ok church
           /\ church <> "N/A")
        /\ exists locations,
             In "Chicago" locations
             /\ dict_get data "Geographical Locations"
                = Ok (join ", " locations)).
Proof.
  intros Hset.
  destruct (extract_record to_datetime set_iter text filename)
    as (data & E & _ & _ & _ & Gc & _ & Gs & _ & _ & _ & Gl).
  exists data, (rule_value education_pattern ignorecase text).
  split; [exact E|]. split; [exact Gs|].
  rewrite education_ast. intros Hs.
  destruct (literal_rule "Salvation Army training college in Chicago" text
              eq_refl) as [[_ V]|(O & _)]; [contradiction|].
  split.
  - exists (rule_value church_pattern ignorecase text).
    split; [exact Gc|]. rewrite church_ast.
    assert (Oc : occurs_ci "Salvation Army" text).
    { eapply occurs_ci_piece; [|exact O].
      apply (occurs_ci_front "Salvation Army"
               " training college in Chicago"). }
    destruct (word_opt_rule "Salvation Army" " training college" text
                ltac:(discriminate) eq_refl eq_refl) as [[N _]|(_ & L & _)];
      [contradiction|].
    destruct L as [L|L];
      (eapply not_sentinel_lower; [exact L|discriminate]).
  - assert (Oc : occurs_ci "Chicago" text).
    { eapply occurs_ci_piece; [|exact O].
      exists "Salvation Army training college in ", "Chicago", "".
      split; reflexivity. }
    assert (I : In "Chicago" (locations_found text)).
    { apply locations_found_spec. split; [|exact Oc].
      unfold gazetteer. simpl. tauto. }
    exists (sorted (set_iter (locations_found text))). split.
    + eapply Permutation_in; [symmetry; apply sorted_perm|].
      apply set_iter_In; assumption.
    + rewrite Gl. destruct (locations_found text); [contradiction|].
      reflexivity.
Qed.

Lemma school_needs_church_and_chicago_witness :
  set_order ref_set_iter
  /\ exists data school,
       extract_fields_unlabeled ref_to_datetime ref_set_iter
         "He studied at the Salvation Army Training College in Chicago."
         "a.txt" = Ok data
       /\ dict_get data "Schools Attended" = Ok school
       /\ (school <> "N/A" ->
           (exists church,
              dict_get data "Church Affiliation" = Ok church
              /\ church <> "N/A")
           /\ exists locations,
                In "Chicago" locations
                /\ dict_get data "Geographical Locations"
                   = Ok (join ", " locations)).
Proof.
  split; [exact set_order_ref|].
  apply (school_needs_church_and_chicago ref_to_datetime ref_set_iter
           "He studied at the Salvation Army Training College in Chicago."
           "a.txt" set_order_ref).
Defined.

(** X7.  A whole number gives "Invalid Date" exactly when it is below
    -693593 or above 2958465, the days of 1 January of the year 1 and of
    31 December 9999 counted from 1899-12-30. *)
Theorem format_date_integer_invalid
    (to_datetime : string -> result datetime_or_nat) (n : Z) :
  format_date to_datetime (VInt n) = "Invalid Date"
  <-> (n < -693593 \/ 2958465 < n)%Z.
Proof.
  destruct (Z_le_dec 1800 n) as [L1|L1];
    [destruct (Z_le_dec n 2100) as [L2|L2]|].
  - rewrite format_date_int_window by lia. rewrite year_string by lia.
    split; [|lia]. intros H. now apply strftime_not_invalid in H.
  - rewrite format_date_int_serial by lia. apply serial_date_invalid.
  - rewrite format_date_int_serial by lia. apply serial_date_invalid.
Qed.

(** X8.  A whole number and the float it converts to give the same
    result. *)
Theorem format_date_integer_as_float
    (to_datetime : string -> result datetime_or_nat) (n : Z) (x : float) :
  float_of_int n = Ok x ->
  format_date to_datetime (VFloat x) = format_date to_datetime (VInt n).
Proof.
  intros H. destruct (Z_lt_le_dec (Z.abs n) (2 ^ 53)) as [S|B].
  - rewrite float_of_int_small in H by exact S. inversion H; subst.
    apply format_date_float_whole.
  - destruct (float_of_int_big n B) as [R|(m & e & E & He & Hm)];
      [congruence|].
    rewrite E in H. inversion H; subst.
    rewrite format_date_float_huge by assumption. symmetry.
    rewrite format_date_int_serial
      by (change (2 ^ 53)%Z with 9007199254740992%Z in B; lia).
    apply serial_date_invalid.
    change (2 ^ 53)%Z with 9007199254740992%Z in B. lia.
Qed.

Lemma format_date_integer_as_float_witness :
  float_of_int 43831 = Ok (Ffinite 43831 0)
  /\ format_date ref_to_datetime (VFloat (Ffinite 43831 0))
     = format_date ref_to_datetime (VInt 43831).
Proof.
  split; [reflexivity|].
  apply (format_date_integer_as_float ref_to_datetime 43831
           (Ffinite 43831 0)).
  reflexivity.
Defined.








(** X19.  The order in which a set gives its members shows in "Siblings"
    and in no other field: "Geographical Locations" is sorted, and the
    records of one text under two orders agree wherever the field is not
    "Siblings". *)
Theorem set_order_only_in_siblings
    (to_datetime : string -> result datetime_or_nat)
    (set_iter1 set_iter2 : list string -> list string)
    (text filename : string) :
  set_order set_iter1 ->
  set_order set_iter2 ->
  exists data1 data2,
    extract_fields_unlabeled to_datetime set_iter1 text filename = Ok data1
    /\ extract_fields_unlabeled to_datetime set_iter2 text filename = Ok data2
    /\ forall field, field <> "Siblings" ->
                     dict_get data1 field = dict_get data2 field.
Proof.
  intros H1 H2.
  destruct (extract_get to_datetime set_iter1 text filename)
    as (d1 & E1 & _ & G1).
  destruct (extract_get to_datetime set_iter2 text filename)
    as (d2 & E2 & _ & G2).
  exists d1, d2. split; [exact E1|]. split; [exact E2|].
  intros field N. rewrite G1, G2.
  now rewrite (rules_record_agree set_iter1 set_iter2 text field H1 H2 N).
Qed.

Lemma set_order_only_in_siblings_witness :
  set_order ref_set_iter
  /\ set_order ref_set_iter_rev
  /\ exists data1 data2,
       extract_fields_unlabeled ref_to_datetime ref_set_iter locations_text
         "a.txt" = Ok data1
       /\ extract_fields_unlabeled ref_to_datetime ref_set_iter_rev
            locations_text "a.txt" = Ok data2
       /\ forall field, field <> "Siblings" ->
                        dict_get data1 field = dict_get data2 field.
Proof.
  split; [exact set_order_ref|]. split; [exact set_order_rev|].
  apply (set_order_only_in_siblings ref_to_datetime ref_set_iter
           ref_set_iter_rev locations_text "a.txt"
           set_order_ref set_order_rev).
Defined.

(** ** Reading the files *)

Lemma read_pages_text (pages : list (outcome string)) :
  forall text,
    fst (read_pages pages text)
    = text ++ concat_all (map (fun page_text => page_text ++ newline)
                            (filter nonempty (pages_read pages))).
Proof.
  induction pages as [|[page_text|message] pages IH]; intros text;
    cbn [read_pages pages_read filter map concat_all fst].
  - now rewrite append_nil_r.
  - rewrite IH. destruct page_text as [|a page_text];
      cbn [nonempty map concat_all]; [reflexivity|].
    now rewrite !append_assoc.
  - now rewrite append_nil_r.
Qed.

Lemma read_pages_failure (pages : list (outcome string)) :
  forall text,
    snd (read_pages pages text) = None <-> all_fine pages = true.
Proof.
  induction pages as [|[page_text|message] pages IH]; intros text;
    cbn [read_pages all_fine snd].
  - tauto.
  - apply IH.
  - split; discriminate.
Qed.

Lemma extract_empty
    (to_datetime : string -> result datetime_or_nat)
    (set_iter : list string -> list string) (filename : string) :
  extract_fields_unlabeled to_datetime set_iter "" filename
  = Ok (sentinel_record filename).
Proof. reflexivity. Qed.

Lemma unreadable_text (w : world) (filename : string) :
  unreadable w filename ->
  exists message,
    read_document w filename
    = ("", [error_line (path_join input_dir filename) message]).
Proof.
  unfold unreadable, read_document, extract_text_from_pdf.
  destruct (ends_with ".pdf" (lower_str filename));
    intros (message & ->); now exists message.
Qed.

Lemma cell_present (data : dict) (columns : list string) :
  keys data = columns ->
  Forall (fun c => c <> None) (map (cell data) columns).
Proof.
  intros K. apply Forall_forall. intros c I. apply in_map_iff in I.
  destruct I as (column & <- & I). unfold cell.
  destruct (dict_get_in_keys data column) as (v & ->);
    [now rewrite K|discriminate].
Qed.

Lemma sentinel_row_cells (filename : string) :
  map (cell (sentinel_record filename)) required_fields
  = sentinel_row filename.
Proof. reflexivity. Qed.

Section Running.

Variable to_datetime : string -> result datetime_or_nat.
Variable set_iter : list string -> list string.

Lemma process_files_spec (w : world) (names : list string) :
  forall resultados printed,
    exists records,
      process_files to_datetime set_iter w names resultados printed
      = ((printed ++ announcements w names)%list,
         Ok (resultados ++ records)%list)
      /\ Forall2
           (fun filename data =>
              extract_fields_unlabeled to_datetime set_iter
                (fst (read_document w filename)) filename = Ok data)
           (documents names) records.
Proof.
  unfold announcements.
  induction names as [|filename names IH]; intros resultados printed;
    cbn [process_files documents filter].
  - exists []. cbn [flat_map]. rewrite !app_nil_r.
    split; [reflexivity|constructor].
  - destruct (is_document filename).
    + destruct (read_document w filename) as [text lines] eqn:R.
      destruct (extract_get to_datetime set_iter text filename)
        as (data & E & _).
      rewrite E.
      destruct (IH (resultados ++ [data])%list
                  ((printed ++ [processing_line filename]) ++ lines)%list)
        as (records & P & F).
      exists (data :: records).
      split; [|constructor; [rewrite R; exact E|exact F]].
      rewrite P. cbn [flat_map]. rewrite R. cbn [snd].
      rewrite <- (app_assoc resultados [data] records).
      rewrite <- !app_assoc. reflexivity.
    + apply IH.
Qed.

Lemma process_files_frame (w1 w2 : world) (names : list string) :
  (forall filename, In filename (documents names) ->
     read_document w1 filename = read_document w2 filename) ->
  forall resultados printed,
    process_files to_datetime set_iter w1 names resultados printed
    = process_files to_datetime set_iter w2 names resultados printed.
Proof.
  induction names as [|filename names IH]; intros H resultados printed;
    cbn [process_files]; [reflexivity|].
  cbn [documents filter] in H.
  destruct (is_document filename).
  - rewrite (H filename) by now left.
    destruct (read_document w2 filename) as [text lines].
    destruct (extract_fields_unlabeled to_datetime set_iter text filename);
      [|reflexivity].
    apply IH. intros f I. apply H. now right.
  - apply IH. exact H.
Qed.

Lemma main_spec (w : world) (names : list string) :
  listdir w = Fine names ->
  exists records,
    Forall2
      (fun filename data =>
         extract_fields_unlabeled to_datetime set_iter
           (fst (read_document w filename)) filename = Ok data)
      (documents names) records
    /\ main to_datetime set_iter w
       = match records with
         | [] =>
             ((announcements w names ++ [no_documents_line])%list,
              NothingWritten)
         | _ =>
             match csv_fails w with
             | Some message => (announcements w names, Failed message)
             | None =>
                 ((announcements w names ++ [completed_line])%list,
                  Written output_file required_fields
                    (data_frame records required_fields))
             end
         end.
Proof.
  intros L. unfold main. rewrite L.
  destruct (process_files_spec w names [] []) as (records & P & F).
  rewrite P. cbn [app]. exists records. split; [exact F|].
  destruct records; reflexivity.
Qed.

Lemma rows_of_records (w : world) (docs : list string)
    (records : list dict) :
  Forall2
    (fun filename data =>
       extract_fields_unlabeled to_datetime set_iter
         (fst (read_document w filename)) filename = Ok data)
    docs records ->
  Forall2
    (fun filename row =>
       exists data,
         extract_fields_unlabeled to_datetime set_iter
           (fst (read_document w filename)) filename = Ok data
         /\ row = map (cell data) required_fields
         /\ Forall (fun c => c <> None) row
         /\ cell data "Sources" = Some filename)
    docs (data_frame records required_fields).
Proof.
  induction 1 as [|filename data docs records E F IH]; cbn [data_frame map];
    constructor; [|exact IH].
  exists data. split; [exact E|]. split; [reflexivity|].
  destruct (extract_get to_datetime set_iter
              (fst (read_document w filename)) filename)
    as (data' & E' & K & G).
  rewrite E in E'. inversion E'; subst data'.
  split; [now apply cell_present|].
  unfold cell. now rewrite (G "Sources").
Qed.

End Running.

(** ** Properties of the program around the extractor *)

(** X15.  The text of a PDF file is the texts of its pages that are not
    empty, each followed by a line feed, up to the first page that fails:
    what was read before a failure is kept, a file that cannot be opened
    gives the empty text, and nothing is printed exactly when the file
    and all its pages are read; otherwise one line names the file and the
    failure. *)
Theorem extract_text_from_pdf_pages (open_pdf : string -> pdf)
    (file_path : string) :
  fst (extract_text_from_pdf open_pdf file_path)
  = match open_pdf file_path with
    | Fine pages =>
        concat_all (map (fun page_text => page_text ++ newline)
                      (filter nonempty (pages_read pages)))
    | Fails _ => ""
    end
  /\ (snd (extract_text_from_pdf open_pdf file_path) = []
      <-> exists pages,
            open_pdf file_path = Fine pages /\ all_fine pages = true)
  /\ (snd (extract_text_from_pdf open_pdf file_path) = []
      \/ exists message,
           snd (extract_text_from_pdf open_pdf file_path)
           = [error_line file_path message]).
Proof.
  unfold extract_text_from_pdf.
  destruct (open_pdf file_path) as [pages|message].
  - pose proof (read_pages_text pages "") as T.
    pose proof (read_pages_failure pages "") as F.
    destruct (read_pages pages "") as [text [message|]];
      cbn [fst snd] in *.
    + split; [exact T|]. split.
      * split; [discriminate|]. intros (pages' & E & A). inversion E; subst.
        apply F in A. discriminate.
      * right. now exists message.
    + split; [exact T|]. split.
      * split; [|reflexivity]. intros _. exists pages.
        split; [reflexivity|]. now apply F.
      * now left.
  - cbn [fst snd]. split; [reflexivity|]. split.
    + split; [discriminate|]. intros (pages & E & _). discriminate.
    + right. now exists message.
Qed.

(** X16.  How [main] ends.  When the directory cannot be listed, [main]
    fails with that exception and prints nothing.  Otherwise each document
    of the listing (a name that ends in ".pdf" or ".txt", case not
    counted) is announced in the order of the listing, followed by a line
    if it could not be read to its end.  With no document nothing is
    written; with one or more, [to_csv] is handed one row for each
    document, in the order of the listing, and [main] fails only if
    [to_csv] does.  The row of a document is the record of its text in the
    order of the schema, no cell is missing, and the cell "Sources" is the
    name of the file.  The extractor never raises. *)
Theorem main_ending
    (to_datetime : string -> result datetime_or_nat)
    (set_iter : list string -> list string) (w : world) :
  match listdir w with
  | Fails message => main to_datetime set_iter w = ([], Failed message)
  | Fine names =>
      match documents names, csv_fails w with
      | [], _ =>
          main to_datetime set_iter w = ([no_documents_line], NothingWritten)
      | _ :: _, Some message =>
          main to_datetime set_iter w
          = (announcements w names, Failed message)
      | _ :: _, None =>
          exists rows,
            main to_datetime set_iter w
            = ((announcements w names ++ [completed_line])%list,
               Written output_file required_fields rows)
            /\ Forall2
                 (fun filename row =>
                    exists data,
                      extract_fields_unlabeled to_datetime set_iter
                        (fst (read_document w filename)) filename
                      = Ok data
                      /\ row = map (cell data) required_fields
                      /\ Forall (fun c => c <> None) row
                      /\ cell data "Sources" = Some filename)
                 (documents names) rows
      end
  end.
Proof.
  destruct (listdir w) as [names|message] eqn:L.
  - destruct (main_spec to_datetime set_iter w names L)
      as (records & F & M).
    destruct records as [|data records].
    + inversion F as [D|]. rewrite M. unfold announcements.
      now rewrite <- D.
    + pose proof (rows_of_records to_datetime set_iter w _ _ F) as R.
      inversion F as [|filename d docs rs E F' D]. subst.
      rewrite <- D in R.
      destruct (csv_fails w) as [message|]; [exact M|].
      eexists. split; [exact M|exact R].
  - unfold main. now rewrite L.
Qed.

(** X17.  A document that cannot be read still has its row: ["N/A"] in
    every column but "Sources", which is the name of the file. *)
Theorem unreadable_document_row
    (to_datetime : string -> result datetime_or_nat)
    (set_iter : list string -> list string) (w : world)
    (names : list string) :
  listdir w = Fine names ->
  csv_fails w = None ->
  documents names <> [] ->
  exists printed rows,
    main to_datetime set_iter w
    = (printed, Written output_file required_fields rows)
    /\ Forall2
         (fun filename row =>
            unreadable w filename -> row = sentinel_row filename)
         (documents names) rows.
Proof.
  intros L C D.
  destruct (main_spec to_datetime set_iter w names L)
    as (records & F & M).
  rewrite C in M.
  destruct records as [|data records];
    [inversion F as [D'|]; now rewrite <- D' in D|].
  eexists. eexists. split; [exact M|].
  clear M D. revert F. generalize (data :: records) as rs.
  generalize (documents names) as docs.
  induction 1 as [|filename d docs rs E F IH]; cbn [data_frame map];
    constructor; [|exact IH].
  intros U. destruct (unreadable_text w filename U) as (message & R).
  rewrite R in E. cbn [fst] in E. rewrite extract_empty in E.
  inversion E; subst d. apply sentinel_row_cells.
Qed.

Lemma unreadable_document_row_witness :
  listdir ref_world = Fine ["b.TXT"; "notes.md"; "a.pdf"]
  /\ csv_fails ref_world = None
  /\ documents ["b.TXT"; "notes.md"; "a.pdf"] <> []
  /\ exists printed rows,
       main ref_to_datetime ref_set_iter ref_world
       = (printed, Written output_file required_fields rows)
       /\ Forall2
            (fun filename row =>
               unreadable ref_world filename -> row = sentinel_row filename)
            (documents ["b.TXT"; "notes.md"; "a.pdf"]) rows.
Proof.
  assert (D : documents ["b.TXT"; "notes.md"; "a.pdf"] <> [])
    by discriminate.
  split; [reflexivity|]. split; [reflexivity|]. split; [exact D|].
  apply (unreadable_document_row ref_to_datetime ref_set_iter ref_world
           ["b.TXT"; "notes.md"; "a.pdf"] eq_refl eq_refl D).
Defined.

(** X18.  [main] reads the documents of the listing and no other file: in
    two worlds with the same listing, in which the PDF documents open
    alike and the other documents read alike, [main] prints the same
    lines and ends the same way. *)
Theorem main_reads_documents_only
    (to_datetime : string -> result datetime_or_nat)
    (set_iter : list string -> list string) (w1 w2 : world)
    (names : list string) :
  listdir w1 = Fine names ->
  listdir w2 = Fine names ->
  csv_fails w1 = csv_fails w2 ->
  (forall filename, In filename (documents names) ->
     if ends_with ".pdf" (lower_str filename)
     then open_pdf w1 (path_join input_dir filename)
          = open_pdf w2 (path_join input_dir filename)
     else read_text w1 (path_join input_dir filename)
          = read_text w2 (path_join input_dir filename)) ->
  main to_datetime set_iter w1 = main to_datetime set_iter w2.
Proof.
  intros L1 L2 C H. unfold main. rewrite L1, L2, C.
  rewrite (process_files_frame to_datetime set_iter w1 w2 names);
    [reflexivity|].
  intros filename I. specialize (H filename I).
  unfold read_document, extract_text_from_pdf.
  destruct (ends_with ".pdf" (lower_str filename)); now rewrite H.
Qed.

Lemma main_reads_documents_only_witness :
  listdir ref_world = Fine ["b.TXT"; "notes.md"; "a.pdf"]
  /\ listdir ref_world_other = Fine ["b.TXT"; "notes.md"; "a.pdf"]
  /\ main ref_to_datetime ref_set_iter ref_world
     = main ref_to_datetime ref_set_iter ref_world_other.
Proof.
  split; [reflexivity|]. split; [reflexivity|].
  apply (main_reads_documents_only ref_to_datetime ref_set_iter ref_world
           ref_world_other ["b.TXT"; "notes.md"; "a.pdf"]
           eq_refl eq_refl eq_refl).
  intros filename [<-|[<-|[]]]; reflexivity.
Defined.

